(** * American put option on a binomial lattice as a finite-horizon MDP

    Verification of the notebook [ddp_ex_MF_7_6_4_py.ipynb] (Miranda and
    Fackler, section 7.6.4): the construction of the state-action-pair
    arrays [R], [Q], [s_indices], [a_indices] and of the discount factor,
    followed by backward induction.

    Numbers: Python floats are idealised as real numbers (no rounding, no
    [nan]/[inf]); Python integers are [Z]; array lengths are [nat]. *)

From Stdlib Require Import Reals Lra Lia ZArith List.
From stdpp Require Import base option list gmap.

Local Open Scope R_scope.

(** ** Exceptions

    The exceptions of the Python code ([ZeroDivisionError], [IndexError])
    and the error taxonomy of the spec ([InvalidParameter], [InvalidHorizon],
    [MalformedMDP]). *)

Inductive error : Type :=
  | ZeroDivisionError
  | IndexError
  | InvalidParameter
  | InvalidHorizon
  | MalformedMDP.

Inductive result (A : Type) : Type :=
  | Ok (a : A)
  | Raise (e : error).
Arguments Ok {A} a.
Arguments Raise {A} e.

#[global] Instance result_ret : MRet result := fun _ a => Ok a.

#[global] Instance result_bind : MBind result := fun _ _ k c =>
  match c with
  | Ok a => k a
  | Raise e => Raise e
  end.

(** [for x in xs: acc = body x acc], stopping at the first exception. *)
Fixpoint for_each {A B : Type} (body : B -> A -> result A) (xs : list B) (acc : A)
  : result A :=
  match xs with
  | [] => Ok acc
  | x :: xs' => acc' ← body x acc; for_each body xs' acc'
  end.

(** ** Python and numpy primitives *)

(** [x / k] for a Python float (or int) [x] and a Python int [k]. *)
Definition truediv (x : R) (k : Z) : result R :=
  if (k =? 0)%Z then Raise ZeroDivisionError else Ok (x / IZR k).

(** [np.arange(a, b)]: the integers [a, a+1, ..., b-1] (none if [b <= a]). *)
Definition arange (a b : Z) : list Z :=
  map (fun i => (a + Z.of_nat i)%Z) (seq 0 (Z.to_nat (b - a))).

(** [range(k)] for a non-negative length. *)
Definition range (k : nat) : list Z := arange 0 (Z.of_nat k).

(** Resolution of a Python index against a dimension of size [len]:
    negative indices count from the end, anything else out of range raises. *)
Definition py_index (len : nat) (i : Z) : result nat :=
  if ((0 <=? i) && (i <? Z.of_nat len))%Z then Ok (Z.to_nat i)
  else if ((- Z.of_nat len <=? i) && (i <? 0))%Z then Ok (Z.to_nat (i + Z.of_nat len))
  else Raise IndexError.

(** [a[i]] on a one-dimensional array. *)
Definition getitem {A : Type} (a : list A) (i : Z) : result A :=
  k ← py_index (length a) i;
  match a !! k with
  | Some x => Ok x
  | None => Raise IndexError
  end.

(** [a[:-1]] *)
Definition drop_last {A : Type} (a : list A) : list A := removelast a.

(** [np.empty((n, m))]: an [n] by [m] array of whatever the memory holds;
    [junk i j] stands for the unspecified initial content of cell [(i, j)]. *)
Definition np_empty (junk : nat -> nat -> R) (n m : nat) : list (list R) :=
  map (fun i => map (junk i) (seq 0 m)) (seq 0 n).

(** [A[:, j] = x] *)
Definition set_column (j : nat) (x : R) (A : list (list R)) : list (list R) :=
  map (fun row => <[j := x]> row) A.

(** [A[:-1, j] = xs]: column [j] of every row but the last (numpy wants
    [xs] to have one entry per such row, which it has where this is used). *)
Definition set_column_but_last (j : nat) (xs : list R) (A : list (list R))
  : list (list R) :=
  zip_with (fun row x => <[j := x]> row) (drop_last A) xs
    ++ drop (length A - 1) A.

(** [A.ravel()]: row-major flattening. *)
Definition ravel (A : list (list R)) : list R := concat A.

(** [scipy.sparse.lil_matrix]: a shape and the assigned cells; a cell that
    was never assigned reads as 0. *)
Record lil_matrix : Type := LilMatrix {
  shape : nat * nat;
  cells : gmap (nat * nat) R
}.

(** [sparse.lil_matrix((nrows, ncols))] *)
Definition lil_zeros (nrows ncols : nat) : lil_matrix :=
  {| shape := (nrows, ncols); cells := ∅ |}.

(** Value of [M[i, j]] for in-range natural indices. *)
Definition cell (M : lil_matrix) (i j : nat) : R :=
  default 0 (cells M !! (i, j)).

(** [M[i, j] = x]: assignment, overwriting what the cell held. *)
Definition setitem (M : lil_matrix) (i j : Z) (x : R) : result lil_matrix :=
  i' ← py_index (fst (shape M)) i;
  j' ← py_index (snd (shape M)) j;
  Ok {| shape := shape M; cells := <[(i', j') := x]> (cells M) |}.

(** ** The notebook *)

(** The parameter cell. *)
Record params : Type := Params {
  T : R;        (* time to expiration, in years *)
  vol : R;      (* annual volatility *)
  r : R;        (* annual interest rate *)
  strike : R;   (* strike price *)
  p0 : R;       (* current price *)
  N : Z         (* number of periods to expiration *)
}.

(** [tau = T/N] *)
Definition tau (p : params) : result R := truediv (T p) (N p).

(** [beta = np.exp(-r*tau)] *)
Definition beta (p : params) (tau : R) : R := exp (- r p * tau).

(** [u = np.exp(vol*np.sqrt(tau))] *)
Definition u (p : params) (tau : R) : R := exp (vol p * sqrt tau).

(** [q = 1/2 + np.sqrt(tau)*(r - (vol**2)/2)/(2*vol)] *)
Definition q (p : params) (tau : R) : R :=
  1 / 2 + sqrt tau * (r p - (vol p) ^ 2 / 2) / (2 * vol p).

(** [ps = u**np.arange(-N, N+1) * p0] *)
Definition ps (p : params) (u : R) : list R :=
  map (fun k => powerRZ u k * p0 p) (arange (- N p) (N p + 1)).

(** [n = len(ps) + 1]; state [n-1] is "the option has been exercised". *)
Definition n (ps : list R) : nat := length ps + 1.

(** [m = 2]; 0: hold, 1: exercise. *)
Definition m : nat := 2.

(** [L = n*m - 1] *)
Definition L (n : nat) : nat := n * m - 1.

(** Modelled from the spec: [quantecon.markov.sa_indices] is not part of the
    notebook. The spec has the state-action pairs "enumerated in a fixed
    deterministic order (state-major, action-minor, i.e. all actions of
    state 0, then state 1, etc.)". *)
Definition sa_indices (num_states num_actions : nat) : list Z * list Z :=
  let pairs :=
    flat_map (fun s => map (fun a => (Z.of_nat s, Z.of_nat a)) (seq 0 num_actions))
             (seq 0 num_states) in
  (map fst pairs, map snd pairs).

(** [s_indices, a_indices = s_indices[:-1], a_indices[:-1]] *)
Definition s_indices (n : nat) : list Z := drop_last (fst (sa_indices n m)).
Definition a_indices (n : nat) : list Z := drop_last (snd (sa_indices n m)).

(** The reward cell:
[[
R = np.empty((n, m))
R[:, 0] = 0
R[:-1, 1] = strike - ps
R = R.ravel()[:-1]
]]
    (named [R_arr] here, [R] being the type of real numbers). *)
Definition R_arr (junk : nat -> nat -> R) (p : params) (ps : list R) : list R :=
  let R0 := np_empty junk (n ps) m in
  let R1 := set_column 0 0 R0 in
  let R2 := set_column_but_last 1 (map (fun x => strike p - x) ps) R1 in
  drop_last (ravel R2).

(** Body of the loop of the transition cell, for one [i]. *)
Definition Q_body (q : R) (ps : list R) (i : Z) (Q : lil_matrix) : result lil_matrix :=
  a ← getitem (a_indices (n ps)) i;
  if (a =? 0)%Z then
    s ← getitem (s_indices (n ps)) i;
    Q1 ← setitem Q i (Z.min (s + 1) (Z.of_nat (length ps) - 1)) q;
    s' ← getitem (s_indices (n ps)) i;
    setitem Q1 i (Z.max (s' - 1) 0) (1 - q)
  else
    setitem Q i (Z.of_nat (n ps) - 1) 1.

(** The transition cell:
[[
Q = sparse.lil_matrix((L, n))
for i in range(L-1):
    if a_indices[i] == 0:
        Q[i, min(s_indices[i]+1, len(ps)-1)] = q
        Q[i, max(s_indices[i]-1, 0)] = 1 - q
    else:
        Q[i, n-1] = 1
Q[L-1, n-1] = 1
]] *)
Definition Q_arr (q : R) (ps : list R) : result lil_matrix :=
  Q ← for_each (Q_body q ps) (range (L (n ps) - 1)) (lil_zeros (L (n ps)) (n ps));
  setitem Q (Z.of_nat (L (n ps)) - 1) (Z.of_nat (n ps) - 1) 1.

(** Modelled from the spec: the class [quantecon.markov.DiscreteDP] is not
    part of the notebook; the MDP is the data [DiscreteDP(R, Q, beta,
    s_indices, a_indices)] is given: per state-action pair "a scalar
    immediate reward" and "a probability distribution over next states",
    the pair's state and action, and the discount factor. *)
Record DiscreteDP : Type := MkDiscreteDP {
  ddp_R : list R;
  ddp_Q : lil_matrix;
  ddp_beta : R;
  ddp_s_indices : list Z;
  ddp_a_indices : list Z
}.

(** The cells of the notebook up to [ddp = DiscreteDP(...)], in order. *)
Definition build_option_mdp (junk : nat -> nat -> R) (p : params) : result DiscreteDP :=
  tau ← tau p;
  let beta := beta p tau in
  let u := u p tau in
  let q := q p tau in
  let ps := ps p u in
  Q ← Q_arr q ps;
  Ok (MkDiscreteDP (R_arr junk p ps) Q beta (s_indices (n ps)) (a_indices (n ps))).

(** ** The backward-induction solver *)

#[global] Instance Rle_decision (x y : R) : Decision (x <= y) := Rle_dec x y.
#[global] Instance Rlt_decision (x y : R) : Decision (x < y) := Rlt_dec x y.
#[global] Instance Req_decision : EqDecision R := Req_dec_T.

(** [sum_to k f] is [f 0 + f 1 + ... + f (k-1)]. *)
Definition sum_to (k : nat) (f : nat -> R) : R :=
  fold_right Rplus 0 (map f (seq 0 k)).

(** [L] and [n] of an MDP: the shape of its transition array. *)
Definition num_pairs (mdp : DiscreteDP) : nat := fst (shape (ddp_Q mdp)).
Definition num_states (mdp : DiscreteDP) : nat := snd (shape (ddp_Q mdp)).

(** [P(s,a,s')] for the state-action pair of index [i] and next state [j]. *)
Definition prob (mdp : DiscreteDP) (i j : nat) : R := cell (ddp_Q mdp) i j.

(** Immediate reward of the state-action pair of index [i]. *)
Definition reward (mdp : DiscreteDP) (i : nat) : R := default 0 (ddp_R mdp !! i).

Definition row_sum (mdp : DiscreteDP) (i : nat) : R :=
  sum_to (num_states mdp) (prob mdp i).

(** The tolerance of the spec's row-sum check. *)
Definition tolerance : R := 1e-8.

(** Modelled from the spec: the solver's check of a transition row, "does
    not sum to 1 within a fixed tolerance (e.g. 1e-8) or contains a negative
    probability". *)
Definition row_ok (mdp : DiscreteDP) (i : nat) : bool :=
  bool_decide (Rabs (row_sum mdp i - 1) <= tolerance)
  && forallb (fun j => bool_decide (0 <= prob mdp i j)) (seq 0 (num_states mdp)).

(** Indices of the state-action pairs of state [s], with their actions, in
    the order of the pair list. *)
Definition feasible (mdp : DiscreteDP) (s : nat) : list (nat * Z) :=
  omap (fun i =>
          match ddp_s_indices mdp !! i, ddp_a_indices mdp !! i with
          | Some s', Some a => if (s' =? Z.of_nat s)%Z then Some (i, a) else None
          | _, _ => None
          end)
       (seq 0 (num_pairs mdp)).

(** Modelled from the spec: the solver's check of the MDP, "fails with
    MalformedMDP if any state-action pair's transition row does not sum to 1
    within a fixed tolerance (e.g. 1e-8) or contains a negative probability,
    or if a state has zero feasible actions". *)
Definition well_formed (mdp : DiscreteDP) : bool :=
  forallb (row_ok mdp) (seq 0 (num_pairs mdp))
  && forallb (fun s => negb (bool_decide (feasible mdp s = [])))
             (seq 0 (num_states mdp)).

(** Modelled from the spec:
    [Q(s,a) = reward(s,a) + beta * sum_{s'} P(s,a,s') * V_{t+1}(s')],
    for the pair of index [i] and the next-period value vector [v]. *)
Definition Qvalue (mdp : DiscreteDP) (v : list R) (i : nat) : R :=
  reward mdp i
  + ddp_beta mdp * sum_to (num_states mdp) (fun j => prob mdp i j * default 0 (v !! j)).

(** Modelled from the spec: "argmax_a Q(s,a), tie-break by lowest action
    index": the running best (action, Q-value) is replaced by a candidate
    with a strictly higher Q-value, or an equal Q-value and a lower action. *)
Definition pick (best cand : Z * R) : Z * R :=
  if bool_decide (snd best < snd cand)
     || (bool_decide (snd cand = snd best) && (fst cand <? fst best)%Z)
  then cand else best.

Definition argmax (cands : list (Z * R)) : option (Z * R) :=
  match cands with
  | [] => None
  | c :: cs => Some (fold_left pick cs c)
  end.

(** Modelled from the spec: the greedy choice at state [s] against the
    next-period values [v], "V_t(s) = max_a Q(s,a)" with its argmax. *)
Definition greedy (mdp : DiscreteDP) (v : list R) (s : nat) : option (Z * R) :=
  argmax (map (fun ia => (snd ia, Qvalue mdp v (fst ia))) (feasible mdp s)).

(** Modelled from the spec: one backup step, "for each state s, for each
    feasible action a of s: compute Q(s,a); set V_t(s) = max_a Q(s,a); set
    policy_t(s) = argmax_a Q(s,a)". Returns [(V_t, policy_t)]. *)
Definition backup (mdp : DiscreteDP) (v : list R) : result (list R * list Z) :=
  for_each
    (fun s (acc : list R * list Z) =>
       match greedy mdp v s with
       | Some (a, x) => Ok (fst acc ++ [x], snd acc ++ [a])
       | None => Raise MalformedMDP
       end)
    (seq 0 (num_states mdp)) ([], []).

(** Modelled from the spec: "applied for t from N-1 down to 0"; the value
    rows are kept with row [t] at position [t], so the row of period [t+1]
    is the head when period [t] is computed. *)
Definition backward_steps (mdp : DiscreteDP) (horizon : nat) (v_term : list R)
  : result (list (list R) * list (list Z)) :=
  for_each
    (fun (_ : nat) (acc : list (list R) * list (list Z)) =>
       match fst acc with
       | v_next :: _ =>
           '(v, sigma) ← backup mdp v_next;
           Ok (v :: fst acc, sigma :: snd acc)
       | [] => Raise MalformedMDP
       end)
    (rev (seq 0 horizon)) ([v_term], []).

(** Modelled from the spec: the solver is
    [quantecon.markov.backward_induction], which is not part of the
    notebook. [backward_induction(mdp, N, terminal_value=None)] returns the
    value array ([N+1] rows) and the policy array ([N] rows); it "fails with
    InvalidHorizon if N < 1", the terminal value is "default: all zeros". *)
Definition backward_induction (mdp : DiscreteDP) (horizon : Z) (v_term : option (list R))
  : result (list (list R) * list (list Z)) :=
  if (horizon <? 1)%Z then Raise InvalidHorizon
  else if negb (well_formed mdp) then Raise MalformedMDP
  else backward_steps mdp (Z.to_nat horizon)
         (default (replicate (num_states mdp) 0) v_term).

(** The notebook's [vs, sigmas = backward_induction(ddp, N)]. *)
Definition notebook (junk : nat -> nat -> R) (p : params)
  : result (list (list R) * list (list Z)) :=
  ddp ← build_option_mdp junk p;
  backward_induction ddp (N p) None.

(** ** The post-processing cell *)

(** [a[idx]] for an array [idx] of integers: every index is resolved as in
    [a[i]], the first one out of range raises. *)
Fixpoint take_indices {A : Type} (a : list A) (idx : list Z) : result (list A) :=
  match idx with
  | [] => Ok []
  | i :: idx' => x ← getitem a i; xs ← take_indices a idx'; Ok (x :: xs)
  end.

(** [A.sum(-1)] for a two-dimensional integer array: the sum of each row. *)
Definition sum_rows (A : list (list Z)) : list Z := map (fold_right Z.add 0%Z) A.

Module Post.

(** [v = vs[0]] *)
Definition v (vs : list (list R)) : result (list R) := getitem vs 0.

(** [max_exercise_price = ps[sigmas[::-1].sum(-1)-1]] *)
Definition max_exercise_price (ps : list R) (sigmas : list (list Z)) : result (list R) :=
  take_indices ps (map (fun c => (c - 1)%Z) (sum_rows (rev sigmas))).

End Post.

(** What the two panels plot, [axes[0].plot(ps, v[:-1])] and
    [axes[1].plot(..., max_exercise_price)]: the lattice, the period-0
    values of the price states and the exercise boundary. *)
Definition figure_data (junk : nat -> nat -> R) (p : params)
  : result (list R * list R * list R) :=
  t ← tau p;
  let xs := ps p (u p t) in
  '(vs, sigmas) ← notebook junk p;
  v0 ← Post.v vs;
  boundary ← Post.max_exercise_price xs sigmas;
  Ok (xs, drop_last v0, boundary).

(** ** Vocabulary of the properties *)

(** Content of the row of the pair [(s, hold)], for [k = len(ps)] price
    levels: the assignment of [1 - q] comes second and wins where the two
    columns coincide. *)
Definition hold_row (q : R) (k s j : nat) : R :=
  if decide (j = Nat.pred s) then 1 - q
  else if decide (j = Nat.min (s + 1) (k - 1)) then q
  else 0.

(** Content of the row of pair [i] once the transition cell has run. *)
Definition Q_row (q : R) (k i j : nat) : R :=
  if decide (i mod 2 = 0 /\ i < 2 * k)%nat then hold_row q k (i / 2) j
  else if decide (j = k) then 1 else 0.

(** What the cells leave in [ddp], for the period length [t] and the
    lattice [xs = ps]. *)
Definition built (junk : nat -> nat -> R) (p : params) (t : R) (mdp : DiscreteDP) : Prop :=
  let xs := ps p (u p t) in
  ddp_R mdp = R_arr junk p xs
  /\ ddp_beta mdp = beta p t
  /\ ddp_s_indices mdp = s_indices (n xs)
  /\ ddp_a_indices mdp = a_indices (n xs)
  /\ shape (ddp_Q mdp) = (L (n xs), n xs)
  /\ forall i j : nat,
       prob mdp i j = if decide (i < L (n xs))%nat then Q_row (q p t) (length xs) i j else 0.

(** The Builder's stated preconditions: positive reals and [N >= 1]. *)
Definition valid_inputs (p : params) : Prop :=
  0 < T p /\ 0 < vol p /\ 0 < r p /\ 0 < strike p /\ 0 < p0 p /\ (1 <= N p)%Z.

(** Every transition row is non-negative and sums to 1 within the tolerance. *)
Definition stochastic_rows (mdp : DiscreteDP) : Prop :=
  forall i : nat,
    (i < num_pairs mdp)%nat ->
    (forall j : nat, (j < num_states mdp)%nat -> 0 <= prob mdp i j)
    /\ Rabs (row_sum mdp i - 1) <= tolerance.

(** No cell of [np.empty] is read, so any content will do. *)
Definition no_junk : nat -> nat -> R := fun _ _ => 0.

(** The parameter cell as the notebook has it. *)
Definition notebook_params : params :=
  {| T := 0.5; vol := 0.2; r := 0.05; strike := 2.1; p0 := 2; N := 100 |}.

(** Positive inputs whose up-jump probability is [q = 5.475]. *)
Definition steep_params : params :=
  {| T := 1; vol := 0.1; r := 1; strike := 1; p0 := 1; N := 1 |}.

(** The notebook's parameters with a negative strike price. *)
Definition negative_strike_params : params :=
  {| T := 0.5; vol := 0.2; r := 0.05; strike := -1; p0 := 2; N := 100 |}.

(** The notebook's parameters with a higher strike price. *)
Definition higher_strike_params : params :=
  {| T := 0.5; vol := 0.2; r := 0.05; strike := 2.2; p0 := 2; N := 100 |}.

(** Two parameter sets that differ only in the strike price, with
    [tau = 1] and [q = 5.475]. *)
Definition steep_low_strike_params : params :=
  {| T := 2; vol := 0.1; r := 1; strike := 1; p0 := 11; N := 2 |}.

Definition steep_high_strike_params : params :=
  {| T := 2; vol := 0.1; r := 1; strike := 10; p0 := 11; N := 2 |}.

(** The notebook's parameters with a negative number of periods. *)
Definition negative_periods_params : params :=
  {| T := 0.5; vol := 0.2; r := 0.05; strike := 2.1; p0 := 2; N := -3 |}.

(** [c] is at most as good as [b]: a Q-value not higher and, where the
    Q-values are equal, an action not lower. *)
Definition no_better (c b : Z * R) : Prop :=
  snd c <= snd b /\ (snd c = snd b -> (fst b <= fst c)%Z).

(** Row [t] of the value array is the backup of row [t+1], with the policy
    in row [t] of the policy array, for the first [h] rows. *)
Definition backed_up (mdp : DiscreteDP) (h : nat)
    (vs : list (list R)) (sigmas : list (list Z)) : Prop :=
  forall t : nat, (t < h)%nat ->
    exists (V V' : list R) (sigma : list Z),
      vs !! t = Some V /\ vs !! S t = Some V' /\ sigmas !! t = Some sigma
      /\ backup mdp V' = Ok (V, sigma).

(** Entry by entry, an absent entry reading as 0. *)
Definition pointwise_le (v1 v2 : list R) : Prop :=
  forall j : nat, default 0 (v1 !! j) <= default 0 (v2 !! j).

Definition nonnegative (v : list R) : Prop :=
  forall j : nat, 0 <= default 0 (v !! j).

(** * Properties *)

(** ** The definitions on small inputs *)

Example arange_example : arange (-1) 2 = [-1; 0; 1]%Z.
Proof. reflexivity. Qed.

Example py_index_last : py_index 4 (-1) = Ok 3%nat.
Proof. reflexivity. Qed.

Example py_index_out_of_range : py_index 4 4 = Raise IndexError.
Proof. reflexivity. Qed.

Example sa_indices_example :
  sa_indices 2 2 = ([0; 0; 1; 1]%Z, [0; 1; 0; 1]%Z).
Proof. reflexivity. Qed.

(** Two price levels plus the absorbing state: five state-action pairs. *)
Example pair_list_example :
  s_indices 3 = [0; 0; 1; 1; 2]%Z /\ a_indices 3 = [0; 1; 0; 1; 0]%Z /\ L 3 = 5%nat.
Proof. repeat split. Qed.

Example tau_example : tau notebook_params = Ok (0.5 / 100).
Proof. reflexivity. Qed.

(** The rows the transition cell writes for three price levels ([N = 1]):
    pairs (0,hold), (0,exercise), (1,hold), (1,exercise), (2,hold),
    (2,exercise) and the pair of the absorbing state 3. *)
Example Q_rows_example (q0 : R) :
  map (fun i => map (Q_row q0 3 i) (seq 0 4)) (seq 0 7)
  = [ [1 - q0; q0; 0; 0];
      [0; 0; 0; 1];
      [1 - q0; 0; q0; 0];
      [0; 0; 0; 1];
      [0; 1 - q0; q0; 0];
      [0; 0; 0; 1];
      [0; 0; 0; 1] ].
Proof. reflexivity. Qed.

(** The reward cell on two price levels: nothing of [np.empty] is left. *)
Example R_arr_example (junk : nat -> nat -> R) (p : params) :
  R_arr junk p [1; 2] = [0; strike p - 1; 0; strike p - 2; 0].
Proof. reflexivity. Qed.

(** The transition cell run on three price levels, read back cell by cell. *)
Example Q_arr_example (q0 x y z : R) :
  (Q ← Q_arr q0 [x; y; z]; Ok (shape Q, map (fun i => map (cell Q i) (seq 0 4)) (seq 0 7)))
  = Ok ((7%nat, 4%nat),
        [ [1 - q0; q0; 0; 0];
          [0; 0; 0; 1];
          [1 - q0; 0; q0; 0];
          [0; 0; 0; 1];
          [0; 1 - q0; q0; 0];
          [0; 0; 0; 1];
          [0; 0; 0; 1] ]).
Proof. vm_compute. reflexivity. Qed.

(** ** Indexing and loops *)

Lemma py_index_nat (len k : nat) :
  (k < len)%nat -> py_index len (Z.of_nat k) = Ok k.
Proof.
  intros Hk. unfold py_index.
  replace ((0 <=? Z.of_nat k) && (Z.of_nat k <? Z.of_nat len))%Z with true.
  - now rewrite Nat2Z.id.
  - symmetry. apply andb_true_iff. split; [apply Z.leb_le | apply Z.ltb_lt]; lia.
Qed.

Lemma getitem_nat {A : Type} (a : list A) (k : nat) (x : A) :
  a !! k = Some x -> getitem a (Z.of_nat k) = Ok x.
Proof.
  intros Hx. unfold getitem.
  rewrite py_index_nat by (eapply lookup_lt_Some; eauto).
  simpl. now rewrite Hx.
Qed.

Lemma setitem_nat (M : lil_matrix) (i j : nat) (x : R) :
  (i < fst (shape M))%nat -> (j < snd (shape M))%nat ->
  setitem M (Z.of_nat i) (Z.of_nat j) x
  = Ok {| shape := shape M; cells := <[(i, j) := x]> (cells M) |}.
Proof.
  intros Hi Hj. unfold setitem.
  rewrite (py_index_nat _ _ Hi). simpl.
  rewrite (py_index_nat _ _ Hj). reflexivity.
Qed.

Lemma cell_insert (sh : nat * nat) (c : gmap (nat * nat) R) (i j i' j' : nat) (x : R) :
  cell {| shape := sh; cells := <[(i, j) := x]> c |} i' j'
  = if decide (i' = i /\ j' = j) then x else cell {| shape := sh; cells := c |} i' j'.
Proof.
  unfold cell. simpl. destruct (decide (i' = i /\ j' = j)) as [[-> ->] | Hne].
  - now rewrite lookup_insert_eq.
  - rewrite lookup_insert_ne; [reflexivity |]. intros Heq. apply Hne.
    now inversion Heq.
Qed.

Lemma for_each_app {A B : Type} (body : B -> A -> result A) (xs ys : list B) (acc : A) :
  for_each body (xs ++ ys) acc = (acc' ← for_each body xs acc; for_each body ys acc').
Proof.
  revert acc. induction xs as [| x xs IH]; intros acc; simpl; [reflexivity |].
  destruct (body x acc) as [acc' | e]; simpl; [apply IH | reflexivity].
Qed.

Lemma arange_length (a b : Z) : length (arange a b) = Z.to_nat (b - a).
Proof. unfold arange. now rewrite length_map, length_seq. Qed.

Lemma arange_lookup (a b : Z) (i : nat) :
  (i < Z.to_nat (b - a))%nat -> arange a b !! i = Some (a + Z.of_nat i)%Z.
Proof.
  intros Hi. unfold arange. rewrite list_lookup_fmap.
  rewrite lookup_seq_lt by exact Hi. reflexivity.
Qed.

Lemma range_S (k : nat) : range (S k) = range k ++ [Z.of_nat k].
Proof.
  unfold range, arange.
  replace (Z.to_nat (Z.of_nat (S k) - 0)) with (S k) by lia.
  replace (Z.to_nat (Z.of_nat k - 0)) with k by lia.
  rewrite seq_S, map_app. reflexivity.
Qed.

Lemma removelast_lookup {A : Type} (l : list A) (i : nat) :
  (i < length l - 1)%nat -> removelast l !! i = l !! i.
Proof.
  intros Hi. destruct (exists_last (l := l)) as [l' [x ->]].
  - intros ->. simpl in Hi. lia.
  - rewrite removelast_last. rewrite length_app in Hi. simpl in Hi.
    symmetry. apply lookup_app_l. lia.
Qed.

Lemma removelast_length {A : Type} (l : list A) :
  length (removelast l) = (length l - 1)%nat.
Proof.
  destruct (list_eq_nil_dec l) as [-> | Hne]; [reflexivity |].
  destruct (exists_last Hne) as [l' [x ->]].
  rewrite removelast_last, length_app. simpl. lia.
Qed.

(** ** The state-action pair list *)

Lemma sa_pairs_lookup (a k i : nat) :
  (i < 2 * k)%nat ->
  flat_map (fun s => map (fun b => (Z.of_nat s, Z.of_nat b)) (seq 0 m)) (seq a k) !! i
  = Some (Z.of_nat (a + i / 2), Z.of_nat (i mod 2)).
Proof.
  revert a i. induction k as [| k IH]; intros a i Hi; [lia |].
  destruct i as [| [| i]].
  - simpl. now rewrite Nat.add_0_r.
  - simpl. now rewrite Nat.add_0_r.
  - replace (S (S i) `div` 2)%nat with (S (i `div` 2)).
    2:{ replace (S (S i)) with (i + 1 * 2)%nat by lia. rewrite Nat.div_add by lia. lia. }
    replace (S (S i) `mod` 2)%nat with (i `mod` 2)%nat.
    2:{ replace (S (S i)) with (i + 1 * 2)%nat by lia. now rewrite Nat.Div0.mod_add. }
    change (seq a (S k)) with (a :: seq (S a) k).
    cbn [flat_map m seq map app lookup list_lookup].
    rewrite IH by lia. do 3 f_equal. lia.
Qed.

Lemma sa_pairs_length (a k : nat) :
  length (flat_map (fun s => map (fun b => (Z.of_nat s, Z.of_nat b)) (seq 0 m)) (seq a k))
  = (2 * k)%nat.
Proof.
  revert a. induction k as [| k IH]; intros a; simpl; [reflexivity |].
  rewrite IH. lia.
Qed.

Lemma s_indices_length (k : nat) : length (s_indices k) = L k.
Proof.
  unfold s_indices, drop_last, sa_indices, L, m. simpl fst.
  rewrite removelast_length, length_map, sa_pairs_length. lia.
Qed.

Lemma a_indices_length (k : nat) : length (a_indices k) = L k.
Proof.
  unfold a_indices, drop_last, sa_indices, L, m. simpl snd.
  rewrite removelast_length, length_map, sa_pairs_length. lia.
Qed.

Lemma s_indices_lookup (k i : nat) :
  (i < L k)%nat -> s_indices k !! i = Some (Z.of_nat (i / 2)).
Proof.
  unfold L, m. intros Hi. unfold s_indices, drop_last, sa_indices. simpl fst.
  rewrite removelast_lookup by (rewrite length_map, sa_pairs_length; lia).
  rewrite list_lookup_fmap, sa_pairs_lookup by lia. reflexivity.
Qed.

Lemma a_indices_lookup (k i : nat) :
  (i < L k)%nat -> a_indices k !! i = Some (Z.of_nat (i mod 2)).
Proof.
  unfold L, m. intros Hi. unfold a_indices, drop_last, sa_indices. simpl snd.
  rewrite removelast_lookup by (rewrite length_map, sa_pairs_length; lia).
  rewrite list_lookup_fmap, sa_pairs_lookup by lia. reflexivity.
Qed.

(** ** The reward vector *)

Lemma zip_rows_rewards (junk : nat -> nat -> R) (K : R) (a : nat) (xs : list R) :
  zip_with (fun row x => <[1%nat := x]> row)
           (map (fun i => [0; junk i 1%nat]) (seq a (length xs)))
           (map (fun x => K - x) xs)
  = map (fun x => [0; K - x]) xs.
Proof.
  revert a. induction xs as [| x xs IH]; intros a; simpl; [reflexivity |].
  now rewrite IH.
Qed.

(** The reward vector does not depend on the uninitialised memory: it is
    [0, strike - ps[0], 0, strike - ps[1], ..., 0, strike - ps[k-1], 0]. *)
Lemma R_arr_eq (junk : nat -> nat -> R) (p : params) (xs : list R) :
  R_arr junk p xs = concat (map (fun x => [0; strike p - x]) xs) ++ [0].
Proof.
  unfold R_arr, n, np_empty, set_column, set_column_but_last, drop_last, ravel, m.
  rewrite map_map. cbn [seq map list_insert insert].
  rewrite seq_app, map_app. cbn [seq map Nat.add].
  rewrite removelast_last, length_app, length_map, length_seq.
  cbn [length]. replace (length xs + 1 - 1)%nat with (length xs) by lia.
  rewrite zip_rows_rewards.
  rewrite drop_app_length' by now rewrite length_map, length_seq.
  rewrite concat_app. cbn [concat app].
  change [0; junk (length xs) 1%nat] with ([0] ++ [junk (length xs) 1%nat]).
  now rewrite app_assoc, removelast_last.
Qed.

Lemma concat_pairs_lookup {A : Type} (f g : A -> R) (xs : list A) (s : nat) :
  concat (map (fun x => [f x; g x]) xs) !! (2 * s)%nat = f <$> xs !! s
  /\ concat (map (fun x => [f x; g x]) xs) !! (2 * s + 1)%nat = g <$> xs !! s.
Proof.
  revert s. induction xs as [| x xs IH]; intros s; [now split |].
  destruct s as [| s]; [now split |].
  replace (2 * S s)%nat with (S (S (2 * s))) by lia.
  replace (S (S (2 * s)) + 1)%nat with (S (S (2 * s + 1))) by lia.
  exact (IH s).
Qed.

Lemma concat_pairs_length {A : Type} (f g : A -> R) (xs : list A) :
  length (concat (map (fun x => [f x; g x]) xs)) = (2 * length xs)%nat.
Proof. induction xs as [| x xs IH]; simpl; [reflexivity | rewrite IH; lia]. Qed.

Lemma R_arr_length (junk : nat -> nat -> R) (p : params) (xs : list R) :
  length (R_arr junk p xs) = L (n xs).
Proof.
  rewrite R_arr_eq, length_app, concat_pairs_length. unfold L, n, m. simpl. lia.
Qed.

(** Reward of action 0 at state [s <= len(ps)]. *)
Lemma R_arr_hold (junk : nat -> nat -> R) (p : params) (xs : list R) (s : nat) :
  (s <= length xs)%nat -> R_arr junk p xs !! (2 * s)%nat = Some 0.
Proof.
  intros Hs. rewrite R_arr_eq.
  destruct (decide (s = length xs)) as [-> | Hne].
  - rewrite lookup_app_r by (rewrite concat_pairs_length; lia).
    rewrite concat_pairs_length, Nat.sub_diag. reflexivity.
  - rewrite lookup_app_l by (rewrite concat_pairs_length; lia).
    destruct (concat_pairs_lookup (fun _ => 0) (fun x => strike p - x) xs s) as [-> _].
    destruct (lookup_lt_is_Some_2 xs s) as [x ->]; [lia | reflexivity].
Qed.

(** Reward of action 1 at the price state [s]. *)
Lemma R_arr_exercise (junk : nat -> nat -> R) (p : params) (xs : list R) (s : nat) (x : R) :
  xs !! s = Some x -> R_arr junk p xs !! (2 * s + 1)%nat = Some (strike p - x).
Proof.
  intros Hx. rewrite R_arr_eq.
  pose proof (lookup_lt_Some _ _ _ Hx) as Hs.
  rewrite lookup_app_l by (rewrite concat_pairs_length; lia).
  destruct (concat_pairs_lookup (fun _ => 0) (fun x => strike p - x) xs s) as [_ ->].
  now rewrite Hx.
Qed.

(** ** The transition array *)

#[local] Arguments Nat.div : simpl never.
#[local] Arguments Nat.modulo : simpl never.

Lemma Q_body_hold (q : R) (xs : list R) (i : nat) (M : lil_matrix) :
  (i < 2 * length xs)%nat -> (i mod 2 = 0)%nat -> shape M = (L (n xs), n xs) ->
  Q_body q xs (Z.of_nat i) M
  = Ok {| shape := shape M;
          cells := <[(i, Nat.pred (i / 2)) := 1 - q]>
                     (<[(i, Nat.min (i / 2 + 1) (length xs - 1)) := q]> (cells M)) |}.
Proof.
  intros Hi Hev Hsh. unfold Q_body.
  assert (HL : (i < L (n xs))%nat) by (unfold L, n, m; lia).
  rewrite (getitem_nat _ _ _ (a_indices_lookup _ _ HL)). simpl.
  rewrite Hev. simpl.
  rewrite (getitem_nat _ _ _ (s_indices_lookup _ _ HL)). simpl.
  assert (Hdiv : (i / 2 < length xs)%nat) by (apply Nat.Div0.div_lt_upper_bound; lia).
  replace (Z.min (Z.of_nat (i / 2) + 1) (Z.of_nat (length xs) - 1))
    with (Z.of_nat (Nat.min (i / 2 + 1) (length xs - 1))) by lia.
  rewrite setitem_nat by (rewrite Hsh; unfold L, n, m; simpl; lia). simpl.
  replace (Z.max (Z.of_nat (i / 2) - 1) 0) with (Z.of_nat (Nat.pred (i / 2))) by lia.
  rewrite setitem_nat by (simpl; rewrite Hsh; unfold L, n, m; simpl; lia).
  reflexivity.
Qed.

Lemma Q_body_exercise (q : R) (xs : list R) (i : nat) (M : lil_matrix) :
  (i < 2 * length xs)%nat -> (i mod 2 = 1)%nat -> shape M = (L (n xs), n xs) ->
  Q_body q xs (Z.of_nat i) M
  = Ok {| shape := shape M; cells := <[(i, length xs) := 1]> (cells M) |}.
Proof.
  intros Hi Hodd Hsh. unfold Q_body.
  assert (HL : (i < L (n xs))%nat) by (unfold L, n, m; lia).
  rewrite (getitem_nat _ _ _ (a_indices_lookup _ _ HL)). simpl.
  rewrite Hodd. simpl.
  replace (Z.of_nat (n xs) - 1)%Z with (Z.of_nat (length xs)) by (unfold n; lia).
  rewrite setitem_nat by (rewrite Hsh; unfold L, n, m; simpl; lia).
  reflexivity.
Qed.

(** Loop invariant: after the iterations [0 .. c-1] the rows below [c] hold
    their final content and every other cell is still unassigned. *)
Lemma Q_loop_spec (q : R) (xs : list R) (c : nat) :
  (c <= 2 * length xs)%nat ->
  exists M : lil_matrix,
    for_each (Q_body q xs) (range c) (lil_zeros (L (n xs)) (n xs)) = Ok M
    /\ shape M = (L (n xs), n xs)
    /\ forall i j : nat,
         cell M i j = if decide (i < c)%nat then Q_row q (length xs) i j else 0.
Proof.
  induction c as [| c IH]; intros Hc.
  - exists (lil_zeros (L (n xs)) (n xs)). split; [reflexivity |]. split; [reflexivity |].
    intros i j. destruct (decide (i < 0)%nat); [lia | reflexivity].
  - destruct IH as (M & Hrun & Hsh & Hcell); [lia |].
    rewrite range_S, for_each_app, Hrun. simpl.
    destruct (Nat.mod_bound_pos c 2) as [_ Hlt]; [lia | lia |].
    destruct (decide (c mod 2 = 0)%nat) as [Hev | Hodd].
    + rewrite Q_body_hold by (try assumption; lia). simpl.
      eexists. split; [reflexivity |]. split; [exact Hsh |].
      intros i j. rewrite !cell_insert.
      replace {| shape := shape M; cells := cells M |} with M by now destruct M.
      rewrite Hcell. unfold Q_row, hold_row.
      destruct (decide (i = c)) as [-> | Hic];
        repeat case_decide; try reflexivity; exfalso; destruct_and?; subst; lia.
    + rewrite Q_body_exercise by (try assumption; lia). simpl.
      eexists. split; [reflexivity |]. split; [exact Hsh |].
      intros i j. rewrite cell_insert.
      replace {| shape := shape M; cells := cells M |} with M by now destruct M.
      rewrite Hcell. unfold Q_row.
      destruct (decide (i = c)) as [-> | Hic];
        repeat case_decide; try reflexivity; exfalso; destruct_and?; subst; lia.
Qed.

(** The transition cell runs without exception, and the array it leaves
    has shape [(L, n)] and rows [Q_row]. *)
Lemma Q_arr_spec (q : R) (xs : list R) :
  exists M : lil_matrix,
    Q_arr q xs = Ok M
    /\ shape M = (L (n xs), n xs)
    /\ forall i j : nat,
         cell M i j = if decide (i < L (n xs))%nat then Q_row q (length xs) i j else 0.
Proof.
  destruct (Q_loop_spec q xs (2 * length xs)) as (M & Hrun & Hsh & Hcell); [lia |].
  unfold Q_arr.
  replace (L (n xs) - 1)%nat with (2 * length xs)%nat by (unfold L, n, m; lia).
  rewrite Hrun. simpl.
  replace (Z.of_nat (L (n xs)) - 1)%Z with (Z.of_nat (2 * length xs))
    by (unfold L, n, m; lia).
  replace (Z.of_nat (n xs) - 1)%Z with (Z.of_nat (length xs)) by (unfold n; lia).
  rewrite setitem_nat by (rewrite Hsh; unfold L, n, m; simpl; lia).
  eexists. split; [reflexivity |]. split; [exact Hsh |].
  intros i j. rewrite cell_insert.
  replace {| shape := shape M; cells := cells M |} with M by now destruct M.
  rewrite Hcell. unfold Q_row, L, n, m.
  destruct (decide (i = 2 * length xs)%nat) as [-> | Hic];
    repeat case_decide; try reflexivity; exfalso; destruct_and?; subst; lia.
Qed.

(** ** The price lattice *)

Lemma ps_length (p : params) (u0 : R) :
  length (ps p u0) = Z.to_nat (2 * N p + 1).
Proof. unfold ps. rewrite length_map, arange_length. f_equal. lia. Qed.

Lemma ps_lookup (p : params) (u0 : R) (k : nat) :
  (k < Z.to_nat (2 * N p + 1))%nat ->
  ps p u0 !! k = Some (powerRZ u0 (Z.of_nat k - N p) * p0 p).
Proof.
  intros Hk. unfold ps. rewrite list_lookup_fmap.
  rewrite arange_lookup by (replace (N p + 1 - - N p)%Z with (2 * N p + 1)%Z by lia; exact Hk).
  simpl. do 3 f_equal. lia.
Qed.

Lemma powerRZ_increasing (x : R) (a b : Z) :
  1 < x -> (a < b)%Z -> powerRZ x a < powerRZ x b.
Proof.
  intros Hx Hab.
  replace b with (a + Z.of_nat (Z.to_nat (b - a)))%Z by lia.
  rewrite powerRZ_add by lra.
  rewrite <- pow_powerRZ.
  assert (Ha : 0 < powerRZ x a) by (apply powerRZ_lt; lra).
  assert (Hp : 1 < x ^ Z.to_nat (b - a)) by (apply Rlt_pow_R1; [exact Hx | lia]).
  nra.
Qed.

Lemma tau_ok (p : params) : N p <> 0%Z -> tau p = Ok (T p / IZR (N p)).
Proof.
  intros HN. unfold tau, truediv.
  destruct (Z.eqb_spec (N p) 0) as [H0 | _]; [contradiction | reflexivity].
Qed.

Lemma tau_zero (p : params) : N p = 0%Z -> tau p = Raise ZeroDivisionError.
Proof. intros HN. unfold tau, truediv. now rewrite HN. Qed.

Lemma tau_positive (p : params) :
  0 < T p -> (1 <= N p)%Z -> 0 < T p / IZR (N p).
Proof.
  intros HT HN. apply Rdiv_lt_0_compat; [exact HT |]. apply IZR_lt. lia.
Qed.

Lemma u_gt_1 (p : params) (t : R) : 0 < vol p -> 0 < t -> 1 < u p t.
Proof.
  intros Hv Ht. unfold u. rewrite <- exp_0. apply exp_increasing.
  apply Rmult_lt_0_compat; [exact Hv | now apply sqrt_lt_R0].
Qed.

(** ** The built MDP *)

Lemma build_spec (junk : nat -> nat -> R) (p : params) :
  N p <> 0%Z ->
  exists mdp : DiscreteDP,
    build_option_mdp junk p = Ok mdp /\ built junk p (T p / IZR (N p)) mdp.
Proof.
  intros HN. unfold build_option_mdp. rewrite (tau_ok p HN). simpl.
  destruct (Q_arr_spec (q p (T p / IZR (N p))) (ps p (u p (T p / IZR (N p)))))
    as (M & -> & Hsh & Hcell).
  simpl. eexists. split; [reflexivity |].
  repeat split; try reflexivity; assumption.
Qed.

Lemma build_zero (junk : nat -> nat -> R) (p : params) :
  N p = 0%Z -> build_option_mdp junk p = Raise ZeroDivisionError.
Proof. intros HN. unfold build_option_mdp. now rewrite (tau_zero p HN). Qed.

(** ** Finite sums *)

Lemma sum_to_S (k : nat) (f : nat -> R) : sum_to (S k) f = sum_to k f + f k.
Proof.
  unfold sum_to. rewrite seq_S, map_app, fold_right_app. simpl.
  generalize (map f (seq 0 k)). intros l.
  induction l as [| x l IH]; simpl; [lra | rewrite IH; lra].
Qed.

Lemma sum_to_ext (k : nat) (f g : nat -> R) :
  (forall j, (j < k)%nat -> f j = g j) -> sum_to k f = sum_to k g.
Proof.
  induction k as [| k IH]; intros Hfg; [reflexivity |].
  rewrite !sum_to_S, IH, (Hfg k) by (intros; try apply Hfg; lia). reflexivity.
Qed.

Lemma sum_to_plus (k : nat) (f g : nat -> R) :
  sum_to k (fun j => f j + g j) = sum_to k f + sum_to k g.
Proof.
  induction k as [| k IH]; [unfold sum_to; simpl; lra |].
  rewrite !sum_to_S, IH. lra.
Qed.

Lemma sum_to_le (k : nat) (f g : nat -> R) :
  (forall j, (j < k)%nat -> f j <= g j) -> sum_to k f <= sum_to k g.
Proof.
  induction k as [| k IH]; intros Hfg; [unfold sum_to; simpl; lra |].
  rewrite !sum_to_S.
  assert (sum_to k f <= sum_to k g) by (apply IH; intros; apply Hfg; lia).
  assert (f k <= g k) by (apply Hfg; lia). lra.
Qed.

Lemma sum_to_zero (k : nat) : sum_to k (fun _ => 0) = 0.
Proof. induction k as [| k IH]; [reflexivity | rewrite sum_to_S, IH; lra]. Qed.

Lemma sum_to_nonneg (k : nat) (f : nat -> R) :
  (forall j, (j < k)%nat -> 0 <= f j) -> 0 <= sum_to k f.
Proof. intros Hf. rewrite <- (sum_to_zero k). now apply sum_to_le. Qed.

Lemma sum_to_single (k j0 : nat) (x : R) :
  (j0 < k)%nat -> sum_to k (fun j => if decide (j = j0) then x else 0) = x.
Proof.
  induction k as [| k IH]; intros Hj; [lia |].
  rewrite sum_to_S. destruct (decide (k = j0)) as [-> | Hne].
  - rewrite (sum_to_ext _ _ (fun _ => 0)), sum_to_zero; [lra |].
    intros j Hlt. case_decide; [lia | reflexivity].
  - rewrite IH by lia. lra.
Qed.

(** Every row of the transition array sums to 1, unless the lattice has a
    single price level (which no [N] gives: [len(ps)] is [2N+1] or 0). *)
Lemma Q_row_sum (q0 : R) (k i : nat) :
  k <> 1%nat -> sum_to (k + 1) (Q_row q0 k i) = 1.
Proof.
  intros Hk. unfold Q_row. case_decide as Hhold.
  - destruct Hhold as [Hev Hlt].
    assert (Hs : (i / 2 < k)%nat) by (apply Nat.Div0.div_lt_upper_bound; lia).
    rewrite (sum_to_ext _ _
      (fun j => (if decide (j = Nat.pred (i / 2)) then 1 - q0 else 0)
                + (if decide (j = Nat.min (i / 2 + 1) (k - 1)) then q0 else 0))).
    + rewrite sum_to_plus, !sum_to_single by lia. lra.
    + intros j Hj. unfold hold_row. repeat case_decide; try lra. exfalso. lia.
  - apply sum_to_single. lia.
Qed.

Lemma Q_row_nonneg (q0 : R) (k i j : nat) :
  0 <= q0 <= 1 -> 0 <= Q_row q0 k i j.
Proof.
  intros Hq. unfold Q_row, hold_row. repeat case_decide; lra.
Qed.

(** ** Feasible actions *)

Lemma elem_of_feasible (mdp : DiscreteDP) (s i : nat) (a : Z) :
  (i, a) ∈ feasible mdp s
  <-> (i < num_pairs mdp)%nat
      /\ ddp_s_indices mdp !! i = Some (Z.of_nat s)
      /\ ddp_a_indices mdp !! i = Some a.
Proof.
  unfold feasible. rewrite list_elem_of_omap. split.
  - intros (i' & Hin & Hf). apply elem_of_seq in Hin.
    destruct (ddp_s_indices mdp !! i') as [s' |] eqn:Hs; [| discriminate].
    destruct (ddp_a_indices mdp !! i') as [a' |] eqn:Ha; [| discriminate].
    destruct (Z.eqb_spec s' (Z.of_nat s)) as [-> | _]; [| discriminate].
    inversion Hf; subst. repeat split; [lia | assumption | assumption].
  - intros (Hi & Hs & Ha). exists i. split; [apply elem_of_seq; lia |].
    rewrite Hs, Ha, Z.eqb_refl. reflexivity.
Qed.

Lemma omap_none {A B : Type} (f : A -> option B) (l : list A) :
  (forall x, x ∈ l -> f x = None) -> omap f l = [].
Proof.
  induction l as [| x l IH]; intros Hf; [reflexivity |].
  simpl. rewrite (Hf x) by left. apply IH. intros y Hy. apply Hf. now right.
Qed.

Lemma feasible_item (junk : nat -> nat -> R) (p : params) (t : R) (mdp : DiscreteDP)
    (s i : nat) :
  built junk p t mdp -> (i < num_pairs mdp)%nat ->
  match ddp_s_indices mdp !! i, ddp_a_indices mdp !! i with
  | Some s', Some a => if (s' =? Z.of_nat s)%Z then Some (i, a) else None
  | _, _ => None
  end = if decide (i / 2 = s)%nat then Some (i, Z.of_nat (i mod 2)) else None.
Proof.
  intros (_ & _ & Hs & Ha & Hsh & _) Hi. unfold num_pairs in Hi. rewrite Hsh in Hi.
  simpl in Hi. rewrite Hs, Ha, s_indices_lookup, a_indices_lookup by exact Hi.
  destruct (Z.eqb_spec (Z.of_nat (i / 2)) (Z.of_nat s)); case_decide; try reflexivity; lia.
Qed.

Lemma div2_double (s : nat) : Nat.div (2 * s) 2 = s /\ Nat.div (S (2 * s)) 2 = s.
Proof.
  split.
  - now rewrite Nat.mul_comm, Nat.div_mul.
  - replace (S (2 * s)) with (1 + s * 2)%nat by lia. now rewrite Nat.div_add.
Qed.

Lemma mod2_double (s : nat) :
  Nat.modulo (2 * s) 2 = 0%nat /\ Nat.modulo (S (2 * s)) 2 = 1%nat.
Proof.
  split.
  - now rewrite Nat.mul_comm, Nat.Div0.mod_mul.
  - replace (S (2 * s)) with (1 + s * 2)%nat by lia. now rewrite Nat.Div0.mod_add.
Qed.

(** A price state has the two pairs [(s, 0)] and [(s, 1)], at the indices
    [2s] and [2s+1] of the pair list. *)
Lemma feasible_price_state (junk : nat -> nat -> R) (p : params) (t : R)
    (mdp : DiscreteDP) (s : nat) :
  built junk p t mdp -> (s < length (ps p (u p t)))%nat ->
  feasible mdp s = [((2 * s)%nat, 0%Z); ((2 * s + 1)%nat, 1%Z)].
Proof.
  intros Hb Hs. pose proof Hb as (_ & _ & _ & _ & Hsh & _).
  set (k := length (ps p (u p t))) in *.
  assert (HL : num_pairs mdp = (2 * s + (2 + (2 * k + 1 - 2 * s - 2)))%nat).
  { unfold num_pairs. rewrite Hsh. unfold L, n, m. fold k. simpl. lia. }
  unfold feasible.
  rewrite (list_omap_ext _ (fun i => if decide (i / 2 = s)%nat
                                     then Some (i, Z.of_nat (i mod 2)) else None)
             _ (seq 0 (num_pairs mdp))).
  2:{ apply Forall2_same_length_lookup. split; [reflexivity |].
      intros i x y Hx Hy. rewrite Hx in Hy. inversion Hy; subst y.
      apply lookup_seq in Hx as [-> Hlt]. simpl.
      now apply (feasible_item junk p t). }
  rewrite HL, !seq_app, !omap_app. cbn [seq Nat.add].
  rewrite (omap_none _ (seq 0 (2 * s))).
  2:{ intros x Hx. apply elem_of_seq in Hx. case_decide; [exfalso | reflexivity].
      assert (x / 2 < s)%nat by (apply Nat.Div0.div_lt_upper_bound; lia). lia. }
  rewrite (omap_none _ (seq _ (2 * k + 1 - 2 * s - 2))).
  2:{ intros x Hx. apply elem_of_seq in Hx. case_decide; [exfalso | reflexivity].
      assert (s + 1 <= x / 2)%nat by (apply Nat.div_le_lower_bound; lia). lia. }
  cbn [omap list_omap app Nat.add].
  replace (2 * s + 0)%nat with (2 * s)%nat by lia.
  destruct (div2_double s) as [-> ->]. destruct (mod2_double s) as [-> ->].
  rewrite !decide_True by reflexivity.
  replace (2 * s + 1)%nat with (S (2 * s)) by lia. reflexivity.
Qed.

(** The absorbing state has the single pair [(n-1, 0)], the last of the list. *)
Lemma feasible_absorbing (junk : nat -> nat -> R) (p : params) (t : R) (mdp : DiscreteDP) :
  built junk p t mdp ->
  feasible mdp (length (ps p (u p t))) = [((2 * length (ps p (u p t)))%nat, 0%Z)].
Proof.
  intros Hb. pose proof Hb as (_ & _ & _ & _ & Hsh & _).
  set (k := length (ps p (u p t))) in *.
  assert (HL : num_pairs mdp = (2 * k + 1)%nat).
  { unfold num_pairs. rewrite Hsh. unfold L, n, m. fold k. simpl. lia. }
  unfold feasible.
  rewrite (list_omap_ext _ (fun i => if decide (i / 2 = k)%nat
                                     then Some (i, Z.of_nat (i mod 2)) else None)
             _ (seq 0 (num_pairs mdp))).
  2:{ apply Forall2_same_length_lookup. split; [reflexivity |].
      intros i x y Hx Hy. rewrite Hx in Hy. inversion Hy; subst y.
      apply lookup_seq in Hx as [-> Hlt]. simpl.
      now apply (feasible_item junk p t). }
  rewrite HL, seq_app, omap_app. cbn [seq Nat.add].
  rewrite (omap_none _ (seq 0 (2 * k))).
  2:{ intros x Hx. apply elem_of_seq in Hx. case_decide; [exfalso | reflexivity].
      assert (x / 2 < k)%nat by (apply Nat.Div0.div_lt_upper_bound; lia). lia. }
  cbn [omap list_omap app Nat.add].
  destruct (div2_double k) as [-> _]. destruct (mod2_double k) as [-> _].
  rewrite decide_True by reflexivity.
  reflexivity.
Qed.

(** ** Rows and rewards of the built MDP, pair by pair *)

Section Built.
Variables (junk : nat -> nat -> R) (p : params) (t : R) (mdp : DiscreteDP).
Hypothesis Hbuilt : built junk p t mdp.

Local Abbreviation k := (length (ps p (u p t))).

Lemma built_num_states : num_states mdp = (k + 1)%nat.
Proof. destruct Hbuilt as (_ & _ & _ & _ & Hsh & _). unfold num_states. now rewrite Hsh. Qed.

Lemma built_num_pairs : num_pairs mdp = (2 * k + 1)%nat.
Proof.
  destruct Hbuilt as (_ & _ & _ & _ & Hsh & _). unfold num_pairs. rewrite Hsh.
  unfold L, n, m. fold k. simpl. lia.
Qed.

Lemma built_prob_hold (s j : nat) :
  (s < k)%nat -> prob mdp (2 * s) j = hold_row (q p t) k s j.
Proof.
  intros Hs. destruct Hbuilt as (_ & _ & _ & _ & _ & Hcell). rewrite Hcell.
  unfold L, n, m. fold k. rewrite decide_True by lia. unfold Q_row.
  destruct (div2_double s) as [-> _]. destruct (mod2_double s) as [-> _].
  rewrite decide_True by lia. reflexivity.
Qed.

Lemma built_prob_exercise (s j : nat) :
  (s < k)%nat -> prob mdp (2 * s + 1) j = if decide (j = k) then 1 else 0.
Proof.
  intros Hs. destruct Hbuilt as (_ & _ & _ & _ & _ & Hcell). rewrite Hcell.
  unfold L, n, m. fold k. rewrite decide_True by lia. unfold Q_row.
  replace (2 * s + 1)%nat with (S (2 * s)) by lia.
  destruct (mod2_double s) as [_ ->]. rewrite decide_False by lia. reflexivity.
Qed.

Lemma built_prob_absorbing (j : nat) :
  prob mdp (2 * k) j = if decide (j = k) then 1 else 0.
Proof.
  destruct Hbuilt as (_ & _ & _ & _ & _ & Hcell). rewrite Hcell.
  unfold L, n, m. fold k. rewrite decide_True by lia. unfold Q_row.
  rewrite decide_False by lia. reflexivity.
Qed.

Lemma built_reward_hold (s : nat) : (s <= k)%nat -> reward mdp (2 * s) = 0.
Proof.
  intros Hs. destruct Hbuilt as (HR & _). unfold reward. rewrite HR.
  now rewrite R_arr_hold.
Qed.

Lemma built_reward_exercise (s : nat) (x : R) :
  ps p (u p t) !! s = Some x -> reward mdp (2 * s + 1) = strike p - x.
Proof.
  intros Hx. destruct Hbuilt as (HR & _). unfold reward. rewrite HR.
  now rewrite (R_arr_exercise _ _ _ _ _ Hx).
Qed.

Lemma built_pair_indices (i : nat) :
  (i < 2 * k + 1)%nat ->
  ddp_s_indices mdp !! i = Some (Z.of_nat (i / 2))
  /\ ddp_a_indices mdp !! i = Some (Z.of_nat (i mod 2)).
Proof.
  intros Hi. destruct Hbuilt as (_ & _ & -> & -> & _).
  rewrite s_indices_lookup, a_indices_lookup by (unfold L, n, m; fold k; lia).
  now split.
Qed.

Lemma built_row_sum (i : nat) : k <> 1%nat -> (i < num_pairs mdp)%nat -> row_sum mdp i = 1.
Proof.
  intros Hk Hi. unfold row_sum. rewrite built_num_states.
  destruct Hbuilt as (_ & _ & _ & _ & Hsh & Hcell).
  rewrite (sum_to_ext _ _ (Q_row (q p t) k i)); [now apply Q_row_sum |].
  intros j _. rewrite Hcell. rewrite decide_True; [reflexivity |].
  unfold num_pairs in Hi. now rewrite Hsh in Hi.
Qed.

Lemma built_prob_nonneg (i j : nat) : 0 <= q p t <= 1 -> 0 <= prob mdp i j.
Proof.
  intros Hq. destruct Hbuilt as (_ & _ & _ & _ & _ & Hcell). rewrite Hcell.
  case_decide; [now apply Q_row_nonneg | lra].
Qed.
End Built.

(** * The Builder *)

(** C3. For every price state [s] of an MDP built with [N >= 1], the row of
    the pair (s, hold), at index [2s] of the pair list, holds [q] in the
    column of the upper neighbour [min(s+1, len(ps)-1)], [1 - q] in the column
    of the lower neighbour [max(s-1, 0)], and 0 in every other column, the
    column of the absorbing state included; the two columns are distinct
    price states. At the lowest price state the lower neighbour is the state
    itself and the upper one is state 1; at the highest price state the
    upper neighbour is the state itself and the lower one is the state
    below. *)
Theorem hold_rows_clamped (junk : nat -> nat -> R) (p : params) :
  (1 <= N p)%Z ->
  exists mdp : DiscreteDP,
    build_option_mdp junk p = Ok mdp
    /\ forall s : nat,
         (s < num_states mdp - 1)%nat ->
         let q0 := q p (T p / IZR (N p)) in
         let top := (num_states mdp - 2)%nat in
         let up := Nat.min (s + 1) top in
         let down := Nat.pred s in
         ddp_s_indices mdp !! (2 * s)%nat = Some (Z.of_nat s)
         /\ ddp_a_indices mdp !! (2 * s)%nat = Some 0%Z
         /\ prob mdp (2 * s) up = q0
         /\ prob mdp (2 * s) down = 1 - q0
         /\ (forall j : nat, j <> up -> j <> down -> prob mdp (2 * s) j = 0)
         /\ prob mdp (2 * s) (num_states mdp - 1) = 0
         /\ (up <= top)%nat /\ (down <= top)%nat /\ up <> down
         /\ (s = 0%nat -> down = s /\ up = 1%nat)
         /\ (s = top -> up = s /\ down = (s - 1)%nat)
         /\ (0 < s < top -> up = (s + 1)%nat /\ down = (s - 1)%nat)%nat.
Proof.
  intros HN. destruct (build_spec junk p) as (mdp & Hrun & Hb); [lia |].
  exists mdp. split; [exact Hrun |]. intros s Hs. cbv zeta.
  pose proof (ps_length p (u p (T p / IZR (N p)))) as Hlen.
  rewrite (built_num_states _ _ _ _ Hb) in *.
  set (k := length (ps p (u p (T p / IZR (N p))))) in *.
  assert (Hk : (3 <= k)%nat) by lia.
  destruct (built_pair_indices _ _ _ _ Hb (2 * s)) as [Hsi Hai]; [fold k; lia |].
  destruct (div2_double s) as [Hd _]. destruct (mod2_double s) as [Hm _].
  rewrite Hd in Hsi. rewrite Hm in Hai.
  replace (k + 1 - 2)%nat with (k - 1)%nat by lia.
  replace (k + 1 - 1)%nat with k by lia.
  split; [exact Hsi |]. split; [exact Hai |].
  rewrite !(built_prob_hold _ _ _ _ Hb) by (fold k; lia). fold k. unfold hold_row.
  split; [rewrite decide_False by lia; now rewrite decide_True |].
  split; [now rewrite decide_True |].
  split.
  { intros j Hup Hdown. rewrite (built_prob_hold _ _ _ _ Hb) by (fold k; lia).
    fold k. unfold hold_row. now rewrite !decide_False. }
  split; [rewrite !decide_False by lia; reflexivity |].
  repeat split; lia.
Qed.

(** C4. For every price state [s] of an MDP built with [N >= 1], the pair
    (s, exercise), at index [2s+1] of the pair list, has probability 1 on
    the absorbing state [n-1] and 0 on every other state, and its reward is
    [strike] minus the lattice price [ps[s]] of the state. *)
Theorem exercise_pairs (junk : nat -> nat -> R) (p : params) :
  (1 <= N p)%Z ->
  exists mdp : DiscreteDP,
    build_option_mdp junk p = Ok mdp
    /\ forall s : nat,
         (s < num_states mdp - 1)%nat ->
         ddp_s_indices mdp !! (2 * s + 1)%nat = Some (Z.of_nat s)
         /\ ddp_a_indices mdp !! (2 * s + 1)%nat = Some 1%Z
         /\ prob mdp (2 * s + 1) (num_states mdp - 1) = 1
         /\ (forall j : nat, j <> (num_states mdp - 1)%nat -> prob mdp (2 * s + 1) j = 0)
         /\ exists price : R,
              ps p (u p (T p / IZR (N p))) !! s = Some price
              /\ reward mdp (2 * s + 1) = strike p - price.
Proof.
  intros HN. destruct (build_spec junk p) as (mdp & Hrun & Hb); [lia |].
  exists mdp. split; [exact Hrun |]. intros s Hs.
  rewrite (built_num_states _ _ _ _ Hb) in *.
  set (k := length (ps p (u p (T p / IZR (N p))))) in *.
  replace (k + 1 - 1)%nat with k in * by lia.
  destruct (built_pair_indices _ _ _ _ Hb (2 * s + 1)) as [Hsi Hai]; [fold k; lia |].
  replace (2 * s + 1)%nat with (S (2 * s)) in Hsi, Hai by lia.
  destruct (div2_double s) as [_ Hd]. destruct (mod2_double s) as [_ Hm].
  rewrite Hd in Hsi. rewrite Hm in Hai.
  replace (S (2 * s)) with (2 * s + 1)%nat in Hsi, Hai by lia.
  split; [exact Hsi |]. split; [exact Hai |].
  split; [rewrite (built_prob_exercise _ _ _ _ Hb) by (fold k; lia); fold k;
          now rewrite decide_True |].
  split.
  { intros j Hj. rewrite (built_prob_exercise _ _ _ _ Hb) by (fold k; lia). fold k.
    now rewrite decide_False. }
  destruct (lookup_lt_is_Some_2 (ps p (u p (T p / IZR (N p)))) s) as [x Hx]; [exact Hs |].
  exists x. split; [exact Hx |]. now apply (built_reward_exercise _ _ _ _ Hb).
Qed.

(** C5. In an MDP built with [N >= 1] there are [n = 2N + 2] states and
    [L = 2n - 1] state-action pairs; the absorbing state [n-1] has exactly
    one feasible pair, the last of the list, with action 0; its row has
    probability 1 on the absorbing state and 0 elsewhere, and its reward
    is 0. *)
Theorem absorbing_state (junk : nat -> nat -> R) (p : params) :
  (1 <= N p)%Z ->
  exists mdp : DiscreteDP,
    build_option_mdp junk p = Ok mdp
    /\ num_states mdp = Z.to_nat (2 * N p + 2)
    /\ num_pairs mdp = (2 * num_states mdp - 1)%nat
    /\ length (ddp_R mdp) = num_pairs mdp
    /\ length (ddp_s_indices mdp) = num_pairs mdp
    /\ length (ddp_a_indices mdp) = num_pairs mdp
    /\ feasible mdp (num_states mdp - 1) = [((num_pairs mdp - 1)%nat, 0%Z)]
    /\ prob mdp (num_pairs mdp - 1) (num_states mdp - 1) = 1
    /\ (forall j : nat, j <> (num_states mdp - 1)%nat -> prob mdp (num_pairs mdp - 1) j = 0)
    /\ reward mdp (num_pairs mdp - 1) = 0.
Proof.
  intros HN. destruct (build_spec junk p) as (mdp & Hrun & Hb); [lia |].
  exists mdp. split; [exact Hrun |].
  pose proof (ps_length p (u p (T p / IZR (N p)))) as Hlen.
  pose proof (feasible_absorbing _ _ _ _ Hb) as Hfeas.
  pose proof Hb as (HR & _ & Hs & Ha & _).
  rewrite (built_num_states _ _ _ _ Hb), (built_num_pairs _ _ _ _ Hb).
  set (k := length (ps p (u p (T p / IZR (N p))))) in *.
  replace (k + 1 - 1)%nat with k by lia.
  replace (2 * k + 1 - 1)%nat with (2 * k)%nat by lia.
  split; [lia |]. split; [lia |].
  split; [rewrite HR, R_arr_length; unfold L, n, m; fold k; lia |].
  split; [rewrite Hs, s_indices_length; unfold L, n, m; fold k; lia |].
  split; [rewrite Ha, a_indices_length; unfold L, n, m; fold k; lia |].
  split; [exact Hfeas |].
  split; [rewrite (built_prob_absorbing _ _ _ _ Hb); fold k; now rewrite decide_True |].
  split.
  { intros j Hj. rewrite (built_prob_absorbing _ _ _ _ Hb). fold k.
    now rewrite decide_False. }
  apply (built_reward_hold _ _ _ _ Hb). fold k. lia.
Qed.

(** C9. Whatever the parameters (with [N <> 0], so that an MDP is built)
    and whatever the uninitialised memory held, every state has the pair
    (s, 0), at index [2s], and every pair with action 0 has reward exactly 0:
    a pair with a non-zero reward has action 1. *)
Theorem action_0_reward_zero (junk : nat -> nat -> R) (p : params) :
  N p <> 0%Z ->
  exists mdp : DiscreteDP,
    build_option_mdp junk p = Ok mdp
    /\ (forall s : nat,
          (s < num_states mdp)%nat ->
          (2 * s < num_pairs mdp)%nat
          /\ ddp_s_indices mdp !! (2 * s)%nat = Some (Z.of_nat s)
          /\ ddp_a_indices mdp !! (2 * s)%nat = Some 0%Z
          /\ reward mdp (2 * s) = 0)
    /\ (forall i : nat,
          (i < num_pairs mdp)%nat ->
          ddp_a_indices mdp !! i = Some 0%Z -> reward mdp i = 0)
    /\ (forall i : nat,
          (i < num_pairs mdp)%nat ->
          reward mdp i <> 0 -> ddp_a_indices mdp !! i = Some 1%Z).
Proof.
  intros HN. destruct (build_spec junk p HN) as (mdp & Hrun & Hb).
  exists mdp. split; [exact Hrun |].
  rewrite (built_num_states _ _ _ _ Hb), (built_num_pairs _ _ _ _ Hb).
  set (k := length (ps p (u p (T p / IZR (N p))))) in *.
  assert (Hzero : forall i : nat,
             (i < 2 * k + 1)%nat -> ddp_a_indices mdp !! i = Some 0%Z -> reward mdp i = 0).
  { intros i Hi Ha.
    destruct (built_pair_indices _ _ _ _ Hb i) as [_ Hai]; [fold k; lia |].
    rewrite Hai in Ha. injection Ha as Hmod.
    pose proof (Nat.div_mod_eq i 2) as Hdm.
    replace i with (2 * (i / 2))%nat by lia.
    apply (built_reward_hold _ _ _ _ Hb). fold k. lia. }
  split; [| split].
  - intros s Hs.
    destruct (built_pair_indices _ _ _ _ Hb (2 * s)) as [Hsi Hai]; [fold k; lia |].
    destruct (div2_double s) as [Hd _]. destruct (mod2_double s) as [Hm _].
    rewrite Hd in Hsi. rewrite Hm in Hai.
    repeat split; [lia | exact Hsi | exact Hai |].
    apply (built_reward_hold _ _ _ _ Hb). fold k. lia.
  - exact Hzero.
  - intros i Hi Hne.
    destruct (built_pair_indices _ _ _ _ Hb i) as [_ Hai]; [fold k; lia |].
    rewrite Hai. destruct (Nat.mod_bound_pos i 2) as [_ Hlt]; [lia | lia |].
    destruct (decide (i mod 2 = 0)%nat) as [Hev | Hodd].
    + exfalso. apply Hne. apply Hzero; [exact Hi |]. now rewrite Hai, Hev.
    + do 2 f_equal. lia.
Qed.

(** C6. With positive [T], [vol], [p0] and [N >= 1]: [tau = T/N] is
    computed without exception, the MDP's discount factor is
    [exp(-r*tau)], [u = exp(vol*sqrt(tau)) > 1],
    [q = 1/2 + sqrt(tau)*(r - vol^2/2)/(2*vol)] is the value written in the
    hold rows, the lattice has [2N+1] prices [ps[k] = u^(k-N) * p0], in
    strictly ascending order, and the MDP has [n = 2N + 2] states. *)
Theorem derived_quantities (junk : nat -> nat -> R) (p : params) :
  0 < T p -> 0 < vol p -> 0 < p0 p -> (1 <= N p)%Z ->
  exists (t : R) (mdp : DiscreteDP),
    tau p = Ok t /\ t = T p / IZR (N p)
    /\ build_option_mdp junk p = Ok mdp
    /\ ddp_beta mdp = exp (- r p * t)
    /\ u p t = exp (vol p * sqrt t) /\ 1 < u p t
    /\ q p t = 1 / 2 + sqrt t * (r p - vol p ^ 2 / 2) / (2 * vol p)
    /\ prob mdp 0 1 = q p t
    /\ length (ps p (u p t)) = Z.to_nat (2 * N p + 1)
    /\ (forall k : nat,
          (Z.of_nat k <= 2 * N p)%Z ->
          ps p (u p t) !! k = Some (powerRZ (u p t) (Z.of_nat k - N p) * p0 p))
    /\ (forall (j k : nat) (x y : R),
          (j < k)%nat -> ps p (u p t) !! j = Some x -> ps p (u p t) !! k = Some y -> x < y)
    /\ n (ps p (u p t)) = Z.to_nat (2 * N p + 2)
    /\ num_states mdp = n (ps p (u p t)).
Proof.
  intros HT Hvol Hp0 HN.
  destruct (build_spec junk p) as (mdp & Hrun & Hb); [lia |].
  exists (T p / IZR (N p)), mdp.
  set (t := T p / IZR (N p)) in *.
  assert (Ht : 0 < t) by now apply tau_positive.
  assert (Hu : 1 < u p t) by now apply u_gt_1.
  pose proof (ps_length p (u p t)) as Hlen.
  split; [apply tau_ok; lia |]. split; [reflexivity |]. split; [exact Hrun |].
  split; [now destruct Hb as (_ & -> & _) |].
  split; [reflexivity |]. split; [exact Hu |]. split; [reflexivity |].
  split.
  { change 0%nat with (2 * 0)%nat. rewrite (built_prob_hold _ _ _ _ Hb) by lia.
    unfold hold_row. rewrite decide_False by (simpl; lia). rewrite decide_True by lia.
    reflexivity. }
  split; [exact Hlen |].
  split; [intros k Hk; apply ps_lookup; lia |].
  split.
  { intros j k x y Hjk Hx Hy.
    pose proof (lookup_lt_Some _ _ _ Hx) as Hj. pose proof (lookup_lt_Some _ _ _ Hy) as Hk.
    rewrite ps_lookup in Hx, Hy by lia.
    injection Hx as <-. injection Hy as <-.
    apply Rmult_lt_compat_r; [exact Hp0 |]. apply powerRZ_increasing; [exact Hu | lia]. }
  split; [unfold n; lia |].
  rewrite (built_num_states _ _ _ _ Hb). reflexivity.
Qed.

Lemma steep_q : q steep_params (T steep_params / IZR (N steep_params)) = 5.475.
Proof.
  unfold q. simpl. replace (1 / 1) with 1 by lra. rewrite sqrt_1. lra.
Qed.

(** C2, as stated, fails: with [T = 1], [vol = 0.1], [r = 1], [strike = 1],
    [p0 = 1], [N = 1], all positive, [q = 5.475] and the hold row of state 0
    holds [1 - q = -4.475] in column 0. *)
Lemma stochastic_rows_counterexample :
  valid_inputs steep_params
  /\ exists mdp : DiscreteDP,
       build_option_mdp no_junk steep_params = Ok mdp
       /\ prob mdp 0 0 = -4.475
       /\ ~ stochastic_rows mdp.
Proof.
  split; [unfold valid_inputs; simpl; repeat split; try lra; lia |].
  destruct (build_spec no_junk steep_params) as (mdp & Hrun & Hb); [simpl; lia |].
  exists mdp. split; [exact Hrun |].
  assert (Hcell : prob mdp 0 0 = -4.475).
  { change 0%nat with (2 * 0)%nat at 1. rewrite (built_prob_hold _ _ _ _ Hb).
    - unfold hold_row. rewrite decide_True by reflexivity. rewrite steep_q. lra.
    - rewrite ps_length. simpl. lia. }
  split; [exact Hcell |].
  intros Hrows. destruct (Hrows 0%nat) as [Hnonneg _].
  - rewrite (built_num_pairs _ _ _ _ Hb). lia.
  - specialize (Hnonneg 0%nat). rewrite Hcell in Hnonneg.
    rewrite (built_num_states _ _ _ _ Hb) in Hnonneg.
    assert (0 <= -4.475) by (apply Hnonneg; lia). lra.
Qed.

(** C2, amended. In an MDP built from inputs that meet the stated
    preconditions (positive reals, [N >= 1]) every transition row sums to
    exactly 1, hence to 1 within the tolerance; the probabilities are all
    non-negative exactly when [0 <= q <= 1], which the preconditions do not
    ensure and the cells do not check. *)
Theorem rows_sum_to_one (junk : nat -> nat -> R) (p : params) :
  valid_inputs p ->
  exists mdp : DiscreteDP,
    build_option_mdp junk p = Ok mdp
    /\ (forall i : nat,
          (i < num_pairs mdp)%nat ->
          row_sum mdp i = 1 /\ Rabs (row_sum mdp i - 1) <= tolerance)
    /\ (stochastic_rows mdp <-> 0 <= q p (T p / IZR (N p)) <= 1).
Proof.
  intros (_ & _ & _ & _ & _ & HN).
  destruct (build_spec junk p) as (mdp & Hrun & Hb); [lia |].
  exists mdp. split; [exact Hrun |].
  pose proof (ps_length p (u p (T p / IZR (N p)))) as Hlen.
  assert (Hsum : forall i : nat,
             (i < num_pairs mdp)%nat ->
             row_sum mdp i = 1 /\ Rabs (row_sum mdp i - 1) <= tolerance).
  { intros i Hi. rewrite (built_row_sum _ _ _ _ Hb) by (try exact Hi; lia).
    split; [reflexivity |]. replace (1 - 1) with 0 by lra. rewrite Rabs_R0.
    unfold tolerance. lra. }
  split; [exact Hsum |]. split.
  - intros Hrows. destruct (Hrows 0%nat) as [Hnonneg _].
    { rewrite (built_num_pairs _ _ _ _ Hb). lia. }
    rewrite (built_num_states _ _ _ _ Hb) in Hnonneg.
    assert (H0 : 0 <= prob mdp (2 * 0) 0) by (apply Hnonneg; lia).
    assert (H1 : 0 <= prob mdp (2 * 0) 1) by (apply Hnonneg; lia).
    rewrite (built_prob_hold _ _ _ _ Hb) in H0, H1 by lia.
    unfold hold_row in H0, H1.
    rewrite decide_True in H0 by reflexivity.
    rewrite decide_False in H1 by (simpl; lia). rewrite decide_True in H1 by lia.
    lra.
  - intros Hq i Hi. split; [| now apply Hsum].
    intros j _. now apply (built_prob_nonneg _ _ _ _ Hb).
Qed.

(** C7, as stated, fails: with [strike = -1] an MDP is built, no exception
    is raised. *)
Lemma invalid_parameter_counterexample :
  strike negative_strike_params <= 0
  /\ exists mdp : DiscreteDP,
       build_option_mdp no_junk negative_strike_params = Ok mdp.
Proof.
  split; [simpl; lra |].
  destruct (build_spec no_junk negative_strike_params) as (mdp & Hrun & _);
    [simpl; lia |].
  now exists mdp.
Qed.

(** C7, amended. The cells never raise [InvalidParameter] and validate
    nothing: for [N >= 1] they run to the end and hand the arrays to
    [DiscreteDP] whatever the five real inputs are; for [N = 0] the division
    [tau = T/N] raises [ZeroDivisionError] and nothing is built. *)
Theorem no_input_validation (junk : nat -> nat -> R) (p : params) :
  build_option_mdp junk p <> Raise InvalidParameter
  /\ ((1 <= N p)%Z -> exists mdp : DiscreteDP, build_option_mdp junk p = Ok mdp)
  /\ (N p = 0%Z -> build_option_mdp junk p = Raise ZeroDivisionError).
Proof.
  destruct (Z.eq_dec (N p) 0%Z) as [H0 | Hne].
  - rewrite (build_zero junk p H0). repeat split; [discriminate | lia].
  - destruct (build_spec junk p Hne) as (mdp & Hrun & _). rewrite Hrun.
    split; [discriminate |]. split; [intros _; now exists mdp | contradiction].
Qed.

(** * The solver *)

(** ** The greedy choice *)

Lemma no_better_refl (c : Z * R) : no_better c c.
Proof. split; [lra | lia]. Qed.

Lemma no_better_trans (a b c : Z * R) : no_better a b -> no_better b c -> no_better a c.
Proof.
  intros [Hab Hab'] [Hbc Hbc']. split; [lra |].
  intros Heq. assert (snd a = snd b) by lra. assert (snd b = snd c) by lra.
  specialize (Hab' H). specialize (Hbc' H0). lia.
Qed.

Lemma pick_cases (best cand : Z * R) :
  (pick best cand = best \/ pick best cand = cand)
  /\ no_better best (pick best cand) /\ no_better cand (pick best cand).
Proof.
  unfold pick.
  destruct (bool_decide (snd best < snd cand)) eqn:Hlt; simpl.
  - apply bool_decide_eq_true in Hlt.
    split; [now right |]. split; [| apply no_better_refl].
    split; [lra | intros; lra].
  - apply bool_decide_eq_false in Hlt.
    destruct (bool_decide (snd cand = snd best)) eqn:Heq; simpl.
    + apply bool_decide_eq_true in Heq.
      destruct (Z.ltb_spec (fst cand) (fst best)) as [Ha | Ha].
      * split; [now right |]. split; [| apply no_better_refl]. split; [lra | lia].
      * split; [now left |]. split; [apply no_better_refl |]. split; [lra | lia].
    + apply bool_decide_eq_false in Heq.
      split; [now left |]. split; [apply no_better_refl |].
      split; [lra | intros; lra].
Qed.

Lemma fold_pick_spec (cs : list (Z * R)) (c : Z * R) :
  (fold_left pick cs c = c \/ fold_left pick cs c ∈ cs)
  /\ no_better c (fold_left pick cs c)
  /\ forall x, x ∈ cs -> no_better x (fold_left pick cs c).
Proof.
  revert c. induction cs as [| y cs IH]; intros c; simpl.
  - split; [now left |]. split; [apply no_better_refl |]. intros x Hx. inversion Hx.
  - destruct (IH (pick c y)) as (Hin & Hc & Hall).
    destruct (pick_cases c y) as (Hpick & Hbc & Hby).
    split.
    + destruct Hin as [-> | Hin].
      * destruct Hpick as [-> | ->]; [now left | right; left].
      * right. now right.
    + split; [eapply no_better_trans; eauto |].
      intros x Hx. apply elem_of_cons in Hx as [-> | Hx].
      * eapply no_better_trans; eauto.
      * now apply Hall.
Qed.

Lemma argmax_spec (cs : list (Z * R)) (b : Z * R) :
  argmax cs = Some b -> b ∈ cs /\ forall x, x ∈ cs -> no_better x b.
Proof.
  destruct cs as [| c cs]; [discriminate |]. simpl. intros Hb. injection Hb as <-.
  destruct (fold_pick_spec cs c) as (Hin & Hc & Hall). split.
  - destruct Hin as [-> | Hin]; [left | now right].
  - intros x Hx. apply elem_of_cons in Hx as [-> | Hx]; [exact Hc | now apply Hall].
Qed.

Lemma argmax_some (cs : list (Z * R)) : cs <> [] -> exists b, argmax cs = Some b.
Proof. destruct cs as [| c cs]; [congruence | intros _; simpl; eauto]. Qed.

(** ** One backup *)

Lemma backup_prefix (mdp : DiscreteDP) (v : list R) (k : nat) (V : list R) (sigma : list Z) :
  for_each
    (fun s (acc : list R * list Z) =>
       match greedy mdp v s with
       | Some (a, x) => Ok (fst acc ++ [x], snd acc ++ [a])
       | None => Raise MalformedMDP
       end) (seq 0 k) ([], []) = Ok (V, sigma) ->
  length V = k /\ length sigma = k
  /\ forall s : nat, (s < k)%nat ->
       exists (a : Z) (x : R),
         greedy mdp v s = Some (a, x) /\ V !! s = Some x /\ sigma !! s = Some a.
Proof.
  revert V sigma. induction k as [| k IH]; intros V sigma Hrun.
  - simpl in Hrun. injection Hrun as <- <-. repeat split. intros s Hs. lia.
  - rewrite seq_S, for_each_app in Hrun. simpl in Hrun.
    destruct (for_each _ (seq 0 k) ([], [])) as [[V' sigma'] | e] eqn:Hpre;
      [| discriminate].
    simpl in Hrun. destruct (IH V' sigma' eq_refl) as (HlV & Hls & Hall).
    destruct (greedy mdp v k) as [[a x] |] eqn:Hg; [| discriminate].
    simpl in Hrun. injection Hrun as <- <-.
    rewrite !length_app. simpl. repeat split; [lia | lia |].
    intros s Hs. destruct (decide (s = k)) as [-> | Hne].
    + exists a, x. split; [exact Hg |].
      split; apply list_lookup_middle; congruence.
    + destruct (Hall s) as (a' & x' & Hg' & HV & Hsig); [lia |].
      exists a', x'. split; [exact Hg' |].
      rewrite !lookup_app_l by lia. now split.
Qed.

Lemma backup_total_prefix (mdp : DiscreteDP) (v : list R) (k : nat) :
  (forall s : nat, (s < k)%nat -> feasible mdp s <> []) ->
  exists (V : list R) (sigma : list Z),
    for_each
      (fun s (acc : list R * list Z) =>
         match greedy mdp v s with
         | Some (a, x) => Ok (fst acc ++ [x], snd acc ++ [a])
         | None => Raise MalformedMDP
         end) (seq 0 k) ([], []) = Ok (V, sigma).
Proof.
  induction k as [| k IH]; intros Hfeas.
  - exists [], []. reflexivity.
  - destruct IH as (V & sigma & Hrun); [intros; apply Hfeas; lia |].
    destruct (argmax_some (map (fun ia => (snd ia, Qvalue mdp v (fst ia))) (feasible mdp k)))
      as [[a x] Hg].
    { intros Hnil. apply (Hfeas k); [lia |]. now apply map_eq_nil in Hnil. }
    exists (V ++ [x]), (sigma ++ [a]).
    rewrite seq_S, for_each_app, Hrun. simpl. unfold greedy. now rewrite Hg.
Qed.

(** What a backup returns: at every state the chosen action is feasible,
    its Q-value is the value, no feasible action has a higher Q-value, and
    none of the same Q-value has a lower index. *)
Lemma backup_spec (mdp : DiscreteDP) (v V : list R) (sigma : list Z) :
  backup mdp v = Ok (V, sigma) ->
  length V = num_states mdp /\ length sigma = num_states mdp
  /\ forall s : nat, (s < num_states mdp)%nat ->
       exists (a : Z) (x : R) (i : nat),
         V !! s = Some x /\ sigma !! s = Some a
         /\ (i, a) ∈ feasible mdp s /\ x = Qvalue mdp v i
         /\ forall (i' : nat) (a' : Z),
              (i', a') ∈ feasible mdp s ->
              Qvalue mdp v i' <= x /\ (Qvalue mdp v i' = x -> (a <= a')%Z).
Proof.
  intros Hrun. destruct (backup_prefix mdp v _ V sigma Hrun) as (HlV & Hls & Hall).
  repeat split; [exact HlV | exact Hls |].
  intros s Hs. destruct (Hall s Hs) as (a & x & Hg & HV & Hsig).
  destruct (argmax_spec _ _ Hg) as [Hin Hbest].
  apply list_elem_of_fmap in Hin as ([i a0] & Heq & Hin). simpl in Heq.
  injection Heq as -> ->.
  exists a0, (Qvalue mdp v i), i. repeat split; try assumption.
  - destruct (Hbest (a', Qvalue mdp v i')) as [Hle _]; [| exact Hle].
    apply list_elem_of_fmap. now exists (i', a').
  - intros Heq. destruct (Hbest (a', Qvalue mdp v i')) as [_ Hact].
    + apply list_elem_of_fmap. now exists (i', a').
    + now apply Hact.
Qed.

Lemma backup_total (mdp : DiscreteDP) (v : list R) :
  (forall s : nat, (s < num_states mdp)%nat -> feasible mdp s <> []) ->
  exists (V : list R) (sigma : list Z), backup mdp v = Ok (V, sigma).
Proof. intros Hfeas. now apply backup_total_prefix. Qed.

(** ** The period loop *)

Lemma period_loop_spec (mdp : DiscreteDP) (ts : list nat)
    (vs0 : list (list R)) (sg0 : list (list Z)) (vs : list (list R)) (sg : list (list Z)) :
  vs0 <> [] ->
  for_each
    (fun (_ : nat) (acc : list (list R) * list (list Z)) =>
       match fst acc with
       | v_next :: _ =>
           '(v, sigma) ← backup mdp v_next;
           Ok (v :: fst acc, sigma :: snd acc)
       | [] => Raise MalformedMDP
       end) ts (vs0, sg0) = Ok (vs, sg) ->
  exists (vs1 : list (list R)) (sg1 : list (list Z)),
    vs = vs1 ++ vs0 /\ sg = sg1 ++ sg0
    /\ length vs1 = length ts /\ length sg1 = length ts
    /\ backed_up mdp (length ts) vs sg.
Proof.
  revert vs0 sg0. induction ts as [| x ts IH]; intros vs0 sg0 Hne Hrun.
  - simpl in Hrun. injection Hrun as <- <-. exists [], [].
    repeat split. intros t Ht. simpl in Ht. lia.
  - simpl in Hrun. destruct vs0 as [| v_next vs0']; [congruence |].
    destruct (backup mdp v_next) as [[v sigma] | e] eqn:Hback; [| discriminate].
    simpl in Hrun.
    destruct (IH (v :: v_next :: vs0') (sigma :: sg0)) as (vs1 & sg1 & -> & -> & Hl1 & Hl2 & Hall);
      [discriminate | exact Hrun |].
    exists (vs1 ++ [v]), (sg1 ++ [sigma]).
    rewrite <- !app_assoc. simpl. rewrite !length_app. simpl.
    repeat split; [lia | lia |].
    intros t Ht. destruct (decide (t = length ts)) as [-> | Hlt].
    + exists v, v_next, sigma.
      split; [apply list_lookup_middle; congruence |].
      split.
      { replace (vs1 ++ v :: v_next :: vs0') with ((vs1 ++ [v]) ++ v_next :: vs0')
          by now rewrite <- app_assoc.
        apply list_lookup_middle. rewrite length_app. simpl. lia. }
      split; [apply list_lookup_middle; congruence | exact Hback].
    + apply Hall. lia.
Qed.

Lemma period_loop_total (mdp : DiscreteDP) (ts : list nat)
    (vs0 : list (list R)) (sg0 : list (list Z)) :
  (forall s : nat, (s < num_states mdp)%nat -> feasible mdp s <> []) ->
  vs0 <> [] ->
  exists (vs : list (list R)) (sg : list (list Z)),
    for_each
      (fun (_ : nat) (acc : list (list R) * list (list Z)) =>
         match fst acc with
         | v_next :: _ =>
             '(v, sigma) ← backup mdp v_next;
             Ok (v :: fst acc, sigma :: snd acc)
         | [] => Raise MalformedMDP
         end) ts (vs0, sg0) = Ok (vs, sg).
Proof.
  intros Hfeas. revert vs0 sg0. induction ts as [| x ts IH]; intros vs0 sg0 Hne.
  - exists vs0, sg0. reflexivity.
  - destruct vs0 as [| v_next vs0']; [congruence |].
    destruct (backup_total mdp v_next Hfeas) as (v & sigma & Hback).
    destruct (IH (v :: v_next :: vs0') (sigma :: sg0)) as (vs & sg & Hrun); [discriminate |].
    exists vs, sg. simpl. rewrite Hback. simpl. exact Hrun.
Qed.

(** ** Well-formed MDPs *)

Lemma well_formed_spec (mdp : DiscreteDP) :
  well_formed mdp = true
  <-> (forall i : nat, (i < num_pairs mdp)%nat ->
         Rabs (row_sum mdp i - 1) <= tolerance
         /\ forall j : nat, (j < num_states mdp)%nat -> 0 <= prob mdp i j)
      /\ (forall s : nat, (s < num_states mdp)%nat -> feasible mdp s <> []).
Proof.
  unfold well_formed, row_ok.
  rewrite andb_true_iff, !forallb_forall. split.
  - intros [Hrows Hfeas]. split.
    + intros i Hi. specialize (Hrows i). rewrite andb_true_iff, forallb_forall in Hrows.
      destruct Hrows as [Hsum Hnonneg]; [apply in_seq; lia |].
      apply bool_decide_eq_true in Hsum. split; [exact Hsum |].
      intros j Hj. specialize (Hnonneg j). rewrite bool_decide_eq_true in Hnonneg.
      apply Hnonneg. apply in_seq. lia.
    + intros s Hs. specialize (Hfeas s). rewrite negb_true_iff, bool_decide_eq_false in Hfeas.
      apply Hfeas. apply in_seq. lia.
  - intros [Hrows Hfeas]. split.
    + intros i Hi. apply in_seq in Hi. destruct (Hrows i) as [Hsum Hnonneg]; [lia |].
      rewrite andb_true_iff, forallb_forall. split; [now apply bool_decide_eq_true |].
      intros j Hj. apply in_seq in Hj. apply bool_decide_eq_true. apply Hnonneg. lia.
    + intros s Hs. apply in_seq in Hs. rewrite negb_true_iff, bool_decide_eq_false.
      apply Hfeas. lia.
Qed.

(** ** The solver as a whole *)

Lemma backward_induction_spec (mdp : DiscreteDP) (horizon : Z) (v_term : option (list R))
    (vs : list (list R)) (sigmas : list (list Z)) :
  backward_induction mdp horizon v_term = Ok (vs, sigmas) ->
  (1 <= horizon)%Z /\ well_formed mdp = true
  /\ length vs = S (Z.to_nat horizon) /\ length sigmas = Z.to_nat horizon
  /\ vs !! Z.to_nat horizon = Some (default (replicate (num_states mdp) 0) v_term)
  /\ backed_up mdp (Z.to_nat horizon) vs sigmas.
Proof.
  unfold backward_induction, backward_steps.
  destruct (Z.ltb_spec horizon 1) as [Hlt | Hge]; [discriminate |].
  destruct (well_formed mdp) eqn:Hwf; simpl; [| discriminate].
  intros Hrun. apply period_loop_spec in Hrun; [| discriminate].
  destruct Hrun as (vs1 & sg1 & -> & -> & Hl1 & Hl2 & Hall).
  rewrite length_rev, length_seq in Hl1, Hl2, Hall.
  rewrite app_nil_r in *. rewrite length_app. simpl.
  repeat split; [exact Hge | lia | exact Hl2 | | exact Hall].
  apply list_lookup_middle. congruence.
Qed.

Lemma backward_induction_total (mdp : DiscreteDP) (horizon : Z) (v_term : option (list R)) :
  (1 <= horizon)%Z -> well_formed mdp = true ->
  exists (vs : list (list R)) (sigmas : list (list Z)),
    backward_induction mdp horizon v_term = Ok (vs, sigmas).
Proof.
  intros Hh Hwf. unfold backward_induction, backward_steps.
  destruct (Z.ltb_spec horizon 1) as [Hlt | _]; [lia |].
  rewrite Hwf. simpl. apply period_loop_total; [| discriminate].
  now apply well_formed_spec.
Qed.

Lemma backward_induction_malformed (mdp : DiscreteDP) (horizon : Z)
    (v_term : option (list R)) :
  (1 <= horizon)%Z -> well_formed mdp = false ->
  backward_induction mdp horizon v_term = Raise MalformedMDP.
Proof.
  intros Hh Hwf. unfold backward_induction.
  destruct (Z.ltb_spec horizon 1) as [Hlt | _]; [lia |].
  now rewrite Hwf.
Qed.

(** A built MDP passes the solver's check when [0 <= q <= 1], and only
    then if it has price states (the lattice never has exactly one). *)
Lemma built_well_formed_if (junk : nat -> nat -> R) (p : params) (t : R) (mdp : DiscreteDP) :
  built junk p t mdp -> length (ps p (u p t)) <> 1%nat ->
  0 <= q p t <= 1 -> well_formed mdp = true.
Proof.
  intros Hb Hk Hq. rewrite well_formed_spec. split.
  - intros i Hi. split.
    + rewrite (built_row_sum _ _ _ _ Hb) by (try exact Hi; lia).
      replace (1 - 1) with 0 by lra. rewrite Rabs_R0. unfold tolerance. lra.
    + intros j _. now apply (built_prob_nonneg _ _ _ _ Hb).
  - intros s Hs. rewrite (built_num_states _ _ _ _ Hb) in Hs.
    destruct (decide (s = length (ps p (u p t)))) as [-> | Hne].
    + now rewrite (feasible_absorbing _ _ _ _ Hb).
    + rewrite (feasible_price_state _ _ _ _ _ Hb) by lia. discriminate.
Qed.

Lemma built_well_formed_only_if (junk : nat -> nat -> R) (p : params) (t : R)
    (mdp : DiscreteDP) :
  built junk p t mdp -> (2 <= length (ps p (u p t)))%nat ->
  well_formed mdp = true -> 0 <= q p t <= 1.
Proof.
  intros Hb Hk Hwf. apply well_formed_spec in Hwf as [Hrows _].
  destruct (Hrows 0%nat) as [_ Hnonneg].
  { rewrite (built_num_pairs _ _ _ _ Hb). lia. }
  rewrite (built_num_states _ _ _ _ Hb) in Hnonneg.
  assert (H0 : 0 <= prob mdp (2 * 0) 0) by (apply Hnonneg; lia).
  assert (H1 : 0 <= prob mdp (2 * 0) 1) by (apply Hnonneg; lia).
  rewrite (built_prob_hold _ _ _ _ Hb) in H0, H1 by lia.
  unfold hold_row in H0, H1.
  rewrite decide_True in H0 by reflexivity.
  rewrite decide_False in H1 by (simpl; lia). rewrite decide_True in H1 by lia.
  lra.
Qed.

(** * Optimality of the solver's output *)

(** C1. For every MDP the cells build ([N <> 0]), every horizon [>= 1] and
    every terminal value vector, whenever the solver returns, each value
    [V_t(s)] is the Q-value
    [reward + beta * sum_{s'} P(s,a,s') * V_{t+1}(s')] of the action
    [policy_t(s)], which is feasible at [s]; no feasible action of [s] has a
    higher Q-value, and none with the same Q-value has a lower index. The
    solver returns when [0 <= q <= 1]. *)
Theorem bellman_optimality (junk : nat -> nat -> R) (p : params) :
  N p <> 0%Z ->
  exists mdp : DiscreteDP,
    build_option_mdp junk p = Ok mdp
    /\ forall (horizon : Z) (v_term : option (list R)),
         (1 <= horizon)%Z ->
         (0 <= q p (T p / IZR (N p)) <= 1 ->
          exists vs sigmas, backward_induction mdp horizon v_term = Ok (vs, sigmas))
         /\ forall (vs : list (list R)) (sigmas : list (list Z)),
              backward_induction mdp horizon v_term = Ok (vs, sigmas) ->
              forall t s : nat,
                (Z.of_nat t < horizon)%Z -> (s < num_states mdp)%nat ->
                exists (V V' : list R) (sigma : list Z) (x : R) (a : Z) (i : nat),
                  vs !! t = Some V /\ vs !! S t = Some V' /\ sigmas !! t = Some sigma
                  /\ V !! s = Some x /\ sigma !! s = Some a
                  /\ (i, a) ∈ feasible mdp s
                  /\ x = Qvalue mdp V' i
                  /\ forall (i' : nat) (a' : Z),
                       (i', a') ∈ feasible mdp s ->
                       Qvalue mdp V' i' <= x /\ (Qvalue mdp V' i' = x -> (a <= a')%Z).
Proof.
  intros HN. destruct (build_spec junk p HN) as (mdp & Hrun & Hb).
  exists mdp. split; [exact Hrun |]. intros horizon v_term Hh. split.
  - intros Hq. apply backward_induction_total; [exact Hh |].
    apply (built_well_formed_if _ _ _ _ Hb); [rewrite ps_length; lia | exact Hq].
  - intros vs sigmas Hsolve t s Ht Hs.
    destruct (backward_induction_spec _ _ _ _ _ Hsolve) as (_ & _ & _ & _ & _ & Hall).
    destruct (Hall t) as (V & V' & sigma & HV & HV' & Hsig & Hback); [lia |].
    destruct (backup_spec _ _ _ _ Hback) as (_ & _ & Hstates).
    destruct (Hstates s Hs) as (a & x & i & Hx & Ha & Hin & Heq & Hbest).
    exists V, V', sigma, x, a, i. repeat (split; [assumption |]). exact Hbest.
Qed.

(** ** Order properties of the backup *)

Lemma Qvalue_nonneg (mdp : DiscreteDP) (v : list R) (i : nat) :
  0 <= reward mdp i -> 0 <= ddp_beta mdp ->
  (forall j : nat, (j < num_states mdp)%nat -> 0 <= prob mdp i j) ->
  nonnegative v -> 0 <= Qvalue mdp v i.
Proof.
  intros Hr Hbeta Hp Hv. unfold Qvalue.
  assert (0 <= sum_to (num_states mdp) (fun j => prob mdp i j * default 0 (v !! j))).
  { apply sum_to_nonneg. intros j Hj. apply Rmult_le_pos; [now apply Hp | apply Hv]. }
  nra.
Qed.

Lemma Qvalue_mono (mdp1 mdp2 : DiscreteDP) (v1 v2 : list R) (i : nat) :
  ddp_beta mdp1 = ddp_beta mdp2 -> 0 <= ddp_beta mdp1 ->
  num_states mdp1 = num_states mdp2 ->
  (forall j : nat, prob mdp1 i j = prob mdp2 i j) ->
  (forall j : nat, (j < num_states mdp1)%nat -> 0 <= prob mdp1 i j) ->
  reward mdp1 i <= reward mdp2 i ->
  pointwise_le v1 v2 ->
  Qvalue mdp1 v1 i <= Qvalue mdp2 v2 i.
Proof.
  intros Hbeta Hpos Hn Hp Hnonneg Hr Hv. unfold Qvalue. rewrite <- Hbeta, <- Hn.
  assert (sum_to (num_states mdp1) (fun j => prob mdp1 i j * default 0 (v1 !! j))
          <= sum_to (num_states mdp1) (fun j => prob mdp2 i j * default 0 (v2 !! j))).
  { apply sum_to_le. intros j Hj. rewrite <- Hp.
    apply Rmult_le_compat_l; [now apply Hnonneg | apply Hv]. }
  nra.
Qed.

Lemma backed_up_induction (mdp : DiscreteDP) (h : nat)
    (vs : list (list R)) (sigmas : list (list Z)) (P : list R -> Prop) :
  backed_up mdp h vs sigmas ->
  (exists V, vs !! h = Some V /\ P V) ->
  (forall (V V' : list R) (sigma : list Z),
     P V' -> backup mdp V' = Ok (V, sigma) -> P V) ->
  forall t : nat, (t <= h)%nat -> exists V, vs !! t = Some V /\ P V.
Proof.
  intros Hall Hlast Hstep.
  assert (Hdown : forall d : nat, (d <= h)%nat -> exists V, vs !! (h - d)%nat = Some V /\ P V).
  { induction d as [| d IH]; intros Hd.
    - now rewrite Nat.sub_0_r.
    - destruct IH as (V' & HV' & HP); [lia |].
      destruct (Hall (h - S d)%nat) as (V & V'' & sigma & HV & HV'' & _ & Hback); [lia |].
      replace (S (h - S d)) with (h - d)%nat in HV'' by lia.
      rewrite HV' in HV''. injection HV'' as <-.
      exists V. split; [exact HV | eapply Hstep; eauto]. }
  intros t Ht. replace t with (h - (h - t))%nat by lia. apply Hdown. lia.
Qed.

Lemma backed_up_induction2 (mdp1 mdp2 : DiscreteDP) (h : nat)
    (vs1 vs2 : list (list R)) (sg1 sg2 : list (list Z)) (P : list R -> list R -> Prop) :
  backed_up mdp1 h vs1 sg1 -> backed_up mdp2 h vs2 sg2 ->
  (exists V1 V2, vs1 !! h = Some V1 /\ vs2 !! h = Some V2 /\ P V1 V2) ->
  (forall (V1 V1' V2 V2' : list R) (s1 s2 : list Z),
     P V1' V2' -> backup mdp1 V1' = Ok (V1, s1) -> backup mdp2 V2' = Ok (V2, s2) ->
     P V1 V2) ->
  forall t : nat, (t <= h)%nat ->
    exists V1 V2, vs1 !! t = Some V1 /\ vs2 !! t = Some V2 /\ P V1 V2.
Proof.
  intros Hall1 Hall2 Hlast Hstep.
  assert (Hdown : forall d : nat, (d <= h)%nat ->
            exists V1 V2, vs1 !! (h - d)%nat = Some V1 /\ vs2 !! (h - d)%nat = Some V2
                          /\ P V1 V2).
  { induction d as [| d IH]; intros Hd.
    - now rewrite Nat.sub_0_r.
    - destruct IH as (V1' & V2' & HV1' & HV2' & HP); [lia |].
      destruct (Hall1 (h - S d)%nat) as (V1 & W1 & s1 & HV1 & HW1 & _ & Hback1); [lia |].
      destruct (Hall2 (h - S d)%nat) as (V2 & W2 & s2 & HV2 & HW2 & _ & Hback2); [lia |].
      replace (S (h - S d)) with (h - d)%nat in HW1, HW2 by lia.
      rewrite HV1' in HW1. injection HW1 as <-.
      rewrite HV2' in HW2. injection HW2 as <-.
      exists V1, V2. split; [exact HV1 |]. split; [exact HV2 | eapply Hstep; eauto]. }
  intros t Ht. replace t with (h - (h - t))%nat by lia. apply Hdown. lia.
Qed.

Lemma nonnegative_zeros (k : nat) : nonnegative (replicate k 0).
Proof.
  intros j. destruct (replicate k 0 !! j) as [x |] eqn:Hx; simpl; [| lra].
  apply lookup_replicate in Hx as [-> _]. lra.
Qed.

Lemma beta_positive (p : params) (t : R) : 0 < beta p t.
Proof. unfold beta. apply exp_pos. Qed.

(** The pipeline, once the MDP is built. *)
Lemma notebook_unfold (junk : nat -> nat -> R) (p : params) (mdp : DiscreteDP) :
  build_option_mdp junk p = Ok mdp ->
  notebook junk p = backward_induction mdp (N p) None.
Proof. intros Hrun. unfold notebook. now rewrite Hrun. Qed.

(** * The pipeline: build, then solve *)

(** C10. With [N >= 1] and [0 <= q <= 1], the notebook's backward
    induction (terminal value: the default zero vector) returns a value
    array of [N+1] rows of length [n = 2N+2], and every entry [V_t(s)],
    [0 <= t <= N], is non-negative. *)
Theorem values_nonnegative (junk : nat -> nat -> R) (p : params) :
  (1 <= N p)%Z -> 0 <= q p (T p / IZR (N p)) <= 1 ->
  exists (vs : list (list R)) (sigmas : list (list Z)),
    notebook junk p = Ok (vs, sigmas)
    /\ length vs = S (Z.to_nat (N p))
    /\ forall t : nat,
         (Z.of_nat t <= N p)%Z ->
         exists V : list R,
           vs !! t = Some V /\ length V = Z.to_nat (2 * N p + 2)
           /\ forall s : nat,
                (s < Z.to_nat (2 * N p + 2))%nat ->
                exists x : R, V !! s = Some x /\ 0 <= x.
Proof.
  intros HN Hq. destruct (build_spec junk p) as (mdp & Hrun & Hb); [lia |].
  pose proof (ps_length p (u p (T p / IZR (N p)))) as Hlen.
  pose proof (built_num_states _ _ _ _ Hb) as Hn. cbv zeta in Hn.
  assert (Hwf : well_formed mdp = true).
  { apply (built_well_formed_if _ _ _ _ Hb); [lia | exact Hq]. }
  destruct (backward_induction_total mdp (N p) None HN Hwf) as (vs & sigmas & Hsolve).
  exists vs, sigmas. rewrite (notebook_unfold _ _ _ Hrun).
  split; [exact Hsolve |].
  destruct (backward_induction_spec _ _ _ _ _ Hsolve) as (_ & _ & Hlvs & _ & Hlast & Hall).
  split; [exact Hlvs |].
  assert (Hinv : forall t : nat, (t <= Z.to_nat (N p))%nat ->
            exists V, vs !! t = Some V /\ length V = num_states mdp /\ nonnegative V).
  2:{ intros t Ht. destruct (Hinv t) as (V & HV & HlV & Hnonneg); [lia |].
      exists V. split; [exact HV |]. split; [lia |].
      intros s Hs. destruct (lookup_lt_is_Some_2 V s) as [x Hx]; [lia |].
      exists x. split; [exact Hx |]. specialize (Hnonneg s). now rewrite Hx in Hnonneg. }
  apply (backed_up_induction mdp (Z.to_nat (N p)) vs sigmas
           (fun V => length V = num_states mdp /\ nonnegative V) Hall).
  - eexists. split; [exact Hlast |]. simpl.
    split; [apply length_replicate | apply nonnegative_zeros].
  - intros V V' sigma [_ Hnext] Hback.
    destruct (backup_spec _ _ _ _ Hback) as (HlV & _ & Hstates).
    split; [exact HlV |]. intros s.
    destruct (V !! s) as [x |] eqn:Hx; simpl; [| lra].
    pose proof (lookup_lt_Some _ _ _ Hx) as Hs. rewrite HlV in Hs.
    destruct (Hstates s Hs) as (a & x' & i & Hx' & _ & _ & _ & Hbest).
    rewrite Hx in Hx'. injection Hx' as <-.
    destruct (Hbest (2 * s)%nat 0%Z) as [Hle _].
    { apply elem_of_feasible. rewrite (built_num_pairs _ _ _ _ Hb).
      destruct (built_pair_indices _ _ _ _ Hb (2 * s)) as [Hsi Hai]; [lia |].
      destruct (div2_double s) as [Hd _]. destruct (mod2_double s) as [Hm _].
      rewrite Hd in Hsi. rewrite Hm in Hai. repeat split; [lia | exact Hsi | exact Hai]. }
    assert (0 <= Qvalue mdp V' (2 * s)); [| lra].
    apply Qvalue_nonneg.
    + rewrite (built_reward_hold _ _ _ _ Hb) by lia. lra.
    + destruct Hb as (_ & -> & _). left. apply beta_positive.
    + intros j _. now apply (built_prob_nonneg _ _ _ _ Hb).
    + exact Hnext.
Qed.

Lemma R_arr_strike_mono (junk1 junk2 : nat -> nat -> R) (p1 p2 : params)
    (xs : list R) (i : nat) :
  strike p1 <= strike p2 ->
  default 0 (R_arr junk1 p1 xs !! i) <= default 0 (R_arr junk2 p2 xs !! i).
Proof.
  intros HK. destruct (le_lt_dec (2 * length xs + 1) i) as [Hge | Hlt].
  - rewrite !lookup_ge_None_2 by (rewrite R_arr_length; unfold L, n, m; lia).
    simpl. lra.
  - pose proof (Nat.div_mod_eq i 2) as Hdm.
    destruct (Nat.mod_bound_pos i 2) as [_ Hm]; [lia | lia |].
    destruct (decide (i mod 2 = 0)%nat) as [Hev | Hodd].
    + replace i with (2 * (i / 2))%nat by lia.
      rewrite !R_arr_hold by lia. simpl. lra.
    + replace i with (2 * (i / 2) + 1)%nat by lia.
      destruct (lookup_lt_is_Some_2 xs (i / 2)) as [x Hx]; [lia |].
      rewrite !(R_arr_exercise _ _ _ _ _ Hx). simpl. lra.
Qed.

Lemma feasible_eq (mdp1 mdp2 : DiscreteDP) (s : nat) :
  num_pairs mdp1 = num_pairs mdp2 ->
  ddp_s_indices mdp1 = ddp_s_indices mdp2 ->
  ddp_a_indices mdp1 = ddp_a_indices mdp2 ->
  feasible mdp1 s = feasible mdp2 s.
Proof. intros HL Hs Ha. unfold feasible. now rewrite HL, Hs, Ha. Qed.

(** The backup is monotone in the rewards and in the next-period values,
    for non-negative transition probabilities and discount factor. *)
Lemma backup_mono (mdp1 mdp2 : DiscreteDP) (V1' V2' V1 V2 : list R) (s1 s2 : list Z) :
  num_pairs mdp1 = num_pairs mdp2 -> num_states mdp1 = num_states mdp2 ->
  ddp_s_indices mdp1 = ddp_s_indices mdp2 ->
  ddp_a_indices mdp1 = ddp_a_indices mdp2 ->
  ddp_beta mdp1 = ddp_beta mdp2 -> 0 <= ddp_beta mdp1 ->
  (forall i j : nat, prob mdp1 i j = prob mdp2 i j) ->
  (forall i j : nat, 0 <= prob mdp1 i j) ->
  (forall i : nat, reward mdp1 i <= reward mdp2 i) ->
  pointwise_le V1' V2' ->
  backup mdp1 V1' = Ok (V1, s1) -> backup mdp2 V2' = Ok (V2, s2) ->
  pointwise_le V1 V2.
Proof.
  intros HL Hn Hs Ha Hbeta Hpos Hp Hnonneg Hr Hle Hb1 Hb2 j.
  destruct (backup_spec _ _ _ _ Hb1) as (Hl1 & _ & Hst1).
  destruct (backup_spec _ _ _ _ Hb2) as (Hl2 & _ & Hst2).
  destruct (le_lt_dec (num_states mdp1) j) as [Hge | Hlt].
  - rewrite !lookup_ge_None_2 by lia. simpl. lra.
  - destruct (Hst1 j Hlt) as (a1 & x1 & i1 & Hx1 & _ & Hin1 & Heq1 & _).
    destruct (Hst2 j) as (a2 & x2 & i2 & Hx2 & _ & _ & _ & Hbest2); [lia |].
    rewrite Hx1, Hx2. simpl.
    rewrite (feasible_eq mdp1 mdp2 j HL Hs Ha) in Hin1.
    destruct (Hbest2 i1 a1 Hin1) as [Hq2 _].
    assert (Qvalue mdp1 V1' i1 <= Qvalue mdp2 V2' i1); [| lra].
    apply Qvalue_mono; auto.
Qed.

Lemma same_lattice (p1 p2 : params) (t : R) :
  T p1 = T p2 -> vol p1 = vol p2 -> r p1 = r p2 -> p0 p1 = p0 p2 -> N p1 = N p2 ->
  T p1 / IZR (N p1) = T p2 / IZR (N p2)
  /\ beta p1 t = beta p2 t /\ u p1 t = u p2 t /\ q p1 t = q p2 t
  /\ forall u0 : R, ps p1 u0 = ps p2 u0.
Proof.
  intros HT Hvol Hr Hp0 HN. unfold beta, u, q, ps.
  rewrite HT, Hvol, Hr, Hp0, HN. repeat split.
Qed.

(** C8, amended. Take two parameter sets with [N >= 1] that differ only in
    the strike price, the second strike at least the first, and whose
    up-jump probability (the same for both) satisfies [0 <= q <= 1]. The
    notebook's pipeline returns for both, and [V_0(s)] under the second is
    at least [V_0(s)] under the first, at every state [s]. *)
Theorem value_monotone_in_strike (junk1 junk2 : nat -> nat -> R) (p1 p2 : params) :
  T p1 = T p2 -> vol p1 = vol p2 -> r p1 = r p2 -> p0 p1 = p0 p2 -> N p1 = N p2 ->
  strike p1 <= strike p2 -> (1 <= N p1)%Z ->
  0 <= q p1 (T p1 / IZR (N p1)) <= 1 ->
  exists (vs1 vs2 : list (list R)) (sg1 sg2 : list (list Z)),
    notebook junk1 p1 = Ok (vs1, sg1) /\ notebook junk2 p2 = Ok (vs2, sg2)
    /\ forall s : nat,
         (s < Z.to_nat (2 * N p1 + 2))%nat ->
         exists (V1 V2 : list R) (x1 x2 : R),
           vs1 !! 0%nat = Some V1 /\ vs2 !! 0%nat = Some V2
           /\ V1 !! s = Some x1 /\ V2 !! s = Some x2 /\ x1 <= x2.
Proof.
  intros HT Hvol Hr Hp0 HN HK HN1 Hq01.
  destruct (build_spec junk1 p1) as (mdp1 & Hrun1 & Hb1); [lia |].
  destruct (build_spec junk2 p2) as (mdp2 & Hrun2 & Hb2); [lia |].
  rewrite (notebook_unfold _ _ _ Hrun1), (notebook_unfold _ _ _ Hrun2).
  set (t := T p1 / IZR (N p1)) in *.
  destruct (same_lattice p1 p2 t HT Hvol Hr Hp0 HN) as (Ht & Hbeta & Hu & Hq & Hps).
  fold t in Ht. rewrite <- Ht in Hb2. rewrite <- HN.
  pose proof (ps_length p1 (u p1 t)) as Hlen.
  pose proof (built_num_states _ _ _ _ Hb1) as Hn1. cbv zeta in Hn1.
  pose proof (built_num_states _ _ _ _ Hb2) as Hn2. cbv zeta in Hn2.
  pose proof (built_num_pairs _ _ _ _ Hb1) as HL1. cbv zeta in HL1.
  pose proof (built_num_pairs _ _ _ _ Hb2) as HL2. cbv zeta in HL2.
  rewrite <- Hu, <- Hps in Hn2, HL2.
  assert (Hwf1 : well_formed mdp1 = true).
  { apply (built_well_formed_if _ _ _ _ Hb1); [lia | exact Hq01]. }
  assert (Hwf2 : well_formed mdp2 = true).
  { apply (built_well_formed_if _ _ _ _ Hb2); [rewrite <- Hu, <- Hps; lia |].
    rewrite <- Hq. exact Hq01. }
  destruct (backward_induction_total mdp1 (N p1) None HN1 Hwf1) as (vs1 & sg1 & Hsolve1).
  destruct (backward_induction_total mdp2 (N p1) None HN1 Hwf2) as (vs2 & sg2 & Hsolve2).
  exists vs1, vs2, sg1, sg2. split; [exact Hsolve1 |]. split; [exact Hsolve2 |].
  intros s Hs.
    destruct (backward_induction_spec _ _ _ _ _ Hsolve1)
      as (_ & _ & _ & _ & Hlast1 & Hall1).
    destruct (backward_induction_spec _ _ _ _ _ Hsolve2)
      as (_ & _ & _ & _ & Hlast2 & Hall2).
    assert (Hinv : exists V1 V2, vs1 !! 0%nat = Some V1 /\ vs2 !! 0%nat = Some V2
                                 /\ pointwise_le V1 V2).
    { apply (backed_up_induction2 mdp1 mdp2 (Z.to_nat (N p1)) vs1 vs2 sg1 sg2
               pointwise_le Hall1 Hall2); [| | lia].
      - do 2 eexists. split; [exact Hlast1 |]. split; [exact Hlast2 |].
        simpl. rewrite Hn1, Hn2. intros j. lra.
      - intros V1 V1' V2 V2' s1 s2 Hle Hback1 Hback2.
        apply (backup_mono mdp1 mdp2 V1' V2' V1 V2 s1 s2); try assumption.
        + congruence.
        + congruence.
        + destruct Hb1 as (_ & _ & -> & _). destruct Hb2 as (_ & _ & -> & _).
          now rewrite <- Hu, <- Hps.
        + destruct Hb1 as (_ & _ & _ & -> & _). destruct Hb2 as (_ & _ & _ & -> & _).
          now rewrite <- Hu, <- Hps.
        + destruct Hb1 as (_ & -> & _). destruct Hb2 as (_ & -> & _). exact Hbeta.
        + destruct Hb1 as (_ & -> & _). left. apply beta_positive.
        + intros i j. destruct Hb1 as (_ & _ & _ & _ & _ & ->).
          destruct Hb2 as (_ & _ & _ & _ & _ & ->).
          now rewrite <- Hu, <- Hps, <- Hq.
        + intros i j. now apply (built_prob_nonneg _ _ _ _ Hb1).
        + intros i. unfold reward.
          destruct Hb1 as (-> & _). destruct Hb2 as (-> & _).
          rewrite <- Hu, <- Hps. now apply R_arr_strike_mono. }
    destruct Hinv as (V1 & V2 & HV1 & HV2 & Hle).
    destruct (Hall1 0%nat) as (W1 & W1' & s1 & HW1 & _ & _ & Hback1); [lia |].
    destruct (Hall2 0%nat) as (W2 & W2' & s2 & HW2 & _ & _ & Hback2); [lia |].
    rewrite HV1 in HW1. injection HW1 as <-. rewrite HV2 in HW2. injection HW2 as <-.
    destruct (backup_spec _ _ _ _ Hback1) as (Hl1 & _ & _).
    destruct (backup_spec _ _ _ _ Hback2) as (Hl2 & _ & _).
    destruct (lookup_lt_is_Some_2 V1 s) as [x1 Hx1]; [lia |].
    destruct (lookup_lt_is_Some_2 V2 s) as [x2 Hx2]; [lia |].
    exists V1, V2, x1, x2. repeat (split; [assumption |]).
    specialize (Hle s). now rewrite Hx1, Hx2 in Hle.
Qed.

(** * The backup in closed form *)

Lemma sum_to_pick (k j0 : nat) (x : R) (f : nat -> R) :
  (j0 < k)%nat ->
  sum_to k (fun j => (if decide (j = j0) then x else 0) * f j) = x * f j0.
Proof.
  intros Hj.
  rewrite (sum_to_ext _ _ (fun j => if decide (j = j0) then x * f j0 else 0)).
  - now apply sum_to_single.
  - intros j _. case_decide; [subst; reflexivity | lra].
Qed.

Section Closed_form.
Variables (junk : nat -> nat -> R) (p : params) (t : R) (mdp : DiscreteDP).
Hypothesis Hbuilt : built junk p t mdp.

Local Abbreviation k := (length (ps p (u p t))).

(** Q-value of holding at the price state [s]. *)
Lemma Qvalue_hold (v : list R) (s : nat) :
  (s < k)%nat -> (2 <= k)%nat ->
  Qvalue mdp v (2 * s)
  = beta p t * ((1 - q p t) * default 0 (v !! Nat.pred s)
                + q p t * default 0 (v !! Nat.min (s + 1) (k - 1))).
Proof.
  intros Hs Hk. unfold Qvalue.
  rewrite (built_reward_hold _ _ _ _ Hbuilt) by lia.
  rewrite (built_num_states _ _ _ _ Hbuilt).
  rewrite (sum_to_ext _ _
    (fun j => (if decide (j = Nat.pred s) then 1 - q p t else 0) * default 0 (v !! j)
              + (if decide (j = Nat.min (s + 1) (k - 1)) then q p t else 0)
                * default 0 (v !! j))).
  - rewrite sum_to_plus, !sum_to_pick by lia.
    destruct Hbuilt as (_ & -> & _). lra.
  - intros j _. rewrite (built_prob_hold _ _ _ _ Hbuilt) by exact Hs.
    unfold hold_row. repeat case_decide; try lra. exfalso. lia.
Qed.

(** Q-value of exercising at the price state [s], of price [x]. *)
Lemma Qvalue_exercise (v : list R) (s : nat) (x : R) :
  ps p (u p t) !! s = Some x ->
  Qvalue mdp v (2 * s + 1) = strike p - x + beta p t * default 0 (v !! k).
Proof.
  intros Hx. pose proof (lookup_lt_Some _ _ _ Hx) as Hs. unfold Qvalue.
  rewrite (built_reward_exercise _ _ _ _ Hbuilt _ _ Hx).
  rewrite (built_num_states _ _ _ _ Hbuilt).
  rewrite (sum_to_ext _ _
    (fun j => (if decide (j = k) then 1 else 0) * default 0 (v !! j))).
  - rewrite sum_to_pick by lia. destruct Hbuilt as (_ & -> & _). lra.
  - intros j _. now rewrite (built_prob_exercise _ _ _ _ Hbuilt) by exact Hs.
Qed.

(** One backup at a price state: the value is the larger of the hold and
    exercise Q-values, and the policy exercises exactly when exercising is
    strictly better. *)
Lemma backup_price_state (v V : list R) (sigma : list Z) (s : nat) (x : R) :
  (2 <= k)%nat -> backup mdp v = Ok (V, sigma) -> ps p (u p t) !! s = Some x ->
  V !! s = Some (Rmax (Qvalue mdp v (2 * s)) (Qvalue mdp v (2 * s + 1)))
  /\ sigma !! s
     = Some (if decide (Qvalue mdp v (2 * s) < Qvalue mdp v (2 * s + 1)) then 1%Z else 0%Z).
Proof.
  intros Hk Hback Hx. pose proof (lookup_lt_Some _ _ _ Hx) as Hs.
  destruct (backup_spec _ _ _ _ Hback) as (_ & _ & Hstates).
  destruct (Hstates s) as (a & y & i & Hy & Ha & Hin & Heq & Hbest).
  { rewrite (built_num_states _ _ _ _ Hbuilt). lia. }
  rewrite (feasible_price_state _ _ _ _ _ Hbuilt) in Hin, Hbest by exact Hs.
  destruct (Hbest (2 * s)%nat 0%Z) as [Hh Hh']; [left |].
  destruct (Hbest (2 * s + 1)%nat 1%Z) as [He He']; [right; left |].
  rewrite Hy, Ha.
  apply elem_of_cons in Hin as [Hin | Hin].
  - assert (Hi : i = (2 * s)%nat) by congruence.
    assert (Ha0 : a = 0%Z) by congruence. subst i a.
    rewrite Rmax_left by lra. rewrite decide_False by lra. split; congruence.
  - apply list_elem_of_singleton in Hin.
    assert (Hi : i = (2 * s + 1)%nat) by congruence.
    assert (Ha1 : a = 1%Z) by congruence. subst i a.
    assert (Hne : Qvalue mdp v (2 * s) <> Qvalue mdp v (2 * s + 1)).
    { intros Htie. rewrite Heq in Hh'. specialize (Hh' Htie). lia. }
    rewrite Rmax_right by lra. rewrite decide_True by lra. split; congruence.
Qed.
(** Q-value of the only action of the absorbing state. *)
Lemma Qvalue_absorbing (v : list R) :
  Qvalue mdp v (2 * k) = beta p t * default 0 (v !! k).
Proof.
  unfold Qvalue. rewrite (built_reward_hold _ _ _ _ Hbuilt) by lia.
  rewrite (built_num_states _ _ _ _ Hbuilt).
  rewrite (sum_to_ext _ _
    (fun j => (if decide (j = k) then 1 else 0) * default 0 (v !! j))).
  - rewrite sum_to_pick by lia. destruct Hbuilt as (_ & -> & _). lra.
  - intros j _. now rewrite (built_prob_absorbing _ _ _ _ Hbuilt).
Qed.

Lemma backup_absorbing (v V : list R) (sigma : list Z) :
  backup mdp v = Ok (V, sigma) ->
  V !! k = Some (Qvalue mdp v (2 * k)) /\ sigma !! k = Some 0%Z.
Proof.
  intros Hback. destruct (backup_spec _ _ _ _ Hback) as (_ & _ & Hstates).
  destruct (Hstates k) as (a & y & i & Hy & Ha & Hin & Heq & _).
  { rewrite (built_num_states _ _ _ _ Hbuilt). lia. }
  rewrite (feasible_absorbing _ _ _ _ Hbuilt) in Hin.
  apply list_elem_of_singleton in Hin.
  assert (Hi : i = (2 * k)%nat) by congruence.
  assert (Ha0 : a = 0%Z) by congruence. subst i a. split; congruence.
Qed.

Lemma built_feasible_nonempty (s : nat) :
  (s < num_states mdp)%nat -> feasible mdp s <> [].
Proof.
  intros Hs. rewrite (built_num_states _ _ _ _ Hbuilt) in Hs.
  destruct (decide (s = k)) as [-> | Hne].
  - now rewrite (feasible_absorbing _ _ _ _ Hbuilt).
  - rewrite (feasible_price_state _ _ _ _ _ Hbuilt) by lia. discriminate.
Qed.
End Closed_form.

Lemma zeros_lookup (k j : nat) : default 0 (replicate k 0 !! j) = 0.
Proof.
  destruct (replicate k 0 !! j) as [x |] eqn:Hx; [| reflexivity].
  now apply lookup_replicate in Hx as [-> _].
Qed.

(** ** The period loop without the solver's row check

    On the steep lattice ([tau = 1], [u = exp(0.1)], [q = 5.475]) two
    backups from the zero vector give, at the middle price state 2,
    [V_0 = max(beta * ((1-q) * max(0, K - 11/u) + q * max(0, K - 11u)), K - 11)]
    for the strike [K]. *)
Lemma steep_V0 (p : params) :
  T p = 2 -> vol p = 0.1 -> r p = 1 -> p0 p = 11 -> N p = 2%Z ->
  exists (mdp : DiscreteDP) (vs : list (list R)) (sg : list (list Z)) (V : list R),
    build_option_mdp no_junk p = Ok mdp
    /\ well_formed mdp = false
    /\ backward_steps mdp 2 (replicate 6 0) = Ok (vs, sg)
    /\ vs !! 0%nat = Some V
    /\ V !! 2%nat
       = Some (Rmax (exp (- 1)
                     * ((1 - 5.475) * Rmax 0 (strike p - 11 / exp 0.1)
                        + 5.475 * Rmax 0 (strike p - 11 * exp 0.1)))
                    (strike p - 11)).
Proof.
  intros HT Hvol Hr Hp0 HN.
  destruct (build_spec no_junk p) as (mdp & Hrun & Hb); [lia |].
  rewrite HT, HN in Hb. replace (2 / 2) with 1 in Hb by lra.
  assert (Hq : q p 1 = 5.475).
  { unfold q. rewrite Hvol, Hr, sqrt_1. lra. }
  assert (Hu : u p 1 = exp 0.1).
  { unfold u. rewrite Hvol, sqrt_1. f_equal. lra. }
  assert (Hbeta : beta p 1 = exp (- 1)).
  { unfold beta. rewrite Hr. f_equal. lra. }
  assert (Hk : length (ps p (u p 1)) = 5%nat) by (rewrite ps_length, HN; reflexivity).
  assert (Hps : forall j : nat, (j < 5)%nat ->
            ps p (u p 1) !! j = Some (powerRZ (exp 0.1) (Z.of_nat j - 2) * 11)).
  { intros j Hj. rewrite ps_lookup by (rewrite HN; simpl; lia).
    now rewrite Hu, HN, Hp0. }
  exists mdp.
  destruct (period_loop_total mdp (rev (seq 0 2)) [replicate 6 0] [])
    as (vs & sg & Hloop); [apply (built_feasible_nonempty _ _ _ _ Hb) | discriminate |].
  exists vs, sg.
  assert (Hne : [replicate 6 0] <> ([] : list (list R))) by discriminate.
  destruct (period_loop_spec mdp _ _ _ _ _ Hne Hloop)
    as (vs1 & sg1 & Hvs & _ & Hl1 & _ & Hall).
  simpl length in Hl1, Hall.
  destruct (Hall 1%nat) as (V1 & Z1 & s1 & HV1 & HZ1 & _ & Hback1); [lia |].
  destruct (Hall 0%nat) as (V0 & V1' & s0 & HV0 & HV1' & _ & Hback0); [lia |].
  rewrite HV1 in HV1'. injection HV1' as <-.
  assert (HZ : Z1 = replicate 6 0).
  { rewrite Hvs in HZ1. rewrite list_lookup_middle in HZ1 by congruence. congruence. }
  subst Z1.
  exists V0. split; [exact Hrun |]. split.
  { destruct (well_formed mdp) eqn:Hwf; [| reflexivity].
    apply (built_well_formed_only_if _ _ _ _ Hb) in Hwf; [| lia]. lra. }
  split; [exact Hloop |]. split; [exact HV0 |].
  destruct (backup_price_state _ _ _ _ Hb _ _ _ 1%nat _ ltac:(lia) Hback1 (Hps 1%nat ltac:(lia)))
    as [Hv1 _].
  destruct (backup_price_state _ _ _ _ Hb _ _ _ 3%nat _ ltac:(lia) Hback1 (Hps 3%nat ltac:(lia)))
    as [Hv3 _].
  destruct (backup_absorbing _ _ _ _ Hb _ _ _ Hback1) as [Hv5 _].
  destruct (backup_price_state _ _ _ _ Hb _ _ _ 2%nat _ ltac:(lia) Hback0 (Hps 2%nat ltac:(lia)))
    as [Hv2 _].
  rewrite Hv2. f_equal.
  rewrite (Qvalue_hold _ _ _ _ Hb) in Hv1, Hv3 |- * by lia.
  rewrite (Qvalue_exercise _ _ _ _ Hb _ _ _ (Hps 1%nat ltac:(lia))) in Hv1.
  rewrite (Qvalue_exercise _ _ _ _ Hb _ _ _ (Hps 3%nat ltac:(lia))) in Hv3.
  rewrite (Qvalue_exercise _ _ _ _ Hb _ _ _ (Hps 2%nat ltac:(lia))).
  rewrite (Qvalue_absorbing _ _ _ _ Hb) in Hv5.
  rewrite !zeros_lookup in Hv1, Hv3, Hv5.
  rewrite Hk in *. cbn [Nat.pred Nat.min Nat.add Nat.sub] in *.
  rewrite Hv1, Hv3, Hv5, Hq, Hbeta. simpl default.
  assert (Hu0 : exp 0.1 <> 0) by (pose proof (exp_pos 0.1); lra).
  replace (powerRZ (exp 0.1) (Z.of_nat 1 - 2)) with (/ exp 0.1)
    by (simpl; field; exact Hu0).
  replace (powerRZ (exp 0.1) (Z.of_nat 3 - 2)) with (exp 0.1) by (simpl; lra).
  replace (powerRZ (exp 0.1) (Z.of_nat 2 - 2)) with 1 by reflexivity.
  f_equal; [| lra].
  f_equal. f_equal; f_equal; f_equal; try lra. field. exact Hu0.
Qed.

Lemma steep_strike_q :
  q steep_low_strike_params
    (T steep_low_strike_params / IZR (N steep_low_strike_params)) = 5.475.
Proof.
  unfold q. simpl. replace (2 / 2) with 1 by lra. rewrite sqrt_1. lra.
Qed.

(** C8, as stated, fails. The two parameter sets of the steep lattice are
    positive and differ only in the strike, 1 and 10, and their up-jump
    probability is [q = 5.475]. The cells build both MDPs; the solver's
    period loop, from the zero vector, lowers [V_0] at the middle price
    state from 0 under the strike 1 to a negative value under the strike 10.
    With the row check the spec gives the solver, no value is produced for
    either strike: the pipeline raises [MalformedMDP]. *)
Lemma strike_monotonicity_counterexample :
  valid_inputs steep_low_strike_params /\ valid_inputs steep_high_strike_params
  /\ T steep_low_strike_params = T steep_high_strike_params
  /\ vol steep_low_strike_params = vol steep_high_strike_params
  /\ r steep_low_strike_params = r steep_high_strike_params
  /\ p0 steep_low_strike_params = p0 steep_high_strike_params
  /\ N steep_low_strike_params = N steep_high_strike_params
  /\ strike steep_low_strike_params <= strike steep_high_strike_params
  /\ q steep_low_strike_params
       (T steep_low_strike_params / IZR (N steep_low_strike_params)) = 5.475
  /\ notebook no_junk steep_low_strike_params = Raise MalformedMDP
  /\ notebook no_junk steep_high_strike_params = Raise MalformedMDP
  /\ exists (mdp1 mdp2 : DiscreteDP) (vs1 vs2 : list (list R)) (sg1 sg2 : list (list Z))
            (V1 V2 : list R) (x1 x2 : R),
    build_option_mdp no_junk steep_low_strike_params = Ok mdp1
    /\ build_option_mdp no_junk steep_high_strike_params = Ok mdp2
    /\ backward_steps mdp1 2 (replicate 6 0) = Ok (vs1, sg1)
    /\ backward_steps mdp2 2 (replicate 6 0) = Ok (vs2, sg2)
    /\ vs1 !! 0%nat = Some V1 /\ vs2 !! 0%nat = Some V2
    /\ V1 !! 2%nat = Some x1 /\ V2 !! 2%nat = Some x2
    /\ x1 = 0 /\ x2 < 0.
Proof.
  destruct (steep_V0 steep_low_strike_params)
    as (mdp1 & vs1 & sg1 & V1 & Hb1 & Hw1 & Hs1 & HV1 & Hx1); try reflexivity.
  destruct (steep_V0 steep_high_strike_params)
    as (mdp2 & vs2 & sg2 & V2 & Hb2 & Hw2 & Hs2 & HV2 & Hx2); try reflexivity.
  simpl strike in Hx1, Hx2.
  assert (Hu1 : 1.1 < exp 0.1) by (pose proof (exp_ineq1 0.1); lra).
  assert (Hu3 : exp 0.1 <= 3).
  { apply Rle_trans with (exp 1); [| apply exp_le_3]. left. apply exp_increasing. lra. }
  assert (Hb : 0 < exp (- 1)) by apply exp_pos.
  set (u0 := exp 0.1) in *. set (b := exp (- 1)) in *.
  assert (Hw : 0 < / u0) by (apply Rinv_0_lt_compat; lra).
  assert (Hwu : / u0 * u0 = 1) by (apply Rinv_l; lra).
  unfold Rdiv in Hx1, Hx2. set (w := / u0) in *.
  split; [unfold valid_inputs; simpl; repeat split; try lra; lia |].
  split; [unfold valid_inputs; simpl; repeat split; try lra; lia |].
  do 5 (split; [reflexivity |]).
  split; [simpl; lra |].
  split; [exact steep_strike_q |].
  split; [rewrite (notebook_unfold _ _ _ Hb1);
          apply backward_induction_malformed; [simpl; lia | exact Hw1] |].
  split; [rewrite (notebook_unfold _ _ _ Hb2);
          apply backward_induction_malformed; [simpl; lia | exact Hw2] |].
  exists mdp1, mdp2, vs1, vs2, sg1, sg2, V1, V2. eexists. eexists.
  split; [exact Hb1 |]. split; [exact Hb2 |].
  split; [exact Hs1 |]. split; [exact Hs2 |].
  split; [exact HV1 |]. split; [exact HV2 |].
  split; [exact Hx1 |]. split; [exact Hx2 |].
  split.
  - rewrite (Rmax_left 0 (1 - 11 * w)) by nra.
    rewrite (Rmax_left 0 (1 - 11 * u0)) by nra.
    rewrite Rmax_left by nra. nra.
  - rewrite (Rmax_right 0 (10 - 11 * w)) by nra.
    rewrite (Rmax_left 0 (10 - 11 * u0)) by nra.
    apply Rmax_lub_lt; [| lra].
    assert (0 < 10 - 11 * w) by nra. nra.
Qed.

(** * The properties at the notebook's own parameters *)

(** At the notebook's parameters [q] is between 0.5 and 0.575. *)
Lemma notebook_q_bounds :
  0 <= q notebook_params (T notebook_params / IZR (N notebook_params)) <= 1.
Proof.
  unfold q. simpl.
  assert (H0 : 0 <= sqrt (0.5 / 100)) by apply sqrt_pos.
  assert (H1 : sqrt (0.5 / 100) <= 1).
  { rewrite <- sqrt_1. apply sqrt_le_1_alt. lra. }
  set (x := sqrt (0.5 / 100)) in *.
  replace (x * (0.05 - 0.2 * (0.2 * 1) / 2) / (2 * 0.2)) with (x * 0.075) by lra.
  lra.
Qed.

(** Short names for the parameter sets and for [tau = T/N] of the notebook. *)
Local Abbreviation nb := notebook_params.
Local Abbreviation nb_higher := higher_strike_params.
Local Abbreviation nb_tau := (T notebook_params / IZR (N notebook_params)).

(** C3 at the notebook's parameters. *)
Lemma hold_rows_clamped_witness :
  (1 <= N nb)%Z /\
  (exists mdp : DiscreteDP,
      build_option_mdp no_junk nb = Ok mdp
      /\ forall s : nat,
           (s < num_states mdp - 1)%nat ->
           let q0 := q nb nb_tau in
           let top := (num_states mdp - 2)%nat in
           let up := Nat.min (s + 1) top in
           let down := Nat.pred s in
           ddp_s_indices mdp !! (2 * s)%nat = Some (Z.of_nat s)
           /\ ddp_a_indices mdp !! (2 * s)%nat = Some 0%Z
           /\ prob mdp (2 * s) up = q0
           /\ prob mdp (2 * s) down = 1 - q0
           /\ (forall j : nat, j <> up -> j <> down -> prob mdp (2 * s) j = 0)
           /\ prob mdp (2 * s) (num_states mdp - 1) = 0
           /\ (up <= top)%nat /\ (down <= top)%nat /\ up <> down
           /\ (s = 0%nat -> down = s /\ up = 1%nat)
           /\ (s = top -> up = s /\ down = (s - 1)%nat)
           /\ (0 < s < top -> up = (s + 1)%nat /\ down = (s - 1)%nat)%nat).
Proof.
  assert (H1 : (1 <= N nb)%Z) by (simpl; lia).
  repeat (split; [assumption |]).
  apply (hold_rows_clamped no_junk nb); assumption.
Defined.

(** C4 at the notebook's parameters. *)
Lemma exercise_pairs_witness :
  (1 <= N nb)%Z /\
  (exists mdp : DiscreteDP,
      build_option_mdp no_junk nb = Ok mdp
      /\ forall s : nat,
           (s < num_states mdp - 1)%nat ->
           ddp_s_indices mdp !! (2 * s + 1)%nat = Some (Z.of_nat s)
           /\ ddp_a_indices mdp !! (2 * s + 1)%nat = Some 1%Z
           /\ prob mdp (2 * s + 1) (num_states mdp - 1) = 1
           /\ (forall j : nat, j <> (num_states mdp - 1)%nat -> prob mdp (2 * s + 1) j = 0)
           /\ exists price : R,
                ps nb (u nb nb_tau) !! s = Some price
                /\ reward mdp (2 * s + 1) = strike nb - price).
Proof.
  assert (H1 : (1 <= N nb)%Z) by (simpl; lia).
  repeat (split; [assumption |]).
  apply (exercise_pairs no_junk nb); assumption.
Defined.

(** C5 at the notebook's parameters. *)
Lemma absorbing_state_witness :
  (1 <= N nb)%Z /\
  (exists mdp : DiscreteDP,
      build_option_mdp no_junk nb = Ok mdp
      /\ num_states mdp = Z.to_nat (2 * N nb + 2)
      /\ num_pairs mdp = (2 * num_states mdp - 1)%nat
      /\ length (ddp_R mdp) = num_pairs mdp
      /\ length (ddp_s_indices mdp) = num_pairs mdp
      /\ length (ddp_a_indices mdp) = num_pairs mdp
      /\ feasible mdp (num_states mdp - 1) = [((num_pairs mdp - 1)%nat, 0%Z)]
      /\ prob mdp (num_pairs mdp - 1) (num_states mdp - 1) = 1
      /\ (forall j : nat, j <> (num_states mdp - 1)%nat -> prob mdp (num_pairs mdp - 1) j = 0)
      /\ reward mdp (num_pairs mdp - 1) = 0).
Proof.
  assert (H1 : (1 <= N nb)%Z) by (simpl; lia).
  repeat (split; [assumption |]).
  apply (absorbing_state no_junk nb); assumption.
Defined.

(** C9 at the notebook's parameters. *)
Lemma action_0_reward_zero_witness :
  N nb <> 0%Z /\
  (exists mdp : DiscreteDP,
      build_option_mdp no_junk nb = Ok mdp
      /\ (forall s : nat,
            (s < num_states mdp)%nat ->
            (2 * s < num_pairs mdp)%nat
            /\ ddp_s_indices mdp !! (2 * s)%nat = Some (Z.of_nat s)
            /\ ddp_a_indices mdp !! (2 * s)%nat = Some 0%Z
            /\ reward mdp (2 * s) = 0)
      /\ (forall i : nat,
            (i < num_pairs mdp)%nat ->
            ddp_a_indices mdp !! i = Some 0%Z -> reward mdp i = 0)
      /\ (forall i : nat,
            (i < num_pairs mdp)%nat ->
            reward mdp i <> 0 -> ddp_a_indices mdp !! i = Some 1%Z)).
Proof.
  assert (H1 : N nb <> 0%Z) by (simpl; lia).
  repeat (split; [assumption |]).
  apply (action_0_reward_zero no_junk nb); assumption.
Defined.

(** C6 at the notebook's parameters. *)
Lemma derived_quantities_witness :
  0 < T nb /\
  0 < vol nb /\
  0 < p0 nb /\
  (1 <= N nb)%Z /\
  (exists (t : R) (mdp : DiscreteDP),
      tau nb = Ok t /\ t = T nb / IZR (N nb)
      /\ build_option_mdp no_junk nb = Ok mdp
      /\ ddp_beta mdp = exp (- r nb * t)
      /\ u nb t = exp (vol nb * sqrt t) /\ 1 < u nb t
      /\ q nb t = 1 / 2 + sqrt t * (r nb - vol nb ^ 2 / 2) / (2 * vol nb)
      /\ prob mdp 0 1 = q nb t
      /\ length (ps nb (u nb t)) = Z.to_nat (2 * N nb + 1)
      /\ (forall k : nat,
            (Z.of_nat k <= 2 * N nb)%Z ->
            ps nb (u nb t) !! k = Some (powerRZ (u nb t) (Z.of_nat k - N nb) * p0 nb))
      /\ (forall (j k : nat) (x y : R),
            (j < k)%nat -> ps nb (u nb t) !! j = Some x -> ps nb (u nb t) !! k = Some y -> x < y)
      /\ n (ps nb (u nb t)) = Z.to_nat (2 * N nb + 2)
      /\ num_states mdp = n (ps nb (u nb t))).
Proof.
  assert (H1 : 0 < T nb) by (simpl; lra).
  assert (H2 : 0 < vol nb) by (simpl; lra).
  assert (H3 : 0 < p0 nb) by (simpl; lra).
  assert (H4 : (1 <= N nb)%Z) by (simpl; lia).
  repeat (split; [assumption |]).
  apply (derived_quantities no_junk nb); assumption.
Defined.

(** C2, amended, at the notebook's parameters. *)
Lemma rows_sum_to_one_witness :
  valid_inputs nb /\
  (exists mdp : DiscreteDP,
      build_option_mdp no_junk nb = Ok mdp
      /\ (forall i : nat,
            (i < num_pairs mdp)%nat ->
            row_sum mdp i = 1 /\ Rabs (row_sum mdp i - 1) <= tolerance)
      /\ (stochastic_rows mdp <-> 0 <= q nb nb_tau <= 1)).
Proof.
  assert (H1 : valid_inputs nb) by (unfold valid_inputs; simpl; repeat split; try lra; lia).
  split; [exact H1 |].
  apply (rows_sum_to_one no_junk nb); exact H1.
Defined.

(** C1 at the notebook's parameters. *)
Lemma bellman_optimality_witness :
  N nb <> 0%Z /\
  (exists mdp : DiscreteDP,
      build_option_mdp no_junk nb = Ok mdp
      /\ forall (horizon : Z) (v_term : option (list R)),
           (1 <= horizon)%Z ->
           (0 <= q nb nb_tau <= 1 ->
            exists vs sigmas, backward_induction mdp horizon v_term = Ok (vs, sigmas))
           /\ forall (vs : list (list R)) (sigmas : list (list Z)),
                backward_induction mdp horizon v_term = Ok (vs, sigmas) ->
                forall t s : nat,
                  (Z.of_nat t < horizon)%Z -> (s < num_states mdp)%nat ->
                  exists (V V' : list R) (sigma : list Z) (x : R) (a : Z) (i : nat),
                    vs !! t = Some V /\ vs !! S t = Some V' /\ sigmas !! t = Some sigma
                    /\ V !! s = Some x /\ sigma !! s = Some a
                    /\ (i, a) ∈ feasible mdp s
                    /\ x = Qvalue mdp V' i
                    /\ forall (i' : nat) (a' : Z),
                         (i', a') ∈ feasible mdp s ->
                         Qvalue mdp V' i' <= x /\ (Qvalue mdp V' i' = x -> (a <= a')%Z)).
Proof.
  assert (H1 : N nb <> 0%Z) by (simpl; lia).
  repeat (split; [assumption |]).
  apply (bellman_optimality no_junk nb); assumption.
Defined.

(** C10 at the notebook's parameters. *)
Lemma values_nonnegative_witness :
  (1 <= N nb)%Z /\
  (0 <= q nb nb_tau <= 1) /\
  (exists (vs : list (list R)) (sigmas : list (list Z)),
      notebook no_junk nb = Ok (vs, sigmas)
      /\ length vs = S (Z.to_nat (N nb))
      /\ forall t : nat,
           (Z.of_nat t <= N nb)%Z ->
           exists V : list R,
             vs !! t = Some V /\ length V = Z.to_nat (2 * N nb + 2)
             /\ forall s : nat,
                  (s < Z.to_nat (2 * N nb + 2))%nat ->
                  exists x : R, V !! s = Some x /\ 0 <= x).
Proof.
  assert (H1 : (1 <= N nb)%Z) by (simpl; lia).
  assert (H2 : 0 <= q nb nb_tau <= 1) by (apply notebook_q_bounds).
  repeat (split; [assumption |]).
  apply (values_nonnegative no_junk nb); assumption.
Defined.

(** C8, amended, at the notebook's parameters and at the same with strike
    2.2. *)
Lemma value_monotone_in_strike_witness :
  T nb = T nb_higher /\
  vol nb = vol nb_higher /\
  r nb = r nb_higher /\
  p0 nb = p0 nb_higher /\
  N nb = N nb_higher /\
  strike nb <= strike nb_higher /\
  (1 <= N nb)%Z /\
  (0 <= q nb nb_tau <= 1) /\
  (exists (vs1 vs2 : list (list R)) (sg1 sg2 : list (list Z)),
      notebook no_junk nb = Ok (vs1, sg1) /\ notebook no_junk nb_higher = Ok (vs2, sg2)
      /\ forall s : nat,
           (s < Z.to_nat (2 * N nb + 2))%nat ->
           exists (V1 V2 : list R) (x1 x2 : R),
             vs1 !! 0%nat = Some V1 /\ vs2 !! 0%nat = Some V2
             /\ V1 !! s = Some x1 /\ V2 !! s = Some x2 /\ x1 <= x2).
Proof.
  assert (H1 : T nb = T nb_higher) by (reflexivity).
  assert (H2 : vol nb = vol nb_higher) by (reflexivity).
  assert (H3 : r nb = r nb_higher) by (reflexivity).
  assert (H4 : p0 nb = p0 nb_higher) by (reflexivity).
  assert (H5 : N nb = N nb_higher) by (reflexivity).
  assert (H6 : strike nb <= strike nb_higher) by (simpl; lra).
  assert (H7 : (1 <= N nb)%Z) by (simpl; lia).
  assert (H8 : 0 <= q nb nb_tau <= 1) by (apply notebook_q_bounds).
  repeat (split; [assumption |]).
  apply (value_monotone_in_strike no_junk no_junk nb nb_higher); assumption.
Defined.

(** * The values and the policies, period by period *)

(** What a returning run of the pipeline went through. *)
Lemma notebook_run (junk : nat -> nat -> R) (p : params)
    (vs : list (list R)) (sigmas : list (list Z)) :
  (1 <= N p)%Z -> notebook junk p = Ok (vs, sigmas) ->
  exists mdp : DiscreteDP,
    build_option_mdp junk p = Ok mdp
    /\ built junk p (T p / IZR (N p)) mdp
    /\ 0 <= q p (T p / IZR (N p)) <= 1
    /\ length vs = S (Z.to_nat (N p)) /\ length sigmas = Z.to_nat (N p)
    /\ vs !! Z.to_nat (N p) = Some (replicate (num_states mdp) 0)
    /\ backed_up mdp (Z.to_nat (N p)) vs sigmas.
Proof.
  intros HN Hrun. destruct (build_spec junk p) as (mdp & Hbuild & Hb); [lia |].
  rewrite (notebook_unfold _ _ _ Hbuild) in Hrun.
  destruct (backward_induction_spec _ _ _ _ _ Hrun) as (_ & Hwf & Hlv & Hls & Hlast & Hall).
  exists mdp. repeat (split; [assumption |]).
  split; [| repeat (split; [assumption |]); assumption].
  apply (built_well_formed_only_if _ _ _ _ Hb); [rewrite ps_length; lia | exact Hwf].
Qed.

Lemma notebook_total (junk : nat -> nat -> R) (p : params) :
  (1 <= N p)%Z -> 0 <= q p (T p / IZR (N p)) <= 1 ->
  exists (vs : list (list R)) (sigmas : list (list Z)), notebook junk p = Ok (vs, sigmas).
Proof.
  intros HN Hq. destruct (build_spec junk p) as (mdp & Hbuild & Hb); [lia |].
  rewrite (notebook_unfold _ _ _ Hbuild). apply backward_induction_total; [exact HN |].
  apply (built_well_formed_if _ _ _ _ Hb); [rewrite ps_length; lia | exact Hq].
Qed.

Section Periods.
Variables (junk : nat -> nat -> R) (p : params) (t : R) (mdp : DiscreteDP).
Hypothesis Hbuilt : built junk p t mdp.
Hypothesis Hq : 0 <= q p t <= 1.

Local Abbreviation k := (length (ps p (u p t))).

(** A backup of non-negative values is non-negative. *)
Lemma backup_nonnegative (V' V : list R) (sigma : list Z) :
  nonnegative V' -> backup mdp V' = Ok (V, sigma) -> nonnegative V.
Proof.
  intros Hnext Hback s.
  destruct (backup_spec _ _ _ _ Hback) as (HlV & _ & Hstates).
  destruct (V !! s) as [x |] eqn:Hx; simpl; [| lra].
  pose proof (lookup_lt_Some _ _ _ Hx) as Hs. rewrite HlV in Hs.
  destruct (Hstates s Hs) as (a & x' & i & Hx' & _ & _ & _ & Hbest).
  rewrite Hx in Hx'. injection Hx' as <-.
  rewrite (built_num_states _ _ _ _ Hbuilt) in Hs.
  destruct (Hbest (2 * s)%nat 0%Z) as [Hle _].
  { apply elem_of_feasible. rewrite (built_num_pairs _ _ _ _ Hbuilt).
    destruct (built_pair_indices _ _ _ _ Hbuilt (2 * s)) as [Hsi Hai]; [lia |].
    destruct (div2_double s) as [Hd _]. destruct (mod2_double s) as [Hm _].
    rewrite Hd in Hsi. rewrite Hm in Hai. repeat split; [lia | exact Hsi | exact Hai]. }
  assert (0 <= Qvalue mdp V' (2 * s)); [| lra].
  apply Qvalue_nonneg.
  - rewrite (built_reward_hold _ _ _ _ Hbuilt) by lia. lra.
  - destruct Hbuilt as (_ & -> & _). left. apply beta_positive.
  - intros j _. now apply (built_prob_nonneg _ _ _ _ Hbuilt).
  - exact Hnext.
Qed.

(** One backup in closed form, for next-period values that are 0 at the
    absorbing state: the value of a price state is the larger of the
    discounted expected value of holding and the payoff of exercising. *)
Lemma backup_closed_form (V' V : list R) (sigma : list Z) (s : nat) (x : R) :
  (2 <= k)%nat -> default 0 (V' !! k) = 0 ->
  backup mdp V' = Ok (V, sigma) -> ps p (u p t) !! s = Some x ->
  let hold := beta p t * ((1 - q p t) * default 0 (V' !! Nat.pred s)
                          + q p t * default 0 (V' !! Nat.min (s + 1) (k - 1))) in
  V !! s = Some (Rmax hold (strike p - x))
  /\ sigma !! s = Some (if decide (hold < strike p - x) then 1%Z else 0%Z).
Proof.
  intros Hk Hzero Hback Hx. cbv zeta.
  pose proof (lookup_lt_Some _ _ _ Hx) as Hs.
  destruct (backup_price_state _ _ _ _ Hbuilt _ _ _ _ _ Hk Hback Hx) as [HV Hsig].
  rewrite (Qvalue_hold _ _ _ _ Hbuilt) in HV, Hsig by lia.
  rewrite (Qvalue_exercise _ _ _ _ Hbuilt _ _ _ Hx) in HV, Hsig.
  rewrite Hzero in HV, Hsig.
  replace (strike p - x + beta p t * 0) with (strike p - x) in HV, Hsig by lra.
  now split.
Qed.

(** The absorbing state keeps the value 0 and the action 0. *)
Lemma backup_absorbing_zero (V' V : list R) (sigma : list Z) :
  default 0 (V' !! k) = 0 -> backup mdp V' = Ok (V, sigma) ->
  V !! k = Some 0 /\ sigma !! k = Some 0%Z.
Proof.
  intros Hzero Hback.
  destruct (backup_absorbing _ _ _ _ Hbuilt _ _ _ Hback) as [HV Hsig].
  rewrite (Qvalue_absorbing _ _ _ _ Hbuilt), Hzero in HV.
  replace (beta p t * 0) with 0 in HV by lra. now split.
Qed.

(** The invariant of the value rows: length [n], non-negative entries and 0
    at the absorbing state. *)
Lemma value_rows_invariant (h : nat) (vs : list (list R)) (sigmas : list (list Z)) :
  backed_up mdp h vs sigmas ->
  vs !! h = Some (replicate (num_states mdp) 0) ->
  forall i : nat, (i <= h)%nat ->
    exists V : list R,
      vs !! i = Some V /\ length V = (k + 1)%nat /\ nonnegative V /\ V !! k = Some 0.
Proof.
  intros Hall Hlast.
  apply (backed_up_induction mdp h vs sigmas
           (fun V => length V = (k + 1)%nat /\ nonnegative V /\ V !! k = Some 0) Hall).
  - eexists. split; [exact Hlast |].
    rewrite (built_num_states _ _ _ _ Hbuilt).
    split; [apply length_replicate |]. split; [apply nonnegative_zeros |].
    apply lookup_replicate. split; [reflexivity | lia].
  - intros V V' sigma (_ & Hnonneg & Hzero) Hback.
    destruct (backup_spec _ _ _ _ Hback) as (HlV & _ & _).
    rewrite (built_num_states _ _ _ _ Hbuilt) in HlV.
    split; [exact HlV |]. split; [eapply backup_nonnegative; eauto |].
    apply (backup_absorbing_zero V' V sigma); [now rewrite Hzero | exact Hback].
Qed.
End Periods.

(** Every period of a returning run: the value row, the next one (which is
    non-negative and 0 at the absorbing state) and the policy row, related
    by one backup. *)
Lemma notebook_rows (junk : nat -> nat -> R) (p : params)
    (vs : list (list R)) (sigmas : list (list Z)) :
  (1 <= N p)%Z -> notebook junk p = Ok (vs, sigmas) ->
  exists mdp : DiscreteDP,
    built junk p (T p / IZR (N p)) mdp
    /\ 0 <= q p (T p / IZR (N p)) <= 1
    /\ length vs = S (Z.to_nat (N p)) /\ length sigmas = Z.to_nat (N p)
    /\ vs !! Z.to_nat (N p) = Some (replicate (Z.to_nat (2 * N p + 2)) 0)
    /\ forall i : nat, (Z.of_nat i < N p)%Z ->
         exists (V V' : list R) (sigma : list Z),
           vs !! i = Some V /\ vs !! S i = Some V' /\ sigmas !! i = Some sigma
           /\ nonnegative V' /\ V' !! Z.to_nat (2 * N p + 1) = Some 0
           /\ backup mdp V' = Ok (V, sigma).
Proof.
  intros HN Hrun.
  destruct (notebook_run _ _ _ _ HN Hrun) as (mdp & _ & Hb & Hq & Hlv & Hls & Hlast & Hall).
  pose proof (ps_length p (u p (T p / IZR (N p)))) as Hlen.
  exists mdp. repeat (split; [assumption |]). split.
  { rewrite Hlast, (built_num_states _ _ _ _ Hb), Hlen. do 2 f_equal. lia. }
  intros i Hi.
  destruct (Hall i) as (V & V' & sigma & HV & HV' & Hsig & Hback); [lia |].
  destruct (value_rows_invariant _ _ _ _ Hb Hq _ _ _ Hall Hlast (S i))
    as (W & HW & _ & Hnonneg & Hzero); [lia |].
  rewrite HV' in HW. injection HW as <-.
  exists V, V', sigma. repeat (split; [assumption |]).
  rewrite Hlen in Hzero. split; [exact Hzero | exact Hback].
Qed.

(** X1. With [N >= 1] and [0 <= q <= 1] the pipeline returns, and its value
    rows obey the recursion of the American put: at every period [i < N] and
    price state [s] of price [x], [V_i(s)] is the larger of
    [beta * ((1-q) * V_{i+1}(max(s-1,0)) + q * V_{i+1}(min(s+1,2N)))] and
    [strike - x], and the policy exercises exactly when the second is
    strictly larger. *)
Theorem american_put_recursion (junk : nat -> nat -> R) (p : params) :
  (1 <= N p)%Z -> 0 <= q p (T p / IZR (N p)) <= 1 ->
  exists (vs : list (list R)) (sigmas : list (list Z)),
    notebook junk p = Ok (vs, sigmas)
    /\ forall (i s : nat) (x : R),
         (Z.of_nat i < N p)%Z ->
         ps p (u p (T p / IZR (N p))) !! s = Some x ->
         exists (V V' : list R) (sigma : list Z),
           vs !! i = Some V /\ vs !! S i = Some V' /\ sigmas !! i = Some sigma
           /\ let hold :=
                exp (- r p * (T p / IZR (N p)))
                * ((1 - q p (T p / IZR (N p))) * default 0 (V' !! Nat.pred s)
                   + q p (T p / IZR (N p))
                     * default 0 (V' !! Nat.min (s + 1) (Z.to_nat (2 * N p)))) in
              V !! s = Some (Rmax hold (strike p - x))
              /\ sigma !! s = Some (if decide (hold < strike p - x) then 1%Z else 0%Z).
Proof.
  intros HN Hq. destruct (notebook_total junk p HN Hq) as (vs & sigmas & Hrun).
  exists vs, sigmas. split; [exact Hrun |]. intros i s x Hi Hx.
  destruct (notebook_rows _ _ _ _ HN Hrun) as (mdp & Hb & _ & _ & _ & _ & Hrows).
  destruct (Hrows i Hi) as (V & V' & sigma & HV & HV' & Hsig & _ & Hzero & Hback).
  exists V, V', sigma. repeat (split; [assumption |]).
  pose proof (ps_length p (u p (T p / IZR (N p)))) as Hlen.
  replace (Z.to_nat (2 * N p)) with (length (ps p (u p (T p / IZR (N p)))) - 1)%nat by lia.
  apply (backup_closed_form _ _ _ _ Hb V' V sigma s x); try assumption; [lia |].
  replace (length (ps p (u p (T p / IZR (N p))))) with (Z.to_nat (2 * N p + 1)) by lia.
  now rewrite Hzero.
Qed.

(** X2. With [N >= 1] and [0 <= q <= 1], at every period the value of the
    state "the option has been exercised" (the last entry of the row) is 0,
    as the notebook says of [vs[0, -1]], and its action is 0. *)
Theorem exercised_state_worth_zero (junk : nat -> nat -> R) (p : params) :
  (1 <= N p)%Z -> 0 <= q p (T p / IZR (N p)) <= 1 ->
  exists (vs : list (list R)) (sigmas : list (list Z)),
    notebook junk p = Ok (vs, sigmas)
    /\ (forall i : nat, (Z.of_nat i <= N p)%Z ->
          exists V : list R,
            vs !! i = Some V /\ length V = Z.to_nat (2 * N p + 2) /\ last V = Some 0)
    /\ (forall i : nat, (Z.of_nat i < N p)%Z ->
          exists sigma : list Z,
            sigmas !! i = Some sigma /\ length sigma = Z.to_nat (2 * N p + 2)
            /\ last sigma = Some 0%Z).
Proof.
  intros HN Hq. destruct (notebook_total junk p HN Hq) as (vs & sigmas & Hrun).
  exists vs, sigmas. split; [exact Hrun |].
  destruct (notebook_run _ _ _ _ HN Hrun) as (mdp & _ & Hb & _ & _ & _ & Hlast & Hall).
  pose proof (ps_length p (u p (T p / IZR (N p)))) as Hlen.
  split.
  - intros i Hi.
    destruct (value_rows_invariant _ _ _ _ Hb Hq _ _ _ Hall Hlast i)
      as (V & HV & HlV & _ & Hzero); [lia |].
    exists V. split; [exact HV |]. split; [lia |].
    rewrite last_lookup, HlV. rewrite <- Hzero. f_equal. lia.
  - intros i Hi.
    destruct (Hall i) as (V & V' & sigma & _ & HV' & Hsig & Hback); [lia |].
    destruct (value_rows_invariant _ _ _ _ Hb Hq _ _ _ Hall Hlast (S i))
      as (W & HW & _ & _ & Hzero); [lia |].
    rewrite HV' in HW. injection HW as <-.
    destruct (backup_spec _ _ _ _ Hback) as (_ & Hls & _).
    rewrite (built_num_states _ _ _ _ Hb) in Hls.
    destruct (backup_absorbing_zero _ _ _ _ Hb V' V sigma) as [_ Hs0];
      [now rewrite Hzero | exact Hback |].
    exists sigma. split; [exact Hsig |]. split; [lia |].
    rewrite last_lookup, Hls. rewrite <- Hs0. f_equal. lia.
Qed.

(** X3. With [N >= 1] and [0 <= q <= 1], before expiry the premium of a
    price state is never below the payoff of exercising at once, nor below
    0: [V_i(s) >= strike - ps[s]] and [V_i(s) >= 0] for [i < N] (the value
    curve of the left panel lies on or above the dashed payoff line). *)
Theorem premium_dominates_payoff (junk : nat -> nat -> R) (p : params) :
  (1 <= N p)%Z -> 0 <= q p (T p / IZR (N p)) <= 1 ->
  exists (vs : list (list R)) (sigmas : list (list Z)),
    notebook junk p = Ok (vs, sigmas)
    /\ forall (i s : nat) (x : R),
         (Z.of_nat i < N p)%Z ->
         ps p (u p (T p / IZR (N p))) !! s = Some x ->
         exists (V : list R) (y : R),
           vs !! i = Some V /\ V !! s = Some y /\ strike p - x <= y /\ 0 <= y.
Proof.
  intros HN Hq. destruct (notebook_total junk p HN Hq) as (vs & sigmas & Hrun).
  exists vs, sigmas. split; [exact Hrun |]. intros i s x Hi Hx.
  destruct (notebook_rows _ _ _ _ HN Hrun) as (mdp & Hb & _ & _ & _ & _ & Hrows).
  destruct (Hrows i Hi) as (V & V' & sigma & HV & _ & _ & Hnonneg & Hzero & Hback).
  pose proof (ps_length p (u p (T p / IZR (N p)))) as Hlen.
  destruct (backup_closed_form _ _ _ _ Hb V' V sigma s x) as [Hval _];
    try assumption; [lia | |].
  { replace (length (ps p (u p (T p / IZR (N p))))) with (Z.to_nat (2 * N p + 1)) by lia.
    now rewrite Hzero. }
  eexists V, _. split; [exact HV |]. split; [exact Hval |].
  split; [apply Rmax_r |].
  pose proof (backup_nonnegative _ _ _ _ Hb Hq V' V sigma Hnonneg Hback s) as Hy.
  now rewrite Hval in Hy.
Qed.

(** Entries of a row of length [len], read with the default 0. *)
Lemma lookup_default_Some (V : list R) (s : nat) :
  (s < length V)%nat -> V !! s = Some (default 0 (V !! s)).
Proof. intros Hs. destruct (lookup_lt_is_Some_2 V s Hs) as [x ->]. reflexivity. Qed.

Lemma pointwise_le_zeros (len : nat) (V : list R) :
  nonnegative V -> pointwise_le (replicate len 0) V.
Proof. intros HV j. rewrite zeros_lookup. apply HV. Qed.

Section Monotone.
Variables (junk : nat -> nat -> R) (p : params) (t : R) (mdp : DiscreteDP).
Hypothesis Hbuilt : built junk p t mdp.
Hypothesis Hq : 0 <= q p t <= 1.

(** The backup of the built MDP is monotone in the next-period values. *)
Lemma backup_monotone (V1' V2' V1 V2 : list R) (s1 s2 : list Z) :
  pointwise_le V1' V2' ->
  backup mdp V1' = Ok (V1, s1) -> backup mdp V2' = Ok (V2, s2) ->
  pointwise_le V1 V2.
Proof.
  intros Hle Hb1 Hb2.
  apply (backup_mono mdp mdp V1' V2' V1 V2 s1 s2); try reflexivity; try assumption.
  - destruct Hbuilt as (_ & -> & _). left. apply beta_positive.
  - intros i j. now apply (built_prob_nonneg _ _ _ _ Hbuilt).
Qed.

(** Each value row is, entry by entry, at least the next one. *)
Lemma value_rows_decreasing (h : nat) (vs : list (list R)) (sigmas : list (list Z)) :
  backed_up mdp h vs sigmas ->
  vs !! h = Some (replicate (num_states mdp) 0) ->
  forall i : nat, (i < h)%nat ->
    exists V V' : list R, vs !! i = Some V /\ vs !! S i = Some V' /\ pointwise_le V' V.
Proof.
  intros Hall Hlast.
  assert (Hdown : forall d : nat, (d < h)%nat ->
            exists V V' : list R,
              vs !! (h - S d)%nat = Some V /\ vs !! (h - d)%nat = Some V'
              /\ pointwise_le V' V).
  { induction d as [| d IH]; intros Hd.
    - destruct (Hall (h - 1)%nat) as (V & V' & sigma & HV & HV' & _ & Hback); [lia |].
      replace (S (h - 1)) with h in HV' by lia.
      rewrite Hlast in HV'. injection HV' as <-.
      exists V, (replicate (num_states mdp) 0). rewrite Nat.sub_0_r.
      repeat split; [exact HV | exact Hlast |].
      apply pointwise_le_zeros. eapply (backup_nonnegative _ _ _ _ Hbuilt Hq); eauto.
      apply nonnegative_zeros.
    - destruct IH as (V & V' & HV & HV' & Hle); [lia |].
      destruct (Hall (h - S d)%nat) as (W & W' & s1 & HW & HW' & _ & Hback1); [lia |].
      destruct (Hall (h - S (S d))%nat) as (U & U' & s2 & HU & HU' & _ & Hback2); [lia |].
      replace (S (h - S d)) with (h - d)%nat in HW' by lia.
      replace (S (h - S (S d))) with (h - S d)%nat in HU' by lia.
      rewrite HV in HW. injection HW as <-. rewrite HV' in HW'. injection HW' as <-.
      rewrite HV in HU'. injection HU' as <-.
      exists U, V. repeat split; [exact HU | exact HV |].
      eapply backup_monotone; eauto. }
  intros i Hi. destruct (Hdown (h - S i)%nat) as (V & V' & HV & HV' & Hle); [lia |].
  replace (h - S (h - S i))%nat with i in HV by lia.
  replace (h - (h - S i))%nat with (S i) in HV' by lia.
  now exists V, V'.
Qed.
End Monotone.

(** X4. With [N >= 1] and [0 <= q <= 1], the premium does not decrease with
    the time left to expiry: [V_i(s) >= V_{i+1}(s)] at every state [s] and
    period [i < N]. *)
Theorem premium_grows_with_time_to_expiry (junk : nat -> nat -> R) (p : params) :
  (1 <= N p)%Z -> 0 <= q p (T p / IZR (N p)) <= 1 ->
  exists (vs : list (list R)) (sigmas : list (list Z)),
    notebook junk p = Ok (vs, sigmas)
    /\ forall i s : nat,
         (Z.of_nat i < N p)%Z -> (Z.of_nat s < 2 * N p + 2)%Z ->
         exists (V V' : list R) (y y' : R),
           vs !! i = Some V /\ vs !! S i = Some V'
           /\ V !! s = Some y /\ V' !! s = Some y' /\ y' <= y.
Proof.
  intros HN Hq. destruct (notebook_total junk p HN Hq) as (vs & sigmas & Hrun).
  exists vs, sigmas. split; [exact Hrun |]. intros i s Hi Hs.
  destruct (notebook_run _ _ _ _ HN Hrun) as (mdp & _ & Hb & _ & _ & _ & Hlast & Hall).
  pose proof (ps_length p (u p (T p / IZR (N p)))) as Hlen.
  destruct (value_rows_decreasing _ _ _ _ Hb Hq _ _ _ Hall Hlast i)
    as (V & V' & HV & HV' & Hle); [lia |].
  destruct (value_rows_invariant _ _ _ _ Hb Hq _ _ _ Hall Hlast i)
    as (W & HW & HlW & _); [lia |].
  destruct (value_rows_invariant _ _ _ _ Hb Hq _ _ _ Hall Hlast (S i))
    as (W' & HW' & HlW' & _); [lia |].
  rewrite HV in HW. injection HW as <-. rewrite HV' in HW'. injection HW' as <-.
  exists V, V', (default 0 (V !! s)), (default 0 (V' !! s)).
  repeat (split; [assumption |]).
  split; [apply lookup_default_Some; lia |].
  split; [apply lookup_default_Some; lia | apply Hle].
Qed.

(** ** Bounds and monotonicity in the price *)

Lemma ps_positive (p : params) (u0 x : R) (s : nat) :
  0 < u0 -> 0 < p0 p -> ps p u0 !! s = Some x -> 0 < x.
Proof.
  intros Hu Hp0 Hx. pose proof (lookup_lt_Some _ _ _ Hx) as Hs.
  rewrite ps_length in Hs. rewrite ps_lookup in Hx by exact Hs. injection Hx as <-.
  apply Rmult_lt_0_compat; [now apply powerRZ_lt | exact Hp0].
Qed.

Lemma ps_ascending (p : params) (u0 x y : R) (a b : nat) :
  1 < u0 -> 0 < p0 p -> (a <= b)%nat ->
  ps p u0 !! a = Some x -> ps p u0 !! b = Some y -> x <= y.
Proof.
  intros Hu Hp0 Hab Hx Hy.
  destruct (decide (a = b)) as [-> | Hne].
  - rewrite Hx in Hy. injection Hy as <-. lra.
  - pose proof (lookup_lt_Some _ _ _ Hx) as Ha. pose proof (lookup_lt_Some _ _ _ Hy) as Hb.
    rewrite ps_length in Ha, Hb. rewrite ps_lookup in Hx, Hy by assumption.
    injection Hx as <-. injection Hy as <-. left.
    apply Rmult_lt_compat_r; [exact Hp0 |]. apply powerRZ_increasing; [exact Hu | lia].
Qed.

Lemma beta_le_1 (p : params) (t : R) : 0 <= r p -> 0 <= t -> beta p t <= 1.
Proof.
  intros Hr Ht. unfold beta. rewrite <- exp_0.
  assert (Hle : - r p * t <= 0) by nra.
  destruct Hle as [Hlt | ->]; [left; now apply exp_increasing | lra].
Qed.

Section Bounds.
Variables (junk : nat -> nat -> R) (p : params) (t : R) (mdp : DiscreteDP).
Hypothesis Hbuilt : built junk p t mdp.
Hypothesis Hq : 0 <= q p t <= 1.

Local Abbreviation k := (length (ps p (u p t))).

Hypothesis Hk : (2 <= k)%nat.

(** A bound of the exercise payoffs and of the next-period values bounds the
    backed-up values, when the discount factor is at most 1. *)
Lemma backup_bounded (M : R) (V' V : list R) (sigma : list Z) :
  beta p t <= 1 -> 0 <= M ->
  (forall (s : nat) (x : R), ps p (u p t) !! s = Some x -> strike p - x <= M) ->
  nonnegative V' -> default 0 (V' !! k) = 0 ->
  (forall j : nat, default 0 (V' !! j) <= M) ->
  backup mdp V' = Ok (V, sigma) ->
  forall j : nat, default 0 (V !! j) <= M.
Proof.
  intros Hbeta HM Hpay Hnonneg Hzero Hbound Hback j.
  destruct (backup_spec _ _ _ _ Hback) as (HlV & _ & _).
  rewrite (built_num_states _ _ _ _ Hbuilt) in HlV.
  pose proof (beta_positive p t) as Hbpos.
  destruct (le_lt_dec k j) as [Hge | Hlt].
  - destruct (decide (j = k)) as [-> | Hne].
    + destruct (backup_absorbing_zero _ _ _ _ Hbuilt V' V sigma Hzero Hback) as [-> _].
      exact HM.
    + rewrite lookup_ge_None_2 by lia. exact HM.
  - destruct (lookup_lt_is_Some_2 (ps p (u p t)) j Hlt) as [x Hx].
    destruct (backup_closed_form _ _ _ _ Hbuilt V' V sigma j x Hk Hzero Hback Hx) as [-> _].
    simpl. apply Rmax_lub; [| now apply (Hpay j)].
    pose proof (Hbound (Nat.pred j)) as Ha. pose proof (Hnonneg (Nat.pred j)) as Ha0.
    pose proof (Hbound (Nat.min (j + 1) (k - 1))) as Hb.
    pose proof (Hnonneg (Nat.min (j + 1) (k - 1))) as Hb0.
    set (a := default 0 (V' !! Nat.pred j)) in *.
    set (b := default 0 (V' !! Nat.min (j + 1) (k - 1))) in *.
    assert (Hmix : 0 <= (1 - q p t) * a + q p t * b <= M) by nra.
    nra.
Qed.

(** Next-period values that do not increase with the price, over price
    levels that do not decrease, give backed-up values that do not increase
    with the price. *)
Lemma backup_antitone (V' V : list R) (sigma : list Z) :
  (forall (a b : nat) (x y : R),
     (a <= b)%nat -> ps p (u p t) !! a = Some x -> ps p (u p t) !! b = Some y -> x <= y) ->
  default 0 (V' !! k) = 0 ->
  (forall a b : nat, (a <= b)%nat -> (b < k)%nat ->
     default 0 (V' !! b) <= default 0 (V' !! a)) ->
  backup mdp V' = Ok (V, sigma) ->
  forall a b : nat, (a <= b)%nat -> (b < k)%nat ->
    default 0 (V !! b) <= default 0 (V !! a).
Proof.
  intros Hasc Hzero Hanti Hback a b Hab Hb.
  pose proof (beta_positive p t) as Hbpos.
  destruct (lookup_lt_is_Some_2 (ps p (u p t)) a) as [x Hx]; [lia |].
  destruct (lookup_lt_is_Some_2 (ps p (u p t)) b) as [y Hy]; [lia |].
  destruct (backup_closed_form _ _ _ _ Hbuilt V' V sigma a x Hk Hzero Hback Hx) as [-> _].
  destruct (backup_closed_form _ _ _ _ Hbuilt V' V sigma b y Hk Hzero Hback Hy) as [-> _].
  simpl. pose proof (Hasc a b x y Hab Hx Hy) as Hxy.
  pose proof (Hanti (Nat.pred a) (Nat.pred b) ltac:(lia) ltac:(lia)) as Hdown.
  pose proof (Hanti (Nat.min (a + 1) (k - 1)) (Nat.min (b + 1) (k - 1)) ltac:(lia) ltac:(lia))
    as Hup.
  apply Rmax_lub.
  - eapply Rle_trans; [| apply Rmax_l].
    apply Rmult_le_compat_l; [lra |].
    apply Rplus_le_compat; apply Rmult_le_compat_l; lra.
  - eapply Rle_trans; [| apply Rmax_r]. lra.
Qed.
End Bounds.

(** X5. With positive [T], [vol], [p0], [r >= 0], [N >= 1] and
    [0 <= q <= 1], every premium [V_i(s)] lies between 0 and
    [max(0, strike - ps[0])], the payoff at the lowest lattice price; so for
    a positive strike it is below the strike, the height of the left
    panel. *)
Theorem premium_within_bounds (junk : nat -> nat -> R) (p : params) :
  0 < T p -> 0 < vol p -> 0 <= r p -> 0 < p0 p -> (1 <= N p)%Z ->
  0 <= q p (T p / IZR (N p)) <= 1 ->
  exists (vs : list (list R)) (sigmas : list (list Z)) (lowest : R),
    notebook junk p = Ok (vs, sigmas)
    /\ ps p (u p (T p / IZR (N p))) !! 0%nat = Some lowest /\ 0 < lowest
    /\ forall i s : nat,
         (Z.of_nat i <= N p)%Z -> (Z.of_nat s < 2 * N p + 2)%Z ->
         exists (V : list R) (y : R),
           vs !! i = Some V /\ V !! s = Some y
           /\ 0 <= y <= Rmax 0 (strike p - lowest)
           /\ (0 < strike p -> y < strike p).
Proof.
  intros HT Hvol Hr Hp0 HN Hq.
  destruct (notebook_total junk p HN Hq) as (vs & sigmas & Hrun).
  destruct (notebook_run _ _ _ _ HN Hrun) as (mdp & _ & Hb & _ & _ & _ & Hlast & Hall).
  set (t := T p / IZR (N p)) in *.
  assert (Ht : 0 < t) by now apply tau_positive.
  assert (Hu : 1 < u p t) by now apply u_gt_1.
  pose proof (ps_length p (u p t)) as Hlen.
  destruct (lookup_lt_is_Some_2 (ps p (u p t)) 0) as [lowest Hlow]; [lia |].
  assert (Hlpos : 0 < lowest).
  { apply (ps_positive p (u p t) lowest 0); [lra | exact Hp0 | exact Hlow]. }
  exists vs, sigmas, lowest. repeat (split; [assumption |]).
  set (M := Rmax 0 (strike p - lowest)).
  assert (HM : 0 <= M) by apply Rmax_l.
  assert (Hpay : forall (s : nat) (x : R),
             ps p (u p t) !! s = Some x -> strike p - x <= M).
  { intros s x Hx. eapply Rle_trans; [| apply Rmax_r].
    pose proof (ps_ascending p (u p t) lowest x 0 s Hu Hp0 ltac:(lia) Hlow Hx). lra. }
  assert (Hinv : forall i : nat, (i <= Z.to_nat (N p))%nat ->
            exists V : list R,
              vs !! i = Some V
              /\ (length V = (length (ps p (u p t)) + 1)%nat /\ nonnegative V
                  /\ V !! length (ps p (u p t)) = Some 0
                  /\ forall j : nat, default 0 (V !! j) <= M)).
  { apply (backed_up_induction mdp _ vs sigmas _ Hall).
    - eexists. split; [exact Hlast |].
      rewrite (built_num_states _ _ _ _ Hb).
      split; [apply length_replicate |]. split; [apply nonnegative_zeros |].
      split; [apply lookup_replicate; split; [reflexivity | lia] |].
      intros j. now rewrite zeros_lookup.
    - intros V V' sigma (_ & Hnonneg & Hzero & Hbound) Hback.
      destruct (backup_spec _ _ _ _ Hback) as (HlV & _ & _).
      rewrite (built_num_states _ _ _ _ Hb) in HlV.
      split; [exact HlV |].
      split; [eapply (backup_nonnegative _ _ _ _ Hb Hq); eauto |].
      split; [apply (backup_absorbing_zero _ _ _ _ Hb V' V sigma);
              [now rewrite Hzero | exact Hback] |].
      assert (Hk : (2 <= length (ps p (u p t)))%nat) by lia.
      apply (backup_bounded _ _ _ _ Hb Hq Hk M V' V sigma); try assumption.
      + apply beta_le_1; [exact Hr | lra].
      + now rewrite Hzero. }
  intros i s Hi Hs.
  destruct (Hinv i) as (V & HV & HlV & Hnonneg & _ & Hbound); [lia |].
  exists V, (default 0 (V !! s)).
  split; [exact HV |]. split; [apply lookup_default_Some; lia |].
  split; [split; [apply Hnonneg | apply Hbound] |].
  intros HK. eapply Rle_lt_trans; [apply Hbound |].
  unfold M. apply Rmax_lub_lt; lra.
Qed.

(** X6. With positive [T], [vol], [p0], [N >= 1] and [0 <= q <= 1], at every
    period the premium does not increase with the price: [V_i(b) <= V_i(a)]
    for price states [a <= b]. *)
Theorem premium_decreases_with_price (junk : nat -> nat -> R) (p : params) :
  0 < T p -> 0 < vol p -> 0 < p0 p -> (1 <= N p)%Z ->
  0 <= q p (T p / IZR (N p)) <= 1 ->
  exists (vs : list (list R)) (sigmas : list (list Z)),
    notebook junk p = Ok (vs, sigmas)
    /\ forall i a b : nat,
         (Z.of_nat i <= N p)%Z -> (a <= b)%nat -> (Z.of_nat b <= 2 * N p)%Z ->
         exists (V : list R) (ya yb : R),
           vs !! i = Some V /\ V !! a = Some ya /\ V !! b = Some yb /\ yb <= ya.
Proof.
  intros HT Hvol Hp0 HN Hq.
  destruct (notebook_total junk p HN Hq) as (vs & sigmas & Hrun).
  destruct (notebook_run _ _ _ _ HN Hrun) as (mdp & _ & Hb & _ & _ & _ & Hlast & Hall).
  set (t := T p / IZR (N p)) in *.
  assert (Ht : 0 < t) by now apply tau_positive.
  assert (Hu : 1 < u p t) by now apply u_gt_1.
  pose proof (ps_length p (u p t)) as Hlen.
  exists vs, sigmas. split; [exact Hrun |].
  assert (Hinv : forall i : nat, (i <= Z.to_nat (N p))%nat ->
            exists V : list R,
              vs !! i = Some V
              /\ (length V = (length (ps p (u p t)) + 1)%nat
                  /\ V !! length (ps p (u p t)) = Some 0
                  /\ forall a b : nat, (a <= b)%nat -> (b < length (ps p (u p t)))%nat ->
                       default 0 (V !! b) <= default 0 (V !! a))).
  { apply (backed_up_induction mdp _ vs sigmas _ Hall).
    - eexists. split; [exact Hlast |].
      rewrite (built_num_states _ _ _ _ Hb).
      split; [apply length_replicate |].
      split; [apply lookup_replicate; split; [reflexivity | lia] |].
      intros a b _ _. rewrite !zeros_lookup. lra.
    - intros V V' sigma (_ & Hzero & Hanti) Hback.
      destruct (backup_spec _ _ _ _ Hback) as (HlV & _ & _).
      rewrite (built_num_states _ _ _ _ Hb) in HlV.
      split; [exact HlV |].
      split; [apply (backup_absorbing_zero _ _ _ _ Hb V' V sigma);
              [now rewrite Hzero | exact Hback] |].
      assert (Hk : (2 <= length (ps p (u p t)))%nat) by lia.
      apply (backup_antitone _ _ _ _ Hb Hq Hk V' V sigma); try assumption.
      + intros a b x y. now apply ps_ascending.
      + now rewrite Hzero. }
  intros i a b Hi Hab Hb2.
  destruct (Hinv i) as (V & HV & HlV & _ & Hanti); [lia |].
  exists V, (default 0 (V !! a)), (default 0 (V !! b)).
  split; [exact HV |]. split; [apply lookup_default_Some; lia |].
  split; [apply lookup_default_Some; lia |]. apply Hanti; lia.
Qed.

(** * The post-processing cell *)

Lemma getitem_last {A : Type} (a : list A) :
  a <> [] -> getitem a (- 1) = match last a with Some x => Ok x | None => Raise IndexError end.
Proof.
  intros Hne. unfold getitem, py_index.
  assert (Hlen : (0 < length a)%nat) by (destruct a; [congruence | simpl; lia]).
  replace ((0 <=? -1) && (-1 <? Z.of_nat (length a)))%Z with false by reflexivity.
  replace ((- Z.of_nat (length a) <=? -1) && (-1 <? 0))%Z with true.
  2:{ symmetry. apply andb_true_iff. split; [apply Z.leb_le; lia | reflexivity]. }
  cbn [mbind result_bind]. rewrite last_lookup.
  replace (Z.to_nat (-1 + Z.of_nat (length a))) with (Nat.pred (length a)) by lia.
  reflexivity.
Qed.

(** Indices between [-1] and [len(a) - 1] are all in range: nothing is
    raised, and [-1] reads the last entry. *)
Lemma take_indices_spec {A : Type} (a : list A) (idx : list Z) :
  (forall c : Z, c ∈ idx -> (-1 <= c < Z.of_nat (length a))%Z) -> a <> [] ->
  exists out : list A,
    take_indices a idx = Ok out /\ length out = length idx
    /\ forall (j : nat) (c : Z),
         idx !! j = Some c ->
         out !! j = a !! (if decide (c = -1)%Z then Nat.pred (length a) else Z.to_nat c).
Proof.
  intros Hidx Hne. induction idx as [| c idx IH].
  - exists []. repeat split. intros j c Hj. inversion Hj.
  - destruct IH as (out & Hrun & Hlen & Hout).
    { intros c' Hc'. apply Hidx. now right. }
    assert (Hc : (-1 <= c < Z.of_nat (length a))%Z) by (apply Hidx; left).
    assert (Hget : exists x, getitem a c = Ok x
                             /\ a !! (if decide (c = -1)%Z then Nat.pred (length a)
                                      else Z.to_nat c) = Some x).
    { destruct (decide (c = -1)%Z) as [-> | Hc1].
      - rewrite (getitem_last a Hne), last_lookup.
        destruct (lookup_lt_is_Some_2 a (Nat.pred (length a))) as [x Hx].
        { destruct a; [congruence | simpl; lia]. }
        rewrite Hx. now exists x.
      - destruct (lookup_lt_is_Some_2 a (Z.to_nat c)) as [x Hx]; [lia |].
        exists x. split; [| exact Hx].
        replace c with (Z.of_nat (Z.to_nat c)) by lia. now apply getitem_nat. }
    destruct Hget as (x & Hget & Hx).
    exists (x :: out). cbn [take_indices]. rewrite Hget. cbn [mbind result_bind].
    rewrite Hrun. cbn [mbind result_bind].
    split; [reflexivity |]. split; [simpl; now rewrite Hlen |].
    intros [| j] c' Hj; simpl in Hj.
    + injection Hj as <-. simpl. now rewrite Hx.
    + simpl. now apply Hout.
Qed.

Lemma rev_lookup {A : Type} (l : list A) (i : nat) :
  (i < length l)%nat -> rev l !! i = l !! (length l - S i)%nat.
Proof.
  intros Hi. rewrite rev_alt. change (rev_append l []) with (reverse l).
  now apply reverse_lookup.
Qed.

(** The sum of a row of zeros and ones that ends with a zero. *)
Lemma sum_zero_one (l : list Z) :
  (forall (j : nat) (x : Z), l !! j = Some x -> x = 0%Z \/ x = 1%Z) ->
  (0 <= fold_right Z.add 0%Z l <= Z.of_nat (length l))%Z
  /\ (last l = Some 0%Z -> (fold_right Z.add 0%Z l <= Z.of_nat (length l) - 1)%Z)
  /\ (fold_right Z.add 0%Z l = 0%Z -> forall (j : nat) (x : Z), l !! j = Some x -> x = 0%Z).
Proof.
  induction l as [| y l IH]; intros H01.
  - simpl. split; [lia |]. split; [discriminate |]. intros _ j x Hj. inversion Hj.
  - destruct IH as (Hb & Hlast & Hz); [intros j x Hj; apply (H01 (S j)); exact Hj |].
    assert (Hy : y = 0%Z \/ y = 1%Z) by (apply (H01 0%nat); reflexivity).
    cbn [fold_right length]. split; [lia |]. split.
    + intros Hl. destruct l as [| z l'].
      * simpl in Hl. injection Hl as ->. simpl. lia.
      * specialize (Hlast Hl). cbn [length] in *. lia.
    + intros Hsum [| j] x Hj; simpl in Hj.
      * injection Hj as <-. lia.
      * apply (Hz ltac:(lia) j x Hj).
Qed.

Section Boundary.
Variables (junk : nat -> nat -> R) (p : params) (t : R) (mdp : DiscreteDP).
Hypothesis Hbuilt : built junk p t mdp.

Local Abbreviation k := (length (ps p (u p t))).

Hypothesis Hk : (2 <= k)%nat.

(** A policy row holds 0 or 1 at the price states and 0 at the last state. *)
Lemma policy_row_zero_one (V' V : list R) (sigma : list Z) :
  default 0 (V' !! k) = 0 -> backup mdp V' = Ok (V, sigma) ->
  length sigma = (k + 1)%nat
  /\ (forall (j : nat) (a : Z), sigma !! j = Some a -> a = 0%Z \/ a = 1%Z)
  /\ last sigma = Some 0%Z.
Proof.
  intros Hzero Hback.
  destruct (backup_spec _ _ _ _ Hback) as (_ & Hls & _).
  rewrite (built_num_states _ _ _ _ Hbuilt) in Hls.
  destruct (backup_absorbing_zero _ _ _ _ Hbuilt V' V sigma Hzero Hback) as [_ Hs0].
  split; [exact Hls |]. split.
  - intros j a Hj. pose proof (lookup_lt_Some _ _ _ Hj) as Hlt.
    destruct (decide (j = k)) as [-> | Hne]; [rewrite Hs0 in Hj; left; congruence |].
    destruct (lookup_lt_is_Some_2 (ps p (u p t)) j) as [x Hx]; [lia |].
    destruct (backup_closed_form _ _ _ _ Hbuilt V' V sigma j x Hk Hzero Hback Hx) as [_ Hsig].
    rewrite Hsig in Hj. injection Hj as <-. case_decide; [now right | now left].
  - rewrite last_lookup, Hls. rewrite <- Hs0. f_equal. lia.
Qed.

(** The cell on the policy rows of a run: no index is out of range; entry
    [j] belongs to the period [h-1-j] and is the price of index [c - 1], for
    [c] the sum of that policy row, the index [-1] of an all-zero row reading
    the last price. *)
Lemma max_exercise_price_spec (h : nat) (vs : list (list R)) (sigmas : list (list Z)) :
  0 <= q p t <= 1 ->
  backed_up mdp h vs sigmas -> vs !! h = Some (replicate (num_states mdp) 0) ->
  length sigmas = h ->
  exists boundary : list R,
    Post.max_exercise_price (ps p (u p t)) sigmas = Ok boundary
    /\ length boundary = h
    /\ forall j : nat, (j < h)%nat ->
         exists sigma : list Z,
           sigmas !! (h - S j)%nat = Some sigma
           /\ (0 <= fold_right Z.add 0%Z sigma <= Z.of_nat k)%Z
           /\ boundary !! j
              = ps p (u p t) !! (if decide (fold_right Z.add 0%Z sigma = 0)%Z
                                 then Nat.pred k
                                 else Z.to_nat (fold_right Z.add 0%Z sigma - 1)).
Proof.
  intros Hq Hall Hlast Hls.
  assert (Hrow : forall (i : nat) (sigma : list Z),
            sigmas !! i = Some sigma ->
            length sigma = (k + 1)%nat
            /\ (forall (j : nat) (a : Z), sigma !! j = Some a -> a = 0%Z \/ a = 1%Z)
            /\ last sigma = Some 0%Z).
  { intros i sigma Hsig. pose proof (lookup_lt_Some _ _ _ Hsig) as Hi. rewrite Hls in Hi.
    destruct (Hall i Hi) as (V & V' & sigma' & _ & HV' & Hsig' & Hback).
    rewrite Hsig in Hsig'. injection Hsig' as <-.
    destruct (value_rows_invariant _ _ _ _ Hbuilt Hq _ _ _ Hall Hlast (S i))
      as (W & HW & _ & _ & Hzero); [lia |].
    rewrite HV' in HW. injection HW as <-.
    apply (policy_row_zero_one V' V sigma); [now rewrite Hzero | exact Hback]. }
  assert (Hsum : forall (i : nat) (sigma : list Z),
            sigmas !! i = Some sigma -> (0 <= fold_right Z.add 0%Z sigma <= Z.of_nat k)%Z).
  { intros i sigma Hsig. destruct (Hrow i sigma Hsig) as (Hl & H01 & Hl0).
    destruct (sum_zero_one sigma H01) as (Hb & Hb' & _). specialize (Hb' Hl0). lia. }
  unfold Post.max_exercise_price, sum_rows.
  destruct (take_indices_spec (ps p (u p t))
              (map (fun c => (c - 1)%Z) (map (fold_right Z.add 0%Z) (rev sigmas))))
    as (out & Hrun & Hlen & Hout).
  { intros c Hc. apply list_elem_of_fmap in Hc as (c' & -> & Hc').
    apply list_elem_of_fmap in Hc' as (sigma & -> & Hin).
    apply list_elem_of_In, in_rev, list_elem_of_In, list_elem_of_lookup in Hin as [i Hi].
    pose proof (Hsum i sigma Hi). lia. }
  { intros Hnil. rewrite Hnil in Hk. simpl in Hk. lia. }
  exists out. split; [exact Hrun |].
  rewrite !length_map, length_rev in Hlen. split; [congruence |].
  intros j Hj.
  destruct (lookup_lt_is_Some_2 sigmas (h - S j)) as [sigma Hsig]; [lia |].
  exists sigma. split; [exact Hsig |]. split; [now apply (Hsum (h - S j)%nat) |].
  rewrite (Hout j (fold_right Z.add 0 sigma - 1)%Z).
  - pose proof (Hsum _ _ Hsig). repeat case_decide; try reflexivity; lia.
  - rewrite !list_lookup_fmap, rev_lookup by lia. rewrite Hls, Hsig. reflexivity.
Qed.
End Boundary.

Lemma figure_data_unfold (junk : nat -> nat -> R) (p : params)
    (vs : list (list R)) (sigmas : list (list Z)) (V0 boundary : list R) :
  N p <> 0%Z -> notebook junk p = Ok (vs, sigmas) -> vs !! 0%nat = Some V0 ->
  Post.max_exercise_price (ps p (u p (T p / IZR (N p)))) sigmas = Ok boundary ->
  figure_data junk p = Ok (ps p (u p (T p / IZR (N p))), drop_last V0, boundary).
Proof.
  intros HN Hrun HV0 Hbound. unfold figure_data.
  rewrite (tau_ok p HN). cbn [mbind result_bind]. rewrite Hrun. cbn [mbind result_bind].
  unfold Post.v. change 0%Z with (Z.of_nat 0).
  rewrite (getitem_nat vs 0 V0 HV0). cbn [mbind result_bind].
  rewrite Hbound. reflexivity.
Qed.

(** Everything the post-processing of a returning run produces. *)
Lemma figure_data_spec (junk : nat -> nat -> R) (p : params)
    (vs : list (list R)) (sigmas : list (list Z)) :
  (1 <= N p)%Z -> notebook junk p = Ok (vs, sigmas) ->
  exists (V0 boundary : list R),
    figure_data junk p = Ok (ps p (u p (T p / IZR (N p))), drop_last V0, boundary)
    /\ vs !! 0%nat = Some V0 /\ length V0 = Z.to_nat (2 * N p + 2)
    /\ length boundary = Z.to_nat (N p)
    /\ forall j : nat, (Z.of_nat j < N p)%Z ->
         exists sigma : list Z,
           sigmas !! (Z.to_nat (N p) - S j)%nat = Some sigma
           /\ (forall (s : nat) (a : Z), sigma !! s = Some a -> a = 0%Z \/ a = 1%Z)
           /\ (0 <= fold_right Z.add 0%Z sigma <= 2 * N p + 1)%Z
           /\ boundary !! j
              = ps p (u p (T p / IZR (N p)))
                  !! (if decide (fold_right Z.add 0%Z sigma = 0)%Z
                      then Z.to_nat (2 * N p)
                      else Z.to_nat (fold_right Z.add 0%Z sigma - 1)).
Proof.
  intros HN Hrun.
  destruct (notebook_run _ _ _ _ HN Hrun) as (mdp & _ & Hb & Hq & _ & Hls & Hlast & Hall).
  pose proof (ps_length p (u p (T p / IZR (N p)))) as Hlen.
  assert (Hk : (2 <= length (ps p (u p (T p / IZR (N p)))))%nat) by lia.
  destruct (value_rows_invariant _ _ _ _ Hb Hq _ _ _ Hall Hlast 0)
    as (V0 & HV0 & HlV0 & _); [lia |].
  destruct (max_exercise_price_spec _ _ _ _ Hb Hk _ vs sigmas Hq Hall Hlast Hls)
    as (boundary & Hbound & Hlb & Hentries).
  exists V0, boundary.
  split; [apply (figure_data_unfold _ _ vs sigmas); try assumption; lia |].
  split; [exact HV0 |]. split; [lia |]. split; [exact Hlb |].
  intros j Hj. destruct (Hentries j) as (sigma & Hsig & Hsum & Hentry); [lia |].
  exists sigma. split; [exact Hsig |]. split.
  - destruct (Hall (Z.to_nat (N p) - S j)%nat) as (V & V' & sigma' & _ & HV' & Hsig' & Hback);
      [lia |].
    rewrite Hsig in Hsig'. injection Hsig' as <-.
    destruct (value_rows_invariant _ _ _ _ Hb Hq _ _ _ Hall Hlast
                (S (Z.to_nat (N p) - S j))) as (W & HW & _ & _ & Hzero); [lia |].
    rewrite HV' in HW. injection HW as <-.
    apply (policy_row_zero_one _ _ _ _ Hb Hk V' V sigma); [now rewrite Hzero | exact Hback].
  - split; [lia |]. rewrite Hentry.
    replace (Nat.pred (length (ps p (u p (T p / IZR (N p)))))) with (Z.to_nat (2 * N p))
      by lia.
    reflexivity.
Qed.

(** X7. With [N >= 1] and [0 <= q <= 1] the post-processing raises no
    [IndexError]: [v[:-1]] has one premium per lattice price, in the same
    order as [vs[0]], and [max_exercise_price] has [N] entries, each of them
    a price of the lattice. *)
Theorem figure_data_defined (junk : nat -> nat -> R) (p : params) :
  (1 <= N p)%Z -> 0 <= q p (T p / IZR (N p)) <= 1 ->
  exists (vs : list (list R)) (sigmas : list (list Z)) (V0 premium boundary : list R),
    notebook junk p = Ok (vs, sigmas)
    /\ figure_data junk p = Ok (ps p (u p (T p / IZR (N p))), premium, boundary)
    /\ vs !! 0%nat = Some V0
    /\ length premium = length (ps p (u p (T p / IZR (N p))))
    /\ (forall s : nat, (s < length premium)%nat -> premium !! s = V0 !! s)
    /\ length boundary = Z.to_nat (N p)
    /\ forall x : R, x ∈ boundary -> x ∈ ps p (u p (T p / IZR (N p))).
Proof.
  intros HN Hq. destruct (notebook_total junk p HN Hq) as (vs & sigmas & Hrun).
  destruct (figure_data_spec _ _ _ _ HN Hrun) as (V0 & boundary & Hfig & HV0 & HlV0 & Hlb & Hent).
  pose proof (ps_length p (u p (T p / IZR (N p)))) as Hlen.
  exists vs, sigmas, V0, (drop_last V0), boundary.
  repeat (split; [assumption |]).
  assert (Hlp : length (drop_last V0) = length (ps p (u p (T p / IZR (N p))))).
  { unfold drop_last. rewrite removelast_length. lia. }
  split; [exact Hlp |]. split.
  - intros s Hs. unfold drop_last in *. apply removelast_lookup.
    rewrite removelast_length in Hs. exact Hs.
  - split; [exact Hlb |]. intros x Hx.
    apply list_elem_of_lookup in Hx as [j Hj].
    pose proof (lookup_lt_Some _ _ _ Hj) as Hjlt.
    destruct (Hent j) as (sigma & _ & _ & _ & Hentry); [lia |].
    rewrite Hj in Hentry. symmetry in Hentry.
    eapply list_elem_of_lookup_2. exact Hentry.
Qed.

(** X8. With [N >= 1] and [0 <= q <= 1], entry [j] of [max_exercise_price]
    belongs to the period [N-1-j]: the policy row of that period holds zeros
    and ones, their sum [c] is the number of states at which the option is
    exercised, and the entry is the price [ps[c-1]]; when the option is
    exercised nowhere ([c = 0]) the index [-1] wraps around and the entry is
    the highest price [ps[2N]]. *)
Theorem max_exercise_price_entries (junk : nat -> nat -> R) (p : params) :
  (1 <= N p)%Z -> 0 <= q p (T p / IZR (N p)) <= 1 ->
  exists (vs : list (list R)) (sigmas : list (list Z)) (premium boundary : list R),
    notebook junk p = Ok (vs, sigmas)
    /\ figure_data junk p = Ok (ps p (u p (T p / IZR (N p))), premium, boundary)
    /\ forall j : nat, (Z.of_nat j < N p)%Z ->
         exists sigma : list Z,
           sigmas !! (Z.to_nat (N p) - S j)%nat = Some sigma
           /\ (forall (s : nat) (a : Z), sigma !! s = Some a -> a = 0%Z \/ a = 1%Z)
           /\ (0 <= fold_right Z.add 0%Z sigma <= 2 * N p + 1)%Z
           /\ boundary !! j
              = ps p (u p (T p / IZR (N p)))
                  !! (if decide (fold_right Z.add 0%Z sigma = 0)%Z
                      then Z.to_nat (2 * N p)
                      else Z.to_nat (fold_right Z.add 0%Z sigma - 1)).
Proof.
  intros HN Hq. destruct (notebook_total junk p HN Hq) as (vs & sigmas & Hrun).
  destruct (figure_data_spec _ _ _ _ HN Hrun) as (V0 & boundary & Hfig & _ & _ & _ & Hent).
  exists vs, sigmas, (drop_last V0), boundary.
  split; [exact Hrun |]. split; [exact Hfig | exact Hent].
Qed.

(** ** Policies with a threshold *)

(** Over prices in ascending order, the number of prices below [K] is the
    index of the first price that is not. *)
Lemma threshold_sum (K : R) (xs : list R) :
  (forall (i j : nat) (x y : R),
     (i <= j)%nat -> xs !! i = Some x -> xs !! j = Some y -> x <= y) ->
  (0 <= fold_right Z.add 0%Z (map (fun x : R => if decide (x < K)%R then 1 else 0) xs)
   <= Z.of_nat (length xs))%Z
  /\ forall (j : nat) (x : R),
       xs !! j = Some x ->
       (x < K
        <-> (Z.of_nat j
             < fold_right Z.add 0%Z
                 (map (fun x : R => if decide (x < K)%R then 1 else 0) xs))%Z).
Proof.
  induction xs as [| a xs IH]; intros Hasc.
  - simpl. split; [lia |]. intros j x Hj. inversion Hj.
  - destruct IH as [Hb Hiff].
    { intros i j x y Hij Hx Hy. apply (Hasc (S i) (S j) x y); [lia | exact Hx | exact Hy]. }
    cbn [map fold_right length]. destruct (decide (a < K)) as [Ha | Ha].
    + split; [lia |]. intros [| j] x Hj; simpl in Hj.
      * injection Hj as <-. split; [lia | intros _; exact Ha].
      * rewrite (Hiff j x Hj). lia.
    + assert (Hrest : forall (j : nat) (x : R), xs !! j = Some x -> ~ x < K).
      { intros j x Hj Hx.
        pose proof (Hasc 0%nat (S j) a x ltac:(lia) eq_refl Hj). lra. }
      set (c := fold_right Z.add 0%Z
                  (map (fun x : R => if decide (x < K)%R then 1%Z else 0%Z) xs)) in *.
      assert (Hc : c = 0%Z).
      { destruct (decide (c = 0%Z)) as [Hc | Hc]; [exact Hc |]. exfalso.
        destruct (lookup_lt_is_Some_2 xs 0) as [b Hb0]; [lia |].
        apply (Hrest 0%nat b Hb0). apply (Hiff 0%nat b Hb0). lia. }
      rewrite Hc. split; [lia |]. intros [| j] x Hj; simpl in Hj.
      * injection Hj as <-. split; [intros; contradiction | lia].
      * split; [intros Hx; exfalso; now apply (Hrest j x Hj) | lia].
Qed.

Lemma sum_replicate_zero (len : nat) : fold_right Z.add 0%Z (replicate len 0%Z) = 0%Z.
Proof. induction len as [| len IH]; simpl; [reflexivity | exact IH]. Qed.

Section Expiry.
Variables (junk : nat -> nat -> R) (p : params) (t : R) (mdp : DiscreteDP).
Hypothesis Hbuilt : built junk p t mdp.

Local Abbreviation k := (length (ps p (u p t))).

Hypothesis Hk : (2 <= k)%nat.

(** The backup of the zero vector: the payoff at expiry, exercised at the
    prices below the strike. *)
Lemma backup_from_zeros (V : list R) (sigma : list Z) :
  backup mdp (replicate (k + 1) 0) = Ok (V, sigma) ->
  V = map (fun x => Rmax 0 (strike p - x)) (ps p (u p t)) ++ [0]
  /\ sigma = map (fun x : R => if decide (x < strike p) then 1%Z else 0%Z) (ps p (u p t))
             ++ [0%Z].
Proof.
  intros Hback.
  destruct (backup_spec _ _ _ _ Hback) as (HlV & Hls & _).
  rewrite (built_num_states _ _ _ _ Hbuilt) in HlV, Hls.
  assert (Hzero : default 0 (replicate (k + 1) 0 !! k) = 0) by apply zeros_lookup.
  destruct (backup_absorbing_zero _ _ _ _ Hbuilt _ V sigma Hzero Hback) as [HVk Hsk].
  split; apply list_eq; intros i.
  - destruct (lt_eq_lt_dec i k) as [[Hlt | ->] | Hgt].
    + destruct (lookup_lt_is_Some_2 (ps p (u p t)) i Hlt) as [x Hx].
      destruct (backup_closed_form _ _ _ _ Hbuilt _ V sigma i x Hk Hzero Hback Hx) as [-> _].
      rewrite lookup_app_l by (rewrite length_map; exact Hlt).
      rewrite list_lookup_fmap, Hx, !zeros_lookup. simpl. do 2 f_equal. lra.
    + rewrite HVk. symmetry. apply list_lookup_middle. now rewrite length_map.
    + rewrite !lookup_ge_None_2; [reflexivity | | lia].
      rewrite length_app, length_map. simpl. lia.
  - destruct (lt_eq_lt_dec i k) as [[Hlt | ->] | Hgt].
    + destruct (lookup_lt_is_Some_2 (ps p (u p t)) i Hlt) as [x Hx].
      destruct (backup_closed_form _ _ _ _ Hbuilt _ V sigma i x Hk Hzero Hback Hx) as [_ ->].
      rewrite lookup_app_l by (rewrite length_map; exact Hlt).
      rewrite list_lookup_fmap, Hx, !zeros_lookup. simpl. f_equal.
      repeat case_decide; try reflexivity; exfalso; lra.
    + rewrite Hsk. symmetry. apply list_lookup_middle. now rewrite length_map.
    + rewrite !lookup_ge_None_2; [reflexivity | | lia].
      rewrite length_app, length_map. simpl. lia.
Qed.

(** With no price below the strike, the zero vector backs up to itself and
    the policy is action 0 everywhere. *)
Lemma backup_out_of_the_money (V : list R) (sigma : list Z) :
  (forall (s : nat) (x : R), ps p (u p t) !! s = Some x -> strike p <= x) ->
  backup mdp (replicate (k + 1) 0) = Ok (V, sigma) ->
  V = replicate (k + 1) 0 /\ sigma = replicate (k + 1) 0%Z.
Proof.
  intros Hout Hback. destruct (backup_from_zeros V sigma Hback) as [-> ->].
  split; apply list_eq; intros i.
  - destruct (lt_eq_lt_dec i k) as [[Hlt | ->] | Hgt].
    + destruct (lookup_lt_is_Some_2 (ps p (u p t)) i Hlt) as [x Hx].
      rewrite lookup_app_l by (rewrite length_map; exact Hlt).
      rewrite list_lookup_fmap, Hx. simpl.
      rewrite Rmax_left by (pose proof (Hout i x Hx); lra).
      symmetry. apply lookup_replicate. split; [reflexivity | lia].
    + rewrite list_lookup_middle by now rewrite length_map.
      symmetry. apply lookup_replicate. split; [reflexivity | lia].
    + rewrite !lookup_ge_None_2; [reflexivity | rewrite length_replicate; lia |].
      rewrite length_app, length_map. simpl. lia.
  - destruct (lt_eq_lt_dec i k) as [[Hlt | ->] | Hgt].
    + destruct (lookup_lt_is_Some_2 (ps p (u p t)) i Hlt) as [x Hx].
      rewrite lookup_app_l by (rewrite length_map; exact Hlt).
      rewrite list_lookup_fmap, Hx. simpl.
      rewrite decide_False by (pose proof (Hout i x Hx); lra).
      symmetry. apply lookup_replicate. split; [reflexivity | lia].
    + rewrite list_lookup_middle by now rewrite length_map.
      symmetry. apply lookup_replicate. split; [reflexivity | lia].
    + rewrite !lookup_ge_None_2; [reflexivity | rewrite length_replicate; lia |].
      rewrite length_app, length_map. simpl. lia.
Qed.
End Expiry.

Lemma removelast_replicate {A : Type} (len : nat) (x : A) :
  removelast (replicate (S len) x) = replicate len x.
Proof.
  induction len as [| len IH]; [reflexivity |].
  change (replicate (S (S len)) x) with (x :: replicate (S len) x).
  cbn [removelast]. rewrite IH. reflexivity.
Qed.

Lemma sum_app_zero (l : list Z) :
  fold_right Z.add 0%Z (l ++ [0%Z]) = fold_right Z.add 0%Z l.
Proof. induction l as [| x l IH]; simpl; [reflexivity | now rewrite IH]. Qed.

(** X9. With [N >= 1] and [0 <= q <= 1], when no lattice price is below the
    strike the option is never exercised and is worth nothing: every policy
    row is zero, the premiums are zero, and every entry of
    [max_exercise_price] is the highest lattice price [ps[2N]], read through
    the index [-1]. *)
Theorem never_exercised_reads_top_price (junk : nat -> nat -> R) (p : params) :
  (1 <= N p)%Z -> 0 <= q p (T p / IZR (N p)) <= 1 ->
  (forall (s : nat) (x : R),
     ps p (u p (T p / IZR (N p))) !! s = Some x -> strike p <= x) ->
  exists (vs : list (list R)) (sigmas : list (list Z)) (boundary : list R) (top : R),
    notebook junk p = Ok (vs, sigmas)
    /\ (forall i : nat, (Z.of_nat i < N p)%Z ->
          sigmas !! i = Some (replicate (Z.to_nat (2 * N p + 2)) 0%Z))
    /\ figure_data junk p
       = Ok (ps p (u p (T p / IZR (N p))), replicate (Z.to_nat (2 * N p + 1)) 0, boundary)
    /\ ps p (u p (T p / IZR (N p))) !! Z.to_nat (2 * N p) = Some top
    /\ boundary = replicate (Z.to_nat (N p)) top.
Proof.
  intros HN Hq Hout. destruct (notebook_total junk p HN Hq) as (vs & sigmas & Hrun).
  destruct (notebook_run _ _ _ _ HN Hrun) as (mdp & _ & Hb & _ & _ & Hls & Hlast & Hall).
  destruct (figure_data_spec _ _ _ _ HN Hrun) as (V0 & boundary & Hfig & HV0 & _ & Hlb & Hent).
  set (t := T p / IZR (N p)) in *.
  pose proof (ps_length p (u p t)) as Hlen.
  assert (Hk : (2 <= length (ps p (u p t)))%nat) by lia.
  rewrite (built_num_states _ _ _ _ Hb) in Hlast.
  assert (Hrows : forall i : nat, (i <= Z.to_nat (N p))%nat ->
            exists V : list R,
              vs !! i = Some V /\ V = replicate (length (ps p (u p t)) + 1) 0).
  { apply (backed_up_induction mdp _ vs sigmas _ Hall).
    - eexists. split; [exact Hlast | reflexivity].
    - intros V V' sigma -> Hback.
      now destruct (backup_out_of_the_money _ _ _ _ Hb Hk V sigma Hout Hback). }
  assert (Hpol : forall i : nat, (i < Z.to_nat (N p))%nat ->
            sigmas !! i = Some (replicate (length (ps p (u p t)) + 1) 0%Z)).
  { intros i Hi. destruct (Hall i Hi) as (V & V' & sigma & _ & HV' & Hsig & Hback).
    destruct (Hrows (S i)) as (W & HW & ->); [lia |].
    rewrite HV' in HW. injection HW as ->.
    destruct (backup_out_of_the_money _ _ _ _ Hb Hk V sigma Hout Hback) as [_ ->].
    exact Hsig. }
  destruct (lookup_lt_is_Some_2 (ps p (u p t)) (Z.to_nat (2 * N p))) as [top Htop]; [lia |].
  exists vs, sigmas, boundary, top.
  split; [exact Hrun |]. split.
  { intros i Hi. rewrite Hpol by lia. do 2 f_equal. lia. }
  split.
  { rewrite Hfig. destruct (Hrows 0%nat) as (W & HW & ->); [lia |].
    rewrite HV0 in HW. injection HW as ->.
    unfold drop_last. rewrite Nat.add_1_r, removelast_replicate. do 4 f_equal. lia. }
  split; [exact Htop |].
  apply list_eq. intros j. destruct (le_lt_dec (Z.to_nat (N p)) j) as [Hge | Hlt].
  - rewrite !lookup_ge_None_2; [reflexivity | rewrite length_replicate; lia | lia].
  - destruct (Hent j) as (sigma & Hsig & _ & _ & ->); [lia |].
    rewrite Hpol in Hsig by lia. injection Hsig as <-.
    rewrite sum_replicate_zero, decide_True by reflexivity. rewrite Htop.
    symmetry. apply lookup_replicate. split; [reflexivity | lia].
Qed.

(** X10. With positive [T], [vol], [p0], [N >= 1] and [0 <= q <= 1], one
    period before expiry the premium of a price state is the payoff
    [max(0, strike - ps[s])] and the option is exercised exactly at the
    prices below the strike; if the lowest price is below the strike, the
    first entry of [max_exercise_price] is the highest lattice price below
    the strike. *)
Theorem exercise_at_expiry (junk : nat -> nat -> R) (p : params) :
  0 < T p -> 0 < vol p -> 0 < p0 p -> (1 <= N p)%Z ->
  0 <= q p (T p / IZR (N p)) <= 1 ->
  exists (vs : list (list R)) (sigmas : list (list Z)) (premium boundary V : list R)
         (sigma : list Z),
    notebook junk p = Ok (vs, sigmas)
    /\ figure_data junk p = Ok (ps p (u p (T p / IZR (N p))), premium, boundary)
    /\ vs !! (Z.to_nat (N p) - 1)%nat = Some V
    /\ sigmas !! (Z.to_nat (N p) - 1)%nat = Some sigma
    /\ (forall (s : nat) (x : R),
          ps p (u p (T p / IZR (N p))) !! s = Some x ->
          V !! s = Some (Rmax 0 (strike p - x))
          /\ sigma !! s = Some (if decide (x < strike p) then 1%Z else 0%Z))
    /\ forall lowest : R,
         ps p (u p (T p / IZR (N p))) !! 0%nat = Some lowest -> lowest < strike p ->
         exists x : R,
           boundary !! 0%nat = Some x
           /\ x ∈ ps p (u p (T p / IZR (N p))) /\ x < strike p
           /\ forall y : R, y ∈ ps p (u p (T p / IZR (N p))) -> y < strike p -> y <= x.
Proof.
  intros HT Hvol Hp0 HN Hq.
  destruct (notebook_total junk p HN Hq) as (vs & sigmas & Hrun).
  destruct (notebook_run _ _ _ _ HN Hrun) as (mdp & _ & Hb & _ & _ & Hls & Hlast & Hall).
  destruct (figure_data_spec _ _ _ _ HN Hrun) as (V0 & boundary & Hfig & _ & _ & _ & Hent).
  set (t := T p / IZR (N p)) in *.
  assert (Ht : 0 < t) by now apply tau_positive.
  assert (Hu : 1 < u p t) by now apply u_gt_1.
  pose proof (ps_length p (u p t)) as Hlen.
  assert (Hk : (2 <= length (ps p (u p t)))%nat) by lia.
  rewrite (built_num_states _ _ _ _ Hb) in Hlast.
  destruct (Hall (Z.to_nat (N p) - 1)%nat) as (V & V' & sigma & HV & HV' & Hsig & Hback);
    [lia |].
  replace (S (Z.to_nat (N p) - 1)) with (Z.to_nat (N p)) in HV' by lia.
  rewrite Hlast in HV'. injection HV' as <-.
  destruct (backup_from_zeros _ _ _ _ Hb Hk V sigma Hback) as [HVeq Hseq].
  exists vs, sigmas, (drop_last V0), boundary, V, sigma.
  repeat (split; [assumption |]). split.
  - intros s x Hx. pose proof (lookup_lt_Some _ _ _ Hx) as Hs. rewrite HVeq, Hseq.
    rewrite !lookup_app_l by (rewrite length_map; exact Hs).
    rewrite !list_lookup_fmap, Hx. now split.
  - intros lowest Hlow Hbelow.
    destruct (Hent 0%nat) as (sigma' & Hsig' & _ & _ & Hentry); [lia |].
    rewrite Hsig in Hsig'. injection Hsig' as <-.
    rewrite Hseq, sum_app_zero in Hentry.
    destruct (threshold_sum (strike p) (ps p (u p t))) as [Hc Hiff].
    { intros i j x y. now apply ps_ascending. }
    set (c := fold_right Z.add 0%Z
                (map (fun x : R => if decide (x < strike p) then 1%Z else 0%Z)
                     (ps p (u p t)))) in *.
    assert (Hpos : (0 < c)%Z) by (apply (Hiff 0%nat lowest Hlow); exact Hbelow).
    rewrite decide_False in Hentry by lia.
    destruct (lookup_lt_is_Some_2 (ps p (u p t)) (Z.to_nat (c - 1))) as [x Hx]; [lia |].
    exists x. split; [now rewrite Hentry |].
    split; [eapply list_elem_of_lookup_2; exact Hx |].
    split; [apply (Hiff _ x Hx); lia |].
    intros y Hy Hylt. apply list_elem_of_lookup in Hy as [j Hj].
    apply (ps_ascending p (u p t) y x j (Z.to_nat (c - 1)) Hu Hp0); [| exact Hj | exact Hx].
    pose proof (proj1 (Hiff j y Hj) Hylt). lia.
Qed.

(** * More on the cells that build the MDP *)

(** X11. Nothing of what [np.empty] left in memory reaches the results: the
    MDP, the output of the solver and the plotted data are the same whatever
    the initial content of [R]. *)
Theorem uninitialised_memory_unused (junk1 junk2 : nat -> nat -> R) (p : params) :
  build_option_mdp junk1 p = build_option_mdp junk2 p
  /\ notebook junk1 p = notebook junk2 p
  /\ figure_data junk1 p = figure_data junk2 p.
Proof.
  assert (Hbuild : build_option_mdp junk1 p = build_option_mdp junk2 p).
  { unfold build_option_mdp. destruct (tau p) as [t | e]; [| reflexivity].
    cbn [mbind result_bind]. now rewrite (R_arr_eq junk1), (R_arr_eq junk2). }
  assert (Hrun : notebook junk1 p = notebook junk2 p).
  { unfold notebook. now rewrite Hbuild. }
  split; [exact Hbuild |]. split; [exact Hrun |].
  unfold figure_data. now rewrite Hrun.
Qed.

(** X12. With a negative [N] the cells raise nothing: the lattice is empty
    and the MDP has the single state "exercised", with one pair of reward 0
    that stays there with probability 1. *)
Theorem negative_periods_degenerate (junk : nat -> nat -> R) (p : params) :
  (N p < 0)%Z ->
  exists mdp : DiscreteDP,
    build_option_mdp junk p = Ok mdp
    /\ ps p (u p (T p / IZR (N p))) = []
    /\ shape (ddp_Q mdp) = (1%nat, 1%nat)
    /\ ddp_R mdp = [0]
    /\ ddp_s_indices mdp = [0%Z] /\ ddp_a_indices mdp = [0%Z]
    /\ prob mdp 0 0 = 1.
Proof.
  intros HN. destruct (build_spec junk p) as (mdp & Hrun & Hb); [lia |].
  exists mdp. split; [exact Hrun |].
  assert (Hps : ps p (u p (T p / IZR (N p))) = []).
  { apply length_zero_iff_nil. rewrite ps_length. lia. }
  destruct Hb as (HR & _ & Hs & Ha & Hsh & Hcell). cbv zeta in *.
  rewrite Hps in *. split; [reflexivity |].
  split; [exact Hsh |]. split; [exact HR |]. split; [exact Hs |]. split; [exact Ha |].
  rewrite Hcell. reflexivity.
Qed.

(** X13. The pair list holds every pair (state, action) with a state below
    [n] and an action below 2 except the pair [(n-1, 1)], each exactly once:
    the pair [(s, a)] is at index [2s + a] and nowhere else. *)
Theorem pair_list_complete (k s a i : nat) :
  (s_indices k !! i = Some (Z.of_nat s) /\ a_indices k !! i = Some (Z.of_nat a))
  <-> ((s < k)%nat /\ (a < 2)%nat /\ ~ (s = (k - 1)%nat /\ a = 1%nat)
       /\ i = (2 * s + a)%nat).
Proof.
  split.
  - intros [Hs Ha]. pose proof (lookup_lt_Some _ _ _ Hs) as Hi.
    rewrite s_indices_length in Hi.
    rewrite s_indices_lookup in Hs by exact Hi. rewrite a_indices_lookup in Ha by exact Hi.
    injection Hs as Hs. injection Ha as Ha.
    pose proof (Nat.div_mod_eq i 2) as Hdm.
    destruct (Nat.mod_bound_pos i 2) as [_ Hm]; [lia | lia |].
    unfold L, m in Hi. lia.
  - intros (Hs & Ha & Hne & ->).
    assert (Hi : (2 * s + a < L k)%nat) by (unfold L, m; lia).
    rewrite s_indices_lookup, a_indices_lookup by exact Hi.
    destruct (div2_double s) as [Hd0 Hd1]. destruct (mod2_double s) as [Hm0 Hm1].
    destruct a as [| [| a]]; [| | lia].
    + rewrite Nat.add_0_r, Hd0, Hm0. now split.
    + replace (2 * s + 1)%nat with (S (2 * s)) by lia. rewrite Hd1, Hm1. now split.
Qed.

(** X14. For [N >= 0] the current price [p0] is the price of state [N], the
    middle of the lattice, and each price is [u] times the one below it. *)
Theorem lattice_geometric (p : params) (t : R) :
  (0 <= N p)%Z ->
  ps p (u p t) !! Z.to_nat (N p) = Some (p0 p)
  /\ forall (s : nat) (x y : R),
       ps p (u p t) !! s = Some x -> ps p (u p t) !! S s = Some y -> y = u p t * x.
Proof.
  intros HN. split.
  - rewrite ps_lookup by lia.
    replace (Z.of_nat (Z.to_nat (N p)) - N p)%Z with 0%Z by lia.
    simpl. f_equal. lra.
  - intros s x y Hx Hy.
    pose proof (lookup_lt_Some _ _ _ Hy) as Hs. rewrite ps_length in Hs.
    rewrite ps_lookup in Hx, Hy by lia. injection Hx as <-. injection Hy as <-.
    assert (Hu : u p t <> 0) by (unfold u; pose proof (exp_pos (vol p * sqrt t)); lra).
    replace (Z.of_nat (S s) - N p)%Z with (1 + (Z.of_nat s - N p))%Z by lia.
    rewrite powerRZ_add by exact Hu. rewrite powerRZ_1. ring.
Qed.

(** * The further properties at concrete parameters *)

Local Abbreviation neg_K := negative_strike_params.
Local Abbreviation neg_N := negative_periods_params.
Local Abbreviation neg_N_tau :=
  (T negative_periods_params / IZR (N negative_periods_params)).

(** With the strike -1 ([neg_K]) every lattice price is above the strike. *)
Lemma negative_strike_out_of_the_money (s : nat) (x : R) :
  ps neg_K (u neg_K nb_tau) !! s = Some x ->
  strike neg_K <= x.
Proof.
  intros Hx. left. apply Rlt_trans with 0; [simpl; lra |].
  apply (ps_positive neg_K (u neg_K nb_tau) x s);
    [apply exp_pos | simpl; lra | exact Hx].
Qed.

(** X1 at the notebook's parameters. *)
Lemma american_put_recursion_witness :
  (1 <= N nb)%Z /\
  (0 <= q nb nb_tau <= 1) /\
  (exists (vs : list (list R)) (sigmas : list (list Z)),
      notebook no_junk nb = Ok (vs, sigmas)
      /\ forall (i s : nat) (x : R),
           (Z.of_nat i < N nb)%Z ->
           ps nb (u nb nb_tau) !! s = Some x ->
           exists (V V' : list R) (sigma : list Z),
             vs !! i = Some V /\ vs !! S i = Some V' /\ sigmas !! i = Some sigma
             /\ let hold :=
                  exp (- r nb * nb_tau)
                  * ((1 - q nb nb_tau) * default 0 (V' !! Nat.pred s)
                     + q nb nb_tau
                       * default 0 (V' !! Nat.min (s + 1) (Z.to_nat (2 * N nb)))) in
                V !! s = Some (Rmax hold (strike nb - x))
                /\ sigma !! s = Some (if decide (hold < strike nb - x) then 1%Z else 0%Z)).
Proof.
  assert (H1 : (1 <= N nb)%Z) by (simpl; lia).
  assert (H2 : 0 <= q nb nb_tau <= 1) by (apply notebook_q_bounds).
  repeat (split; [assumption |]).
  apply (american_put_recursion no_junk nb); assumption.
Defined.

(** X2 at the notebook's parameters. *)
Lemma exercised_state_worth_zero_witness :
  (1 <= N nb)%Z /\
  (0 <= q nb nb_tau <= 1) /\
  (exists (vs : list (list R)) (sigmas : list (list Z)),
      notebook no_junk nb = Ok (vs, sigmas)
      /\ (forall i : nat, (Z.of_nat i <= N nb)%Z ->
            exists V : list R,
              vs !! i = Some V /\ length V = Z.to_nat (2 * N nb + 2) /\ last V = Some 0)
      /\ (forall i : nat, (Z.of_nat i < N nb)%Z ->
            exists sigma : list Z,
              sigmas !! i = Some sigma /\ length sigma = Z.to_nat (2 * N nb + 2)
              /\ last sigma = Some 0%Z)).
Proof.
  assert (H1 : (1 <= N nb)%Z) by (simpl; lia).
  assert (H2 : 0 <= q nb nb_tau <= 1) by (apply notebook_q_bounds).
  repeat (split; [assumption |]).
  apply (exercised_state_worth_zero no_junk nb); assumption.
Defined.

(** X3 at the notebook's parameters. *)
Lemma premium_dominates_payoff_witness :
  (1 <= N nb)%Z /\
  (0 <= q nb nb_tau <= 1) /\
  (exists (vs : list (list R)) (sigmas : list (list Z)),
      notebook no_junk nb = Ok (vs, sigmas)
      /\ forall (i s : nat) (x : R),
           (Z.of_nat i < N nb)%Z ->
           ps nb (u nb nb_tau) !! s = Some x ->
           exists (V : list R) (y : R),
             vs !! i = Some V /\ V !! s = Some y /\ strike nb - x <= y /\ 0 <= y).
Proof.
  assert (H1 : (1 <= N nb)%Z) by (simpl; lia).
  assert (H2 : 0 <= q nb nb_tau <= 1) by (apply notebook_q_bounds).
  repeat (split; [assumption |]).
  apply (premium_dominates_payoff no_junk nb); assumption.
Defined.

(** X4 at the notebook's parameters. *)
Lemma premium_grows_with_time_to_expiry_witness :
  (1 <= N nb)%Z /\
  (0 <= q nb nb_tau <= 1) /\
  (exists (vs : list (list R)) (sigmas : list (list Z)),
      notebook no_junk nb = Ok (vs, sigmas)
      /\ forall i s : nat,
           (Z.of_nat i < N nb)%Z -> (Z.of_nat s < 2 * N nb + 2)%Z ->
           exists (V V' : list R) (y y' : R),
             vs !! i = Some V /\ vs !! S i = Some V'
             /\ V !! s = Some y /\ V' !! s = Some y' /\ y' <= y).
Proof.
  assert (H1 : (1 <= N nb)%Z) by (simpl; lia).
  assert (H2 : 0 <= q nb nb_tau <= 1) by (apply notebook_q_bounds).
  repeat (split; [assumption |]).
  apply (premium_grows_with_time_to_expiry no_junk nb); assumption.
Defined.

(** X5 at the notebook's parameters. *)
Lemma premium_within_bounds_witness :
  0 < T nb /\
  0 < vol nb /\
  0 <= r nb /\
  0 < p0 nb /\
  (1 <= N nb)%Z /\
  (0 <= q nb nb_tau <= 1) /\
  (exists (vs : list (list R)) (sigmas : list (list Z)) (lowest : R),
      notebook no_junk nb = Ok (vs, sigmas)
      /\ ps nb (u nb nb_tau) !! 0%nat = Some lowest /\ 0 < lowest
      /\ forall i s : nat,
           (Z.of_nat i <= N nb)%Z -> (Z.of_nat s < 2 * N nb + 2)%Z ->
           exists (V : list R) (y : R),
             vs !! i = Some V /\ V !! s = Some y
             /\ 0 <= y <= Rmax 0 (strike nb - lowest)
             /\ (0 < strike nb -> y < strike nb)).
Proof.
  assert (H1 : 0 < T nb) by (simpl; lra).
  assert (H2 : 0 < vol nb) by (simpl; lra).
  assert (H3 : 0 <= r nb) by (simpl; lra).
  assert (H4 : 0 < p0 nb) by (simpl; lra).
  assert (H5 : (1 <= N nb)%Z) by (simpl; lia).
  assert (H6 : 0 <= q nb nb_tau <= 1) by (apply notebook_q_bounds).
  repeat (split; [assumption |]).
  apply (premium_within_bounds no_junk nb); assumption.
Defined.

(** X6 at the notebook's parameters. *)
Lemma premium_decreases_with_price_witness :
  0 < T nb /\
  0 < vol nb /\
  0 < p0 nb /\
  (1 <= N nb)%Z /\
  (0 <= q nb nb_tau <= 1) /\
  (exists (vs : list (list R)) (sigmas : list (list Z)),
      notebook no_junk nb = Ok (vs, sigmas)
      /\ forall i a b : nat,
           (Z.of_nat i <= N nb)%Z -> (a <= b)%nat -> (Z.of_nat b <= 2 * N nb)%Z ->
           exists (V : list R) (ya yb : R),
             vs !! i = Some V /\ V !! a = Some ya /\ V !! b = Some yb /\ yb <= ya).
Proof.
  assert (H1 : 0 < T nb) by (simpl; lra).
  assert (H2 : 0 < vol nb) by (simpl; lra).
  assert (H3 : 0 < p0 nb) by (simpl; lra).
  assert (H4 : (1 <= N nb)%Z) by (simpl; lia).
  assert (H5 : 0 <= q nb nb_tau <= 1) by (apply notebook_q_bounds).
  repeat (split; [assumption |]).
  apply (premium_decreases_with_price no_junk nb); assumption.
Defined.

(** X7 at the notebook's parameters. *)
Lemma figure_data_defined_witness :
  (1 <= N nb)%Z /\
  (0 <= q nb nb_tau <= 1) /\
  (exists (vs : list (list R)) (sigmas : list (list Z)) (V0 premium boundary : list R),
      notebook no_junk nb = Ok (vs, sigmas)
      /\ figure_data no_junk nb = Ok (ps nb (u nb nb_tau), premium, boundary)
      /\ vs !! 0%nat = Some V0
      /\ length premium = length (ps nb (u nb nb_tau))
      /\ (forall s : nat, (s < length premium)%nat -> premium !! s = V0 !! s)
      /\ length boundary = Z.to_nat (N nb)
      /\ forall x : R, x ∈ boundary -> x ∈ ps nb (u nb nb_tau)).
Proof.
  assert (H1 : (1 <= N nb)%Z) by (simpl; lia).
  assert (H2 : 0 <= q nb nb_tau <= 1) by (apply notebook_q_bounds).
  repeat (split; [assumption |]).
  apply (figure_data_defined no_junk nb); assumption.
Defined.

(** X8 at the notebook's parameters. *)
Lemma max_exercise_price_entries_witness :
  (1 <= N nb)%Z /\
  (0 <= q nb nb_tau <= 1) /\
  (exists (vs : list (list R)) (sigmas : list (list Z)) (premium boundary : list R),
      notebook no_junk nb = Ok (vs, sigmas)
      /\ figure_data no_junk nb = Ok (ps nb (u nb nb_tau), premium, boundary)
      /\ forall j : nat, (Z.of_nat j < N nb)%Z ->
           exists sigma : list Z,
             sigmas !! (Z.to_nat (N nb) - S j)%nat = Some sigma
             /\ (forall (s : nat) (a : Z), sigma !! s = Some a -> a = 0%Z \/ a = 1%Z)
             /\ (0 <= fold_right Z.add 0%Z sigma <= 2 * N nb + 1)%Z
             /\ boundary !! j
                = ps nb (u nb nb_tau)
                    !! (if decide (fold_right Z.add 0%Z sigma = 0)%Z
                        then Z.to_nat (2 * N nb)
                        else Z.to_nat (fold_right Z.add 0%Z sigma - 1))).
Proof.
  assert (H1 : (1 <= N nb)%Z) by (simpl; lia).
  assert (H2 : 0 <= q nb nb_tau <= 1) by (apply notebook_q_bounds).
  repeat (split; [assumption |]).
  apply (max_exercise_price_entries no_junk nb); assumption.
Defined.

(** X9 at the notebook's parameters with the strike -1. *)
Lemma never_exercised_reads_top_price_witness :
  (1 <= N neg_K)%Z /\
  (0 <= q neg_K nb_tau <= 1) /\
  (forall (s : nat) (x : R),
     ps neg_K (u neg_K nb_tau) !! s = Some x ->
     strike neg_K <= x) /\
  (exists (vs : list (list R)) (sigmas : list (list Z)) (boundary : list R) (top : R),
      notebook no_junk neg_K = Ok (vs, sigmas)
      /\ (forall i : nat, (Z.of_nat i < N neg_K)%Z ->
            sigmas !! i = Some (replicate (Z.to_nat (2 * N neg_K + 2)) 0%Z))
      /\ figure_data no_junk neg_K
         = Ok (ps neg_K (u neg_K nb_tau),
               replicate (Z.to_nat (2 * N neg_K + 1)) 0, boundary)
      /\ ps neg_K (u neg_K nb_tau) !! Z.to_nat (2 * N neg_K) = Some top
      /\ boundary = replicate (Z.to_nat (N neg_K)) top).
Proof.
  assert (H1 : (1 <= N neg_K)%Z) by (simpl; lia).
  assert (H2 : 0 <= q neg_K nb_tau <= 1) by (exact notebook_q_bounds).
  assert (H3 : (forall (s : nat) (x : R),
     ps neg_K (u neg_K nb_tau) !! s = Some x ->
     strike neg_K <= x)) by (exact negative_strike_out_of_the_money).
  repeat (split; [assumption |]).
  apply (never_exercised_reads_top_price no_junk neg_K); assumption.
Defined.

(** X10 at the notebook's parameters. *)
Lemma exercise_at_expiry_witness :
  0 < T nb /\
  0 < vol nb /\
  0 < p0 nb /\
  (1 <= N nb)%Z /\
  (0 <= q nb nb_tau <= 1) /\
  (exists (vs : list (list R)) (sigmas : list (list Z)) (premium boundary V : list R)
           (sigma : list Z),
      notebook no_junk nb = Ok (vs, sigmas)
      /\ figure_data no_junk nb = Ok (ps nb (u nb nb_tau), premium, boundary)
      /\ vs !! (Z.to_nat (N nb) - 1)%nat = Some V
      /\ sigmas !! (Z.to_nat (N nb) - 1)%nat = Some sigma
      /\ (forall (s : nat) (x : R),
            ps nb (u nb nb_tau) !! s = Some x ->
            V !! s = Some (Rmax 0 (strike nb - x))
            /\ sigma !! s = Some (if decide (x < strike nb) then 1%Z else 0%Z))
      /\ forall lowest : R,
           ps nb (u nb nb_tau) !! 0%nat = Some lowest -> lowest < strike nb ->
           exists x : R,
             boundary !! 0%nat = Some x
             /\ x ∈ ps nb (u nb nb_tau) /\ x < strike nb
             /\ forall y : R, y ∈ ps nb (u nb nb_tau) -> y < strike nb -> y <= x).
Proof.
  assert (H1 : 0 < T nb) by (simpl; lra).
  assert (H2 : 0 < vol nb) by (simpl; lra).
  assert (H3 : 0 < p0 nb) by (simpl; lra).
  assert (H4 : (1 <= N nb)%Z) by (simpl; lia).
  assert (H5 : 0 <= q nb nb_tau <= 1) by (apply notebook_q_bounds).
  repeat (split; [assumption |]).
  apply (exercise_at_expiry no_junk nb); assumption.
Defined.

(** X12 at the notebook's parameters with [N = -3]. *)
Lemma negative_periods_degenerate_witness :
  (N neg_N < 0)%Z /\
  (exists mdp : DiscreteDP,
      build_option_mdp no_junk neg_N = Ok mdp
      /\ ps neg_N (u neg_N neg_N_tau) = []
      /\ shape (ddp_Q mdp) = (1%nat, 1%nat)
      /\ ddp_R mdp = [0]
      /\ ddp_s_indices mdp = [0%Z] /\ ddp_a_indices mdp = [0%Z]
      /\ prob mdp 0 0 = 1).
Proof.
  assert (H1 : (N neg_N < 0)%Z) by (simpl; lia).
  repeat (split; [assumption |]).
  apply (negative_periods_degenerate no_junk neg_N); assumption.
Defined.

(** X14 at the notebook's parameters. *)
Lemma lattice_geometric_witness :
  (0 <= N nb)%Z /\
  (ps nb (u nb nb_tau) !! Z.to_nat (N nb) = Some (p0 nb)
    /\ forall (s : nat) (x y : R),
         ps nb (u nb nb_tau) !! s = Some x -> ps nb (u nb nb_tau) !! S s = Some y ->
         y = u nb nb_tau * x).
Proof.
  assert (H1 : (0 <= N nb)%Z) by (simpl; lia).
  repeat (split; [assumption |]).
  apply (lattice_geometric nb nb_tau); assumption.
Defined.
